(** * Deja: conversation indexing, episode segmentation, stemming, search

    A shallow embedding of the core of [src/lib]: the Porter stemmer
    ([stemmer.py]), the log extractor and episode segmenter
    ([extraction.py]), the cache scan ([cache.py]), session-id resolution
    ([commands/shared.py]), search ([commands/search.py]), the display
    helpers ([formatters.py]) and the notes store ([notes.py]).

    The program is dynamically typed Python working on values decoded from
    JSON, so the embedding works on a [json] value type and every Python
    operation that can raise returns a [res] (an exception or a value).
    What lies outside the repository is left open or taken as given: the
    file system (a log file is its path, its modification time and the
    entries read from it), the JSON decoder, [datetime.fromisoformat], the
    clock and the notes store (parameters of the search), and text outside
    ASCII. *)

From Stdlib Require Import ZArith List String Ascii Bool Arith Lia.
From Stdlib Require Import Sorting.Sorted Sorting.Permutation.
From Stdlib Require Import DecimalString.
Import ListNotations.

Local Open Scope string_scope.
Local Open Scope list_scope.
Local Open Scope Z_scope.

(* ===================================================================== *)
(** * Python strings *)
(* ===================================================================== *)

Module PyStr.

(** A [str] is modelled as a Rocq [string]; only ASCII text is modelled. *)

Definition chars (s : string) : list ascii := list_ascii_of_string s.
Definition str (l : list ascii) : string := string_of_list_ascii l.

Definition len (s : string) : nat := String.length s.

(** [s[:n]] for a non-negative [n]. *)
Definition take (n : nat) (s : string) : string := str (firstn n (chars s)).

(** [s[n:]] for a non-negative [n]. *)
Definition drop (n : nat) (s : string) : string := str (skipn n (chars s)).

(** [s[:-n]] for a positive [n]. *)
Definition chop (n : nat) (s : string) : string := take (len s - n) s.

(** [s[-1]], when [s] is not empty. *)
Definition last_char (s : string) : option ascii :=
  match rev (chars s) with
  | c :: _ => Some c
  | [] => None
  end.

Definition startswith (s p : string) : bool := String.prefix p s.

Definition endswith (s suf : string) : bool :=
  (len suf <=? len s)%nat && String.eqb (drop (len s - len suf) s) suf.

(** [sub in s] on two strings: substring test. *)
Fixpoint contains (sub s : string) : bool :=
  String.prefix sub s ||
  match s with
  | EmptyString => false
  | String _ s' => contains sub s'
  end.

Definition is_upper (c : ascii) : bool :=
  let n := nat_of_ascii c in (65 <=? n)%nat && (n <=? 90)%nat.

Definition is_lower (c : ascii) : bool :=
  let n := nat_of_ascii c in (97 <=? n)%nat && (n <=? 122)%nat.

Definition is_digit (c : ascii) : bool :=
  let n := nat_of_ascii c in (48 <=? n)%nat && (n <=? 57)%nat.

Definition lower_char (c : ascii) : ascii :=
  if is_upper c then ascii_of_nat (nat_of_ascii c + 32) else c.

(** [s.lower()] *)
Definition lower (s : string) : string := str (map lower_char (chars s)).

(** Characters [str.split()] treats as white space. *)
Definition is_space (c : ascii) : bool :=
  let n := nat_of_ascii c in
  ((9 <=? n)%nat && (n <=? 13)%nat) || ((28 <=? n)%nat && (n <=? 32)%nat).

(** [sep.join(parts)] on strings. *)
Fixpoint join (sep : string) (parts : list string) : string :=
  match parts with
  | [] => ""
  | [p] => p
  | p :: ps => p ++ sep ++ join sep ps
  end.

(** [c in letters] for a one-character [c]. *)
Definition char_in (c : ascii) (letters : string) : bool :=
  existsb (Ascii.eqb c) (chars letters).

End PyStr.

(* ===================================================================== *)
(** * The Porter stemmer ([stemmer.py]) *)
(* ===================================================================== *)

Module Stemmer.
Import PyStr.

(** [self.vowels = set('aeiou')] *)
Definition vowels : string := "aeiou".

(** [_is_consonant(word, i)]; every caller passes an index in range. *)
Fixpoint _is_consonant (word : list ascii) (i : nat) : bool :=
  let c := nth i word " "%char in
  if char_in c vowels then false
  else if Ascii.eqb c "y" then
         match i with
         | O => true
         | S j => negb (_is_consonant word j)
         end
       else true.

(** The consonant flag of every position of the word. *)
Definition flags (word : string) : list bool :=
  let w := chars word in map (_is_consonant w) (seq 0 (List.length w)).

(** [while i < n and p(i): i += 1] on the remaining positions. *)
Fixpoint skip_while (p : bool -> bool) (l : list bool) : list bool :=
  match l with
  | [] => []
  | c :: l' => if p c then skip_while p l' else l
  end.

(** The second [while] of [_measure]; each round consumes a position, so
    [fuel] larger than the number of positions is never exhausted. *)
Fixpoint measure_loop (fuel : nat) (l : list bool) : nat :=
  match fuel with
  | O => O
  | S fuel' =>
      match l with
      | [] => O
      | _ =>
          match skip_while negb l with
          | [] => O
          | l1 => S (measure_loop fuel' (skip_while (fun c => c) l1))
          end
      end
  end.

(** [_measure(word)] *)
Definition _measure (word : string) : nat :=
  let cs := flags word in
  measure_loop (S (List.length cs)) (skip_while (fun c => c) cs).

(** [_has_vowel(word)] *)
Definition _has_vowel (word : string) : bool := existsb negb (flags word).

(** [_ends_double_consonant(word)] *)
Definition _ends_double_consonant (word : string) : bool :=
  match rev (chars word) with
  | a :: b :: _ =>
      Ascii.eqb a b && _is_consonant (chars word) (len word - 1)
  | _ => false
  end.

(** [_ends_cvc(word)] *)
Definition _ends_cvc (word : string) : bool :=
  if (len word <? 3)%nat then false
  else
    let w := chars word in
    _is_consonant w (len word - 3) &&
    negb (_is_consonant w (len word - 2)) &&
    _is_consonant w (len word - 1) &&
    match last_char word with
    | Some c => negb (char_in c "wxy")
    | None => false
    end.

(** [word[-1] not in letters], used where the word has two characters. *)
Definition last_not_in (word letters : string) : bool :=
  match last_char word with
  | Some c => negb (char_in c letters)
  | None => true
  end.

Definition step1a (word : string) : string :=
  if endswith word "sses" then chop 2 word
  else if endswith word "ies" then chop 2 word
  else if endswith word "ss" then word
  else if endswith word "s" then chop 1 word
  else word.

(** The cleanup shared by the [ed] and [ing] branches of step 1b. *)
Definition step1b_cleanup (word : string) : string :=
  if endswith word "at" || endswith word "bl" || endswith word "iz"
  then word ++ "e"
  else if _ends_double_consonant word && last_not_in word "lsz"
  then chop 1 word
  else if (_measure word =? 1)%nat && _ends_cvc word
  then word ++ "e"
  else word.

Definition step1b (word : string) : string :=
  if endswith word "eed" then
    if (0 <? _measure (chop 3 word))%nat then chop 1 word else word
  else if endswith word "ed" then
    let stem := chop 2 word in
    if _has_vowel stem then step1b_cleanup stem else word
  else if endswith word "ing" then
    let stem := chop 3 word in
    if _has_vowel stem then step1b_cleanup stem else word
  else word.

Definition step1c (word : string) : string :=
  if endswith word "y" && _has_vowel (chop 1 word)
  then chop 1 word ++ "i"
  else word.

Definition step2_suffixes : list (string * string) :=
  [ ("ational", "ate"); ("tional", "tion"); ("enci", "ence");
    ("anci", "ance"); ("izer", "ize"); ("isation", "ize");
    ("ization", "ize"); ("ation", "ate"); ("ator", "ate");
    ("alism", "al"); ("iveness", "ive"); ("fulness", "ful");
    ("ousness", "ous"); ("aliti", "al"); ("iviti", "ive");
    ("biliti", "ble") ].

Definition step3_suffixes : list (string * string) :=
  [ ("icate", "ic"); ("ative", ""); ("alize", "al");
    ("iciti", "ic"); ("ical", "ic"); ("ful", ""); ("ness", "") ].

(** The [for suffix, replacement in ...: if word.endswith(suffix): ... break]
    loop of steps 2 and 3: only the first suffix that matches is tried. *)
Fixpoint rewrite_suffix (rules : list (string * string)) (word : string)
  : string :=
  match rules with
  | [] => word
  | (suffix, replacement) :: rules' =>
      if endswith word suffix then
        let stem := chop (len suffix) word in
        if (0 <? _measure stem)%nat then stem ++ replacement else word
      else rewrite_suffix rules' word
  end.

Definition step4_suffixes : list string :=
  [ "al"; "ance"; "ence"; "er"; "ic"; "able"; "ible";
    "ant"; "ement"; "ment"; "ent"; "ion"; "ou"; "ism";
    "ate"; "iti"; "ous"; "ive"; "ize" ].

Fixpoint strip_suffix (suffixes : list string) (word : string) : string :=
  match suffixes with
  | [] => word
  | suffix :: suffixes' =>
      if endswith word suffix then
        let stem := chop (len suffix) word in
        if (1 <? _measure stem)%nat then
          if String.eqb suffix "ion" then
            match last_char stem with
            | Some c => if char_in c "st" then stem else word
            | None => word
            end
          else stem
        else word
      else strip_suffix suffixes' word
  end.

Definition step5a (word : string) : string :=
  if endswith word "e" then
    let stem := chop 1 word in
    if (1 <? _measure stem)%nat
       || ((_measure stem =? 1)%nat && negb (_ends_cvc stem))
    then stem else word
  else word.

Definition step5b (word : string) : string :=
  if (1 <? _measure word)%nat && _ends_double_consonant word
     && endswith word "l"
  then chop 1 word else word.

(** [PorterStemmer.stem(word)] *)
Definition stem (word : string) : string :=
  let word := lower word in
  if (len word <=? 2)%nat then word
  else
    step5b (step5a (strip_suffix step4_suffixes
      (rewrite_suffix step3_suffixes (rewrite_suffix step2_suffixes
        (step1c (step1b (step1a word))))))).

End Stemmer.

(* ===================================================================== *)
(** * Python values decoded from JSON, and the operations used on them *)
(* ===================================================================== *)

Module Py.
Import PyStr.

Set Warnings "-register-all".

(** What [json.loads] returns.  Numbers are modelled as integers; an
    object is an insertion-ordered [dict], here an association list in
    which a look-up takes the first binding of the key. *)
Inductive json : Type :=
| JNull : json
| JBool : bool -> json
| JNum : Z -> json
| JStr : string -> json
| JArr : list json -> json
| JObj : list (string * json) -> json.

Definition dict : Type := list (string * json).

(** The exceptions the modelled code can raise. *)
Inductive exn : Type :=
| KeyError : exn
| TypeError : exn
| AttributeError : exn
| IndexError : exn.

(** The outcome of running Python code: an exception or a value. *)
Inductive res (A : Type) : Type :=
| Raise : exn -> res A
| Ok : A -> res A.
Arguments Raise {A} _.
Arguments Ok {A} _.

Definition bind {A B : Type} (m : res A) (k : A -> res B) : res B :=
  match m with
  | Raise e => Raise e
  | Ok a => k a
  end.

Notation "x <- m ;; k" := (bind m (fun x => k))
  (at level 61, m at next level, right associativity).
Notation "' pat <- m ;; k" := (bind m (fun x => match x with pat => k end))
  (at level 61, pat pattern, m at next level, right associativity).

(** A [for] loop whose body threads a state and may raise. *)
Fixpoint for_each {A S : Type} (body : S -> A -> res S) (xs : list A)
  (s : S) : res S :=
  match xs with
  | [] => Ok s
  | x :: xs' => s' <- body s x ;; for_each body xs' s'
  end.

(** A list comprehension [[f(x) for x in xs]] whose [f] may raise. *)
Fixpoint map_res {A B : Type} (f : A -> res B) (xs : list A)
  : res (list B) :=
  match xs with
  | [] => Ok []
  | x :: xs' => y <- f x ;; ys <- map_res f xs' ;; Ok (y :: ys)
  end.

(** Truth value of an object in a condition. *)
Definition truthy (v : json) : bool :=
  match v with
  | JNull => false
  | JBool b => b
  | JNum n => negb (n =? 0)
  | JStr s => negb (String.eqb s "")
  | JArr l => match l with [] => false | _ => true end
  | JObj kv => match kv with [] => false | _ => true end
  end.

Fixpoint lookup (k : string) (d : dict) : option json :=
  match d with
  | [] => None
  | (k', v) :: d' => if String.eqb k k' then Some v else lookup k d'
  end.

(** [d[k] = v] on a dict: an existing key keeps its position. *)
Fixpoint assign (k : string) (v : json) (d : dict) : dict :=
  match d with
  | [] => [(k, v)]
  | (k', v') :: d' =>
      if String.eqb k k' then (k, v) :: d' else (k', v') :: assign k v d'
  end.

Definition has_key (k : string) (d : dict) : bool :=
  match lookup k d with Some _ => true | None => false end.

(** [a == b] on decoded values: [True == 1] and [False == 0] hold, dicts
    compare without regard to order. *)
Fixpoint py_eq (a b : json) {struct a} : bool :=
  match a, b with
  | JNull, JNull => true
  | JBool x, JBool y => Bool.eqb x y
  | JBool x, JNum n => n =? (if x then 1 else 0)
  | JNum n, JBool x => n =? (if x then 1 else 0)
  | JNum n, JNum m => n =? m
  | JStr s, JStr t => String.eqb s t
  | JArr l, JArr m =>
      (fix go (l m : list json) {struct l} : bool :=
         match l, m with
         | [], [] => true
         | x :: l', y :: m' => py_eq x y && go l' m'
         | _, _ => false
         end) l m
  | JObj kv, JObj kv' =>
      (List.length kv =? List.length kv')%nat &&
      (fix go (kv : list (string * json)) : bool :=
         match kv with
         | [] => true
         | (k, v) :: r =>
             match lookup k kv' with
             | Some v' => py_eq v v'
             | None => false
             end && go r
         end) kv
  | _, _ => false
  end.

(** [v == "literal"] *)
Definition is_str (v : json) (s : string) : bool := py_eq v (JStr s).

(** Whether [hash(v)] succeeds. *)
Definition hashable (v : json) : bool :=
  match v with
  | JArr _ | JObj _ => false
  | _ => true
  end.

(** [isinstance(v, dict)] *)
Definition is_dict (v : json) : bool :=
  match v with JObj _ => true | _ => false end.

(** [v.get(k, default)] *)
Definition get_default (v : json) (k : string) (default : json) : res json :=
  match v with
  | JObj d => Ok (match lookup k d with Some x => x | None => default end)
  | _ => Raise AttributeError
  end.

(** [v.get(k)] *)
Definition get (v : json) (k : string) : res json := get_default v k JNull.

(** [v[k]] with a string key. *)
Definition getitem (v : json) (k : string) : res json :=
  match v with
  | JObj d => match lookup k d with Some x => Ok x | None => Raise KeyError end
  | _ => Raise TypeError
  end.

(** [k in v] with a string [k]. *)
Definition contains_key (k : string) (v : json) : res bool :=
  match v with
  | JObj d => Ok (has_key k d)
  | JArr l => Ok (existsb (py_eq (JStr k)) l)
  | JStr s => Ok (contains k s)
  | _ => Raise TypeError
  end.

(** The items a [for x in v] loop visits. *)
Definition iter (v : json) : res (list json) :=
  match v with
  | JArr l => Ok l
  | JObj d => Ok (map (fun kv => JStr (fst kv)) d)
  | JStr s => Ok (map (fun c => JStr (String c "")) (chars s))
  | _ => Raise TypeError
  end.

(** [x in xs] on a list or a set of hashable values. *)
Definition member (x : json) (xs : list json) : bool := existsb (py_eq x) xs.

(** [list(set(xs))]; Python leaves the order of the result open, the model
    keeps first occurrences in order. *)
Fixpoint dedup (seen xs : list json) : list json :=
  match xs with
  | [] => []
  | x :: xs' =>
      if member x seen then dedup seen xs' else x :: dedup (x :: seen) xs'
  end.

Definition set_of (xs : list json) : res (list json) :=
  if forallb hashable xs then Ok (dedup [] xs) else Raise TypeError.

(** [sep.join(xs)]: every item has to be a [str]. *)
Definition as_str (v : json) : res string :=
  match v with JStr s => Ok s | _ => Raise TypeError end.

Definition join_json (sep : string) (xs : list json) : res string :=
  parts <- map_res as_str xs ;; Ok (join sep parts).

(** [len(v)] *)
Definition py_len (v : json) : res nat :=
  match v with
  | JStr s => Ok (len s)
  | JArr l => Ok (List.length l)
  | JObj d => Ok (List.length d)
  | _ => Raise TypeError
  end.

(** [v[:n]] for a non-negative [n]; a dict cannot be sliced. *)
Definition slice_to (n : nat) (v : json) : res json :=
  match v with
  | JStr s => Ok (JStr (take n s))
  | JArr l => Ok (JArr (firstn n l))
  | _ => Raise TypeError
  end.

(** [str(n)] on integers. *)
Definition str_of_nat (n : nat) : string :=
  NilZero.string_of_uint (Nat.to_uint n).

Definition str_of_Z (z : Z) : string := NilZero.string_of_int (Z.to_int z).

Definition hex_digit (n : nat) : ascii :=
  if (n <? 10)%nat then ascii_of_nat (48 + n) else ascii_of_nat (87 + n).

(** The double quote character. *)
Definition dquote : ascii := ascii_of_nat 34.

(** One character of [repr(s)] inside the quote [q]. *)
Definition repr_char (q c : ascii) : string :=
  let n := nat_of_ascii c in
  if Ascii.eqb c "\" then "\\"
  else if Ascii.eqb c q then String "\" (String q "")
  else if (n =? 10)%nat then "\n"
  else if (n =? 13)%nat then "\r"
  else if (n =? 9)%nat then "\t"
  else if (n <? 32)%nat || (n =? 127)%nat
  then String "\" (String "x" (String (hex_digit (n / 16))
         (String (hex_digit (n mod 16)) "")))
  else String c "".

(** [repr(s)] of a string. *)
Definition repr_str (s : string) : string :=
  let q := if contains "'" s && negb (contains (String dquote "") s)
           then dquote else "'"%char in
  String q (String.concat "" (map (repr_char q) (chars s))) ++ String q "".

(** [repr(v)] *)
Fixpoint repr (v : json) : string :=
  match v with
  | JNull => "None"
  | JBool true => "True"
  | JBool false => "False"
  | JNum n => str_of_Z n
  | JStr s => repr_str s
  | JArr l => "[" ++ join ", " (map repr l) ++ "]"
  | JObj d =>
      "{" ++ join ", "
               (map (fun kv =>
                       (repr_str (fst kv) ++ ": " ++ repr (snd kv))%string)
                    d)
          ++ "}"
  end.

(** [str(v)], what an f-string substitutes for [{v}]. *)
Definition format (v : json) : string :=
  match v with
  | JStr s => s
  | _ => repr v
  end.

(** [a + b] where [b] is a [str]. *)
Definition add_str (a : json) (b : string) : res json :=
  match a with
  | JStr s => Ok (JStr (s ++ b))
  | _ => Raise TypeError
  end.

End Py.

(* ===================================================================== *)
(** * Tokenising and bulk stemming ([stemmer.py], module level) *)
(* ===================================================================== *)

Module StemText.
Import PyStr Stemmer.

Definition is_letter (c : ascii) : bool := is_lower c || is_upper c.

(** [\w] on ASCII text. *)
Definition is_word_char (c : ascii) : bool :=
  is_letter c || is_digit c || Ascii.eqb c "_".

(** The maximal runs of word characters of a text; [cur] is the run being
    read, most recent character first. *)
Fixpoint word_runs (cur cs : list ascii) : list (list ascii) :=
  match cs with
  | [] => match cur with [] => [] | _ => [rev cur] end
  | c :: cs' =>
      if is_word_char c then word_runs (c :: cur) cs'
      else match cur with
           | [] => word_runs [] cs'
           | _ => rev cur :: word_runs [] cs'
           end
  end.

(** [re.findall(r'\b[a-zA-Z]+\b', text)]: a match has a word boundary at
    both ends, so it is a whole run of word characters made of letters. *)
Definition findall_words (text : string) : list string :=
  map str (filter (forallb is_letter) (word_runs [] (chars text))).

(** The words handed to the stemmer: those of the lower-cased text that
    are longer than two characters, in text order. *)
Definition words_of (text : string) : list string :=
  filter (fun w => (2 <? len w)%nat) (findall_words (lower text)).

(** The stems of these words, in text order. *)
Definition stems_of (text : string) : list string :=
  map stem (words_of text).

Fixpoint add_once (k : string) (ks : list string) : list string :=
  match ks with
  | [] => [k]
  | k' :: ks' => if String.eqb k k' then ks else k' :: add_once k ks'
  end.

(** [stem_text(text)]: the set of stems, here without repetition. *)
Definition stem_text (text : string) : list string :=
  fold_left (fun acc k => add_once k acc) (stems_of text) [].

Fixpoint count_add (k : string) (c : list (string * nat))
  : list (string * nat) :=
  match c with
  | [] => [(k, 1%nat)]
  | (k', n) :: c' =>
      if String.eqb k k' then (k', S n) :: c' else (k', n) :: count_add k c'
  end.

(** [stem_text_with_counts(text)] = [dict(Counter(stems))] *)
Definition stem_text_with_counts (text : string) : list (string * nat) :=
  fold_left (fun c k => count_add k c) (stems_of text) [].

(** [stem_query(query)] *)
Definition stem_query (query : string) : list string := stem_text query.

End StemText.

(* ===================================================================== *)
(** * The log extractor and the episode segmenter ([extraction.py]) *)
(* ===================================================================== *)

Import Py.

Module Snapshot.
(** One element of [todo_snapshots]. *)
Record t : Type := mk {
  message_index : Z;
  timestamp : json;
  todos : list json
}.
End Snapshot.

Module Episode.
(** One element of the list [calculate_episodes] returns. *)
Record t : Type := mk {
  title : json;
  message_range : Z * Z;
  completed_at : Z;
  message_count : Z
}.
End Episode.

Module FinalTodos.
(** [final_todos], a dict with exactly these three keys. *)
Record t : Type := mk {
  completed : list json;
  in_progress : list json;
  pending : list json
}.
Definition empty : t := mk [] [] [].
End FinalTodos.

Module ConvRecord.
(** The dict [extract_conversation_data] returns. *)
Record t : Type := mk {
  session_id : json;
  project : string;
  first_message : string;
  user_message_arc : list string;
  user_message_count : nat;
  timestamp : json;
  todo_snapshots : list Snapshot.t;
  final_todos : FinalTodos.t;
  work_items : list json;
  episodes : list Episode.t;
  message_count : Z;
  files_touched : list string;
  commands_run : list string;
  urls_fetched : list json;
  term_counts : list (string * nat)
}.
End ConvRecord.

Module Extraction.
Import PyStr Py.

(** The items one element of a content list adds to [text_parts]. *)
Definition text_part (item : json) : list json :=
  match item with
  | JStr _ => [item]
  | JObj d =>
      if is_str (match lookup "type" d with Some x => x | None => JNull end)
                "text"
      then [match lookup "text" d with Some x => x | None => JStr "" end]
      else []
  | _ => []
  end.

(** [extract_text_content(content)] *)
Definition extract_text_content (content : json) : res string :=
  match content with
  | JStr s => Ok s
  | JArr l => join_json " " (flat_map text_part l)
  | _ => Ok ""
  end.

Definition caveat : string := "Caveat: The messages below were generated".

(** [is_local_command_noise(content)] *)
Definition is_local_command_noise (content : string) : bool :=
  if String.eqb content "" then false
  else if startswith content caveat then true
  else false.

Fixpoint take_while (p : ascii -> bool) (s : string) : string :=
  match s with
  | EmptyString => EmptyString
  | String c s' => if p c then String c (take_while p s') else EmptyString
  end.

(** [re.search(r'<command-name>([^<]+)</command-name>', content)]: the
    first position where the opening tag is followed by a non-empty run
    without ["<"] and then by the closing tag; the group is that run. *)
Fixpoint search_command_name (content : string) : option string :=
  let here :=
    if String.prefix "<command-name>" content then
      let rest := drop 14 content in
      let name := take_while (fun c => negb (Ascii.eqb c "<")) rest in
      if negb (String.eqb name "")
         && String.prefix "</command-name>" (drop (len name) rest)
      then Some name else None
    else None in
  match here with
  | Some name => Some name
  | None =>
      match content with
      | EmptyString => None
      | String _ content' => search_command_name content'
      end
  end.

(** [clean_local_command(content)] *)
Definition clean_local_command (content : string) : string :=
  match (if contains "<command-name>" content
         then search_command_name content else None) with
  | Some name => "[" ++ name ++ "]"
  | None =>
      if contains "<local-command-stdout>" content then "[command output]"
      else content
  end.

(** The body of the loop of [extract_user_text]. *)
Definition user_text_step (text_parts : list json) (entry : json)
  : res (list json) :=
  ty <- get entry "type" ;;
  message <- get entry "message" ;;
  if is_str ty "user" && truthy message then
    c <- get_default message "content" (JStr "") ;;
    content <- extract_text_content c ;;
    if negb (String.eqb content "") && negb (is_local_command_noise content)
    then Ok (text_parts ++ [JStr (clean_local_command content)])
    else Ok text_parts
  else Ok text_parts.

(** [extract_user_text(entries)] *)
Definition extract_user_text (entries : list json) : res string :=
  text_parts <- for_each user_text_step entries [] ;;
  join_json " " text_parts.

(** The body of the loop of [extract_full_text]. *)
Definition full_text_step (text_parts : list json) (entry : json)
  : res (list json) :=
  ty <- get entry "type" ;;
  message <- get entry "message" ;;
  if is_str ty "user" && truthy message then
    c <- get_default message "content" (JStr "") ;;
    content <- extract_text_content c ;;
    if negb (String.eqb content "") && negb (is_local_command_noise content)
    then Ok (text_parts ++ [JStr (clean_local_command content)])
    else Ok text_parts
  else if is_str ty "assistant" && truthy message then
    c <- get_default message "content" (JArr []) ;;
    items <- iter c ;;
    Ok (text_parts ++
        flat_map (fun item =>
                    match item with
                    | JObj _ => text_part item
                    | _ => []
                    end) items)
  else Ok text_parts.

(** [extract_full_text(entries)] *)
Definition extract_full_text (entries : list json) : res string :=
  text_parts <- for_each full_text_step entries [] ;;
  join_json " " text_parts.

(** [normalize_task(task)] *)
Definition normalize_task (task : json) : res json :=
  has_content <- contains_key "content" task ;;
  if has_content then Ok task
  else
    subject <- get_default task "subject" (JStr "") ;;
    description <- get_default task "description" (JStr "") ;;
    content <-
      (if truthy description then
         n <- py_len description ;;
         desc_truncated <-
           (if (100 <? n)%nat
            then d100 <- slice_to 100 description ;; add_str d100 "..."
            else Ok description) ;;
         Ok (JStr (format subject ++ ": " ++ format desc_truncated))
       else Ok subject) ;;
    status <- get_default task "status" (JStr "pending") ;;
    activeForm <- get_default task "activeForm" (JStr "") ;;
    priority <- get_default task "priority" (JStr "") ;;
    id <- get_default task "id" (JStr "") ;;
    description200 <-
      (if truthy description then slice_to 200 description
       else Ok (JStr "")) ;;
    owner <- get_default task "owner" (JStr "") ;;
    Ok (JObj [ ("content", content);
               ("status", status);
               ("activeForm", activeForm);
               ("priority", priority);
               ("id", id);
               ("subject", subject);
               ("description", description200);
               ("owner", owner) ]).

(** The state of the two nested loops of [calculate_episodes]. *)
Record seg_state : Type := mk_seg {
  seg_episodes : list Episode.t;
  completed_todos : list json;
  prev_message_idx : Z
}.

(** The body of the inner loop of [calculate_episodes]. *)
Definition episode_step (message_index : Z) (st : seg_state) (todo : json)
  : res seg_state :=
  todo_content <- get_default todo "content" (JStr "") ;;
  status <- get todo "status" ;;
  if is_str status "completed" && truthy todo_content then
    if negb (hashable todo_content) then Raise TypeError
    else if negb (member todo_content (completed_todos st)) then
      Ok {| seg_episodes :=
              seg_episodes st ++
              [ {| Episode.title := todo_content;
                   Episode.message_range :=
                     (prev_message_idx st, message_index);
                   Episode.completed_at := message_index;
                   Episode.message_count :=
                     message_index - prev_message_idx st |} ];
            completed_todos := todo_content :: completed_todos st;
            prev_message_idx := message_index |}
    else Ok st
  else Ok st.

Definition snapshot_step (st : seg_state) (snapshot : Snapshot.t)
  : res seg_state :=
  for_each (episode_step (Snapshot.message_index snapshot))
           (Snapshot.todos snapshot) st.

(** [calculate_episodes(todo_snapshots)] *)
Definition calculate_episodes (todo_snapshots : list Snapshot.t)
  : res (list Episode.t) :=
  st <- for_each snapshot_step todo_snapshots
          {| seg_episodes := []; completed_todos := [];
             prev_message_idx := 0 |} ;;
  Ok (seg_episodes st).

(** [xs[-1]] guarded by [if xs]. *)
Definition last_opt {A : Type} (xs : list A) : option A :=
  match rev xs with
  | x :: _ => Some x
  | [] => None
  end.

(** The [TaskCreate] branch. When [normalize_task] returns its argument,
    [task['id'] = next_id] also writes into the entry the task came from;
    nothing reads that field of an entry afterwards, so the write is
    modelled on the task alone. *)
Definition task_create (message_index : Z) (ts : json)
  (todo_snapshots : list Snapshot.t) (tool_input : json)
  : res (list Snapshot.t) :=
  task <- normalize_task tool_input ;;
  let existing :=
    match last_opt todo_snapshots with
    | Some s => Snapshot.todos s
    | None => []
    end in
  let next_id := str_of_nat (List.length existing + 1) in
  id <- get task "id" ;;
  let task' :=
    match task with
    | JObj d => if truthy id then task else JObj (assign "id" (JStr next_id) d)
    | _ => task
    end in
  Ok (todo_snapshots ++
      [ {| Snapshot.message_index := message_index;
           Snapshot.timestamp := ts;
           Snapshot.todos := existing ++ [task'] |} ]).

(** The body of the loop over the previous todos in the [TaskUpdate]
    branch: [t.copy()], then the status is replaced when the id matches. *)
Definition update_todo (task_id new_status : json) (t : json) : res json :=
  match t with
  | JObj d =>
      if py_eq (match lookup "id" d with Some x => x | None => JNull end)
               task_id
      then Ok (JObj (assign "status" new_status d))
      else Ok t
  | _ => Raise AttributeError
  end.

(** The [TaskUpdate] branch. *)
Definition task_update (message_index : Z) (ts : json)
  (todo_snapshots : list Snapshot.t) (tool_input : json)
  : res (list Snapshot.t) :=
  task_id <- get_default tool_input "taskId" (JStr "") ;;
  new_status <- get tool_input "status" ;;
  match last_opt todo_snapshots with
  | Some s =>
      if truthy task_id && truthy new_status then
        updated <- map_res (update_todo task_id new_status)
                     (Snapshot.todos s) ;;
        Ok (todo_snapshots ++
            [ {| Snapshot.message_index := message_index;
                 Snapshot.timestamp := ts;
                 Snapshot.todos := updated |} ])
      else Ok todo_snapshots
  | None => Ok todo_snapshots
  end.

(** The body of the loop over the content items of an assistant entry. *)
Definition tool_use_item (message_index : Z) (ts : json)
  (todo_snapshots : list Snapshot.t) (content_item : json)
  : res (list Snapshot.t) :=
  if negb (is_dict content_item) then Ok todo_snapshots
  else
    ty <- get content_item "type" ;;
    if negb (is_str ty "tool_use") then Ok todo_snapshots
    else
      tool_name <- get_default content_item "name" (JStr "") ;;
      tool_input <- get_default content_item "input" (JObj []) ;;
      if is_str tool_name "TodoWrite" then
        todos <- get_default tool_input "todos" (JArr []) ;;
        items <- iter todos ;;
        normalized <- map_res normalize_task items ;;
        Ok (todo_snapshots ++
            [ {| Snapshot.message_index := message_index;
                 Snapshot.timestamp := ts;
                 Snapshot.todos := normalized |} ])
      else if is_str tool_name "TaskCreate" then
        task_create message_index ts todo_snapshots tool_input
      else if is_str tool_name "TaskUpdate" then
        task_update message_index ts todo_snapshots tool_input
      else Ok todo_snapshots.

(** The variables the main loop of [extract_conversation_data] updates. *)
Record loop_state : Type := mk_loop {
  todo_snapshots : list Snapshot.t;
  message_index : Z;
  session_id : json;
  timestamp : json;
  user_messages : list string
}.

Definition initial_state : loop_state :=
  {| todo_snapshots := []; message_index := 0; session_id := JNull;
     timestamp := JNull; user_messages := [] |}.

(** The body of the main loop of [extract_conversation_data]. After
    [entry.get('type')] has returned, [entry] is a dict and the later
    [entry.get] calls cannot raise. *)
Definition entry_step (st : loop_state) (entry : json) : res loop_state :=
  has_sid <- contains_key "sessionId" entry ;;
  sid <- (if has_sid && negb (truthy (session_id st))
          then getitem entry "sessionId" else Ok (session_id st)) ;;
  ty <- get entry "type" ;;
  message <- get entry "message" ;;
  ts <- get entry "timestamp" ;;
  todos <- get entry "todos" ;;
  um <- (if is_str ty "user" && truthy message then
           c <- get_default message "content" (JStr "") ;;
           msg_content <- extract_text_content c ;;
           if negb (String.eqb msg_content "") then
             Ok (user_messages st ++ [take 200 msg_content],
                 if truthy (timestamp st) then timestamp st else ts)
           else Ok (user_messages st, timestamp st)
         else Ok (user_messages st, timestamp st)) ;;
  let idx := if is_str ty "user" || is_str ty "assistant"
             then message_index st + 1 else message_index st in
  snaps <- (if is_str ty "assistant" && truthy message then
              c <- get_default message "content" (JArr []) ;;
              items <- iter c ;;
              for_each (tool_use_item idx ts) items (todo_snapshots st)
            else Ok (todo_snapshots st)) ;;
  snaps' <- (if is_str ty "user" && truthy todos then
               items <- iter todos ;;
               normalized <- map_res normalize_task items ;;
               Ok (snaps ++
                   [ {| Snapshot.message_index := idx;
                        Snapshot.timestamp := ts;
                        Snapshot.todos := normalized |} ])
             else Ok snaps) ;;
  Ok {| todo_snapshots := snaps'; message_index := idx; session_id := sid;
        timestamp := snd um; user_messages := fst um |}.

(** The main loop of [extract_conversation_data]. *)
Definition extract_loop (entries : list json) : res loop_state :=
  for_each entry_step entries initial_state.

(** [final_todos[status].append(content)] *)
Definition final_todos_append (ft : FinalTodos.t) (status content : json)
  : res FinalTodos.t :=
  if negb (hashable status) then Raise TypeError
  else if is_str status "completed" then
    Ok {| FinalTodos.completed := FinalTodos.completed ft ++ [content];
          FinalTodos.in_progress := FinalTodos.in_progress ft;
          FinalTodos.pending := FinalTodos.pending ft |}
  else if is_str status "in_progress" then
    Ok {| FinalTodos.completed := FinalTodos.completed ft;
          FinalTodos.in_progress := FinalTodos.in_progress ft ++ [content];
          FinalTodos.pending := FinalTodos.pending ft |}
  else if is_str status "pending" then
    Ok {| FinalTodos.completed := FinalTodos.completed ft;
          FinalTodos.in_progress := FinalTodos.in_progress ft;
          FinalTodos.pending := FinalTodos.pending ft ++ [content] |}
  else Raise KeyError.

(** The body of the loop that fills [final_todos]. *)
Definition final_todo_step (ft : FinalTodos.t) (todo : json)
  : res FinalTodos.t :=
  status <- get_default todo "status" (JStr "pending") ;;
  content <- get_default todo "content" (JStr "") ;;
  if truthy content then final_todos_append ft status content else Ok ft.

(** The step "calculate final state" of [extract_conversation_data]:
    [final_todos] from the todos of the latest snapshot. *)
Definition build_final_todos (todo_snapshots : list Snapshot.t)
  : res FinalTodos.t :=
  match last_opt todo_snapshots with
  | Some s => for_each final_todo_step (Snapshot.todos s) FinalTodos.empty
  | None => Ok FinalTodos.empty
  end.

(** [os.path.basename(p)] on a POSIX path. *)
Definition basename (p : string) : string :=
  str (rev (chars (take_while (fun c => negb (Ascii.eqb c "/"))
                              (str (rev (chars p)))))).

Fixpoint drop_while (f : ascii -> bool) (l : list ascii) : list ascii :=
  match l with
  | [] => []
  | c :: l' => if f c then drop_while f l' else l
  end.

(** [os.path.dirname(p)] on a POSIX path. *)
Definition dirname (p : string) : string :=
  let head := drop_while (fun c => negb (Ascii.eqb c "/")) (rev (chars p)) in
  match drop_while (fun c => Ascii.eqb c "/") head with
  | [] => str (rev head)
  | stripped => str (rev stripped)
  end.

(** [command.split()[0] if command.split() else ''] *)
Definition first_token (command : string) : string :=
  str (chars (take_while (fun c => negb (is_space c))
                         (str (drop_while is_space (chars command))))).

(** [s.add(x)] on a set of strings; the model keeps insertion order. *)
Definition set_add := StemText.add_once.

(** The three sets [extract_activity_signals] fills. *)
Record signals : Type := mk_signals {
  sig_files_touched : list string;
  sig_commands_run : list string;
  sig_urls_fetched : list json
}.

(** The body of the inner loop of [extract_activity_signals]. *)
Definition signal_item (sg : signals) (content_item : json) : res signals :=
  if negb (is_dict content_item) then Ok sg
  else
    ty <- get content_item "type" ;;
    if negb (is_str ty "tool_use") then Ok sg
    else
      tool_name <- get_default content_item "name" (JStr "") ;;
      tool_input <- get_default content_item "input" (JObj []) ;;
      sg1 <- (if is_str tool_name "Read" || is_str tool_name "Write"
                 || is_str tool_name "Edit" then
                file_path <- get_default tool_input "file_path" (JStr "") ;;
                if truthy file_path then
                  fp <- as_str file_path ;;
                  Ok {| sig_files_touched :=
                          set_add fp (set_add (basename fp)
                                              (sig_files_touched sg));
                        sig_commands_run := sig_commands_run sg;
                        sig_urls_fetched := sig_urls_fetched sg |}
                else Ok sg
              else Ok sg) ;;
      sg2 <- (if is_str tool_name "Bash" then
                command <- get_default tool_input "command" (JStr "") ;;
                if truthy command then
                  match command with
                  | JStr cmd =>
                      let cmd_short := first_token cmd in
                      let cs := if String.eqb cmd_short ""
                                then sig_commands_run sg1
                                else set_add cmd_short (sig_commands_run sg1) in
                      Ok {| sig_files_touched := sig_files_touched sg1;
                            sig_commands_run := set_add (take 100 cmd) cs;
                            sig_urls_fetched := sig_urls_fetched sg1 |}
                  | _ => Raise AttributeError
                  end
                else Ok sg1
              else Ok sg1) ;;
      if is_str tool_name "WebFetch" then
        url <- get_default tool_input "url" (JStr "") ;;
        if truthy url then
          if negb (hashable url) then Raise TypeError
          else
            Ok {| sig_files_touched := sig_files_touched sg2;
                  sig_commands_run := sig_commands_run sg2;
                  sig_urls_fetched :=
                    if member url (sig_urls_fetched sg2)
                    then sig_urls_fetched sg2
                    else sig_urls_fetched sg2 ++ [url] |}
        else Ok sg2
      else Ok sg2.

(** The body of the outer loop of [extract_activity_signals]. *)
Definition signal_entry (sg : signals) (entry : json) : res signals :=
  ty <- get entry "type" ;;
  message <- get entry "message" ;;
  if negb (is_str ty "assistant") || negb (truthy message) then Ok sg
  else
    c <- get_default message "content" (JArr []) ;;
    items <- iter c ;;
    for_each signal_item items sg.

(** [extract_activity_signals(entries)] *)
Definition extract_activity_signals (entries : list json) : res signals :=
  for_each signal_entry entries
    {| sig_files_touched := []; sig_commands_run := [];
       sig_urls_fetched := [] |}.

(** The descriptions collected from the latest snapshot. *)
Definition task_description (todo : json) : res (list json) :=
  desc <- get_default todo "description" (JStr "") ;;
  Ok (if truthy desc then [desc] else []).

(** [user_message_arc]: the first and, when there are several, the last. *)
Definition message_arc (user_messages : list string) : list string :=
  match user_messages with
  | [] => []
  | first :: rest =>
      match last_opt rest with
      | Some l => [first; l]
      | None => [first]
      end
  end.

(** [extract_conversation_data(jsonl_file)], on the entries
    [parse_jsonl_file] read from the file. *)
Definition extract_conversation_data (jsonl_file : string)
  (entries : list json) : res ConvRecord.t :=
  st <- extract_loop entries ;;
  final_todos <- build_final_todos (todo_snapshots st) ;;
  episodes <- (match todo_snapshots st with
               | [] => Ok []
               | _ => calculate_episodes (todo_snapshots st)
               end) ;;
  let episode_titles :=
    filter truthy (map Episode.title episodes) in
  work_items <- set_of (FinalTodos.completed final_todos
                        ++ FinalTodos.in_progress final_todos
                        ++ FinalTodos.pending final_todos
                        ++ episode_titles) ;;
  task_descriptions <-
    (match last_opt (todo_snapshots st) with
     | Some s =>
         ds <- map_res task_description (Snapshot.todos s) ;;
         Ok (List.concat ds)
     | None => Ok []
     end) ;;
  let user_message_arc := message_arc (user_messages st) in
  activity <- extract_activity_signals entries ;;
  full_text <- extract_full_text entries ;;
  work_text <- join_json " " work_items ;;
  desc_text <- join_json " " task_descriptions ;;
  let all_searchable_text :=
    join " " [ full_text; work_text; desc_text;
               join " " (sig_files_touched activity);
               join " " (sig_commands_run activity) ] in
  let term_counts := StemText.stem_text_with_counts all_searchable_text in
  Ok {| ConvRecord.session_id :=
          if truthy (session_id st) then session_id st else JStr "unknown";
        ConvRecord.project := basename (dirname jsonl_file);
        ConvRecord.first_message :=
          match user_messages st with
          | m :: _ => m
          | [] => "No message"
          end;
        ConvRecord.user_message_arc := user_message_arc;
        ConvRecord.user_message_count := List.length (user_messages st);
        ConvRecord.timestamp :=
          if truthy (timestamp st) then timestamp st else JStr "";
        ConvRecord.todo_snapshots := todo_snapshots st;
        ConvRecord.final_todos := final_todos;
        ConvRecord.work_items := work_items;
        ConvRecord.episodes := episodes;
        ConvRecord.message_count := message_index st;
        ConvRecord.files_touched := sig_files_touched activity;
        ConvRecord.commands_run := sig_commands_run activity;
        ConvRecord.urls_fetched := sig_urls_fetched activity;
        ConvRecord.term_counts := term_counts |}.

End Extraction.

(* ===================================================================== *)
(** * The cache scan ([cache.py]) *)
(* ===================================================================== *)

Module Cache.
Import PyStr Py.

(** [is_entry_stale(entry)] *)
Definition is_entry_stale (entry : json) : res bool :=
  has_terms <- contains_key "term_counts" entry ;;
  if negb has_terms then Ok true
  else
    has_episodes <- contains_key "episodes" entry ;;
    if negb has_episodes then Ok true else Ok false.

(** [s.replace(old, '')] for a non-empty [old]; [skip] counts the
    characters of a match still to be dropped. *)
Fixpoint remove_all (old : string) (skip : nat) (s : string) : string :=
  match s with
  | EmptyString => EmptyString
  | String c s' =>
      match skip with
      | S k => remove_all old k s'
      | O =>
          if String.prefix old s then remove_all old (len old - 1) s'
          else String c (remove_all old O s')
      end
  end.

(** [v < current_mtime], where [current_mtime] is a number. *)
Definition lt_number (v : json) (current_mtime : Z) : res bool :=
  match v with
  | JNum n => Ok (n <? current_mtime)
  | JBool b => Ok ((if b then 1 else 0) <? current_mtime)
  | _ => Raise TypeError
  end.

Definition snapshot_json (s : Snapshot.t) : json :=
  JObj [ ("message_index", JNum (Snapshot.message_index s));
         ("timestamp", Snapshot.timestamp s);
         ("todos", JArr (Snapshot.todos s)) ].

Definition episode_json (e : Episode.t) : json :=
  JObj [ ("title", Episode.title e);
         ("message_range",
          JArr [ JNum (fst (Episode.message_range e));
                 JNum (snd (Episode.message_range e)) ]);
         ("completed_at", JNum (Episode.completed_at e));
         ("message_count", JNum (Episode.message_count e)) ].

Definition strings_json (l : list string) : json := JArr (map JStr l).

(** The dict [extract_conversation_data] returns, as the value it is. *)
Definition record_json (r : ConvRecord.t) : dict :=
  [ ("session_id", ConvRecord.session_id r);
    ("project", JStr (ConvRecord.project r));
    ("first_message", JStr (ConvRecord.first_message r));
    ("user_message_arc", strings_json (ConvRecord.user_message_arc r));
    ("user_message_count",
     JNum (Z.of_nat (ConvRecord.user_message_count r)));
    ("timestamp", ConvRecord.timestamp r);
    ("todo_snapshots", JArr (map snapshot_json (ConvRecord.todo_snapshots r)));
    ("final_todos",
     JObj [ ("completed",
             JArr (FinalTodos.completed (ConvRecord.final_todos r)));
            ("in_progress",
             JArr (FinalTodos.in_progress (ConvRecord.final_todos r)));
            ("pending",
             JArr (FinalTodos.pending (ConvRecord.final_todos r))) ]);
    ("work_items", JArr (ConvRecord.work_items r));
    ("episodes", JArr (map episode_json (ConvRecord.episodes r)));
    ("message_count", JNum (ConvRecord.message_count r));
    ("files_touched", strings_json (ConvRecord.files_touched r));
    ("commands_run", strings_json (ConvRecord.commands_run r));
    ("urls_fetched", JArr (ConvRecord.urls_fetched r));
    ("term_counts",
     JObj (map (fun kn => (fst kn, JNum (Z.of_nat (snd kn))))
               (ConvRecord.term_counts r))) ].

(** A log file as the scan sees it: its path, [os.path.getmtime] of it
    (a number, here an integer) and the entries [parse_jsonl_file] reads. *)
Record log_file : Type := mk_file {
  file_path : string;
  current_mtime : Z;
  file_entries : list json
}.

(** [os.path.basename(file_path).replace('.jsonl', '')] *)
Definition session_id_of (file_path : string) : string :=
  remove_all ".jsonl" O (Extraction.basename file_path).

(** The value of [needs_reparse] when the body of the loop reaches
    [if needs_reparse]. *)
Definition needs_reparse (cache : dict) (session_id : string)
  (current_mtime : Z) : res bool :=
  match lookup session_id cache with
  | None => Ok true
  | Some entry =>
      mtime <- get_default entry "mtime" (JNum 0) ;;
      older <- lt_number mtime current_mtime ;;
      if older then Ok true else is_entry_stale entry
  end.

(** The freshly extracted record with [mtime] and [file_path] set. *)
Definition fresh_record (f : log_file) (data : ConvRecord.t) : json :=
  JObj (assign "file_path" (JStr (file_path f))
          (assign "mtime" (JNum (current_mtime f)) (record_json data))).

(** The [try] block of the loop of [index_files], on the cache and the
    flag [cache_modified]. *)
Definition index_file_try (st : dict * bool) (f : log_file)
  : res (dict * bool) :=
  let session_id := session_id_of (file_path f) in
  reparse <- needs_reparse (fst st) session_id (current_mtime f) ;;
  if reparse then
    data <- Extraction.extract_conversation_data (file_path f)
              (file_entries f) ;;
    Ok (assign session_id (fresh_record f data) (fst st), true)
  else Ok st.

(** One round of the loop: [except Exception] reports and goes on. *)
Definition index_file (st : dict * bool) (f : log_file) : dict * bool :=
  match index_file_try st f with
  | Ok st' => st'
  | Raise _ => st
  end.

(** [index_files()]: the cache after the scan, and whether it is saved. *)
Definition index_files (cache : dict) (all_files : list log_file)
  : dict * bool :=
  fold_left index_file all_files (cache, false).

End Cache.

(* ===================================================================== *)
(** * Session-id resolution ([commands/shared.py]) *)
(* ===================================================================== *)

Module Shared.
Import PyStr Py.

(** The second component of the tuple [resolve_session_id] returns:
    [None], the list of matches, or the error string. *)
Inductive error_or_matches : Type :=
| NoError : error_or_matches
| Matches : list string -> error_or_matches
| ErrorString : string -> error_or_matches.

(** [resolve_session_id(partial_id, cache)] *)
Definition resolve_session_id (partial_id : string) (cache : dict)
  : option string * error_or_matches :=
  if has_key partial_id cache then (Some partial_id, NoError)
  else
    let matches :=
      filter (fun sid => startswith sid partial_id) (map fst cache) in
    match matches with
    | [m] => (Some m, NoError)
    | _ :: _ :: _ => (None, Matches matches)
    | [] =>
        (None,
         ErrorString ("Session " ++ String dquote partial_id
                      ++ String dquote " not found."))
    end.

End Shared.

(* ===================================================================== *)
(** * Search ([commands/search.py]) *)
(* ===================================================================== *)

Module SearchResult.
(** One element of [results], with the fields the ordering reads; [shape]
    stands for the display fields ([matchSource], [summary], [project],
    [when], [turns], [firstMatch]). *)
Record t (D : Type) : Type := mk {
  sessionId : string;
  score : Z;
  _ts : json;
  shape : D
}.
Arguments mk {D} _ _ _ _.
Arguments sessionId {D} _.
Arguments score {D} _.
Arguments _ts {D} _.
Arguments shape {D} _.
End SearchResult.

Module Search.
Import PyStr Py.

Definition SCORE_WORK_ITEMS : Z := 3.
Definition SCORE_NOTES : Z := 3.
Definition SCORE_FILES : Z := 2.
Definition SCORE_COMMANDS : Z := 1.
Definition SCORE_TEXT : Z := 1.
Definition SCORE_MULTI_TERM_BONUS : Z := 2.

(** [s.replace(old, new)] for a non-empty [old]. *)
Fixpoint replace_all (old new : string) (skip : nat) (s : string) : string :=
  match s with
  | EmptyString => EmptyString
  | String c s' =>
      match skip with
      | S k => replace_all old new k s'
      | O =>
          if String.prefix old s
          then new ++ replace_all old new (len old - 1) s'
          else String c (replace_all old new O s')
      end
  end.

(** [s.split()]; [cur] is the token being read, last character first. *)
Fixpoint split_ws (cur cs : list ascii) : list string :=
  match cs with
  | [] => match cur with [] => [] | _ => [str (rev cur)] end
  | c :: cs' =>
      if is_space c then
        match cur with
        | [] => split_ws [] cs'
        | _ => str (rev cur) :: split_ws [] cs'
        end
      else split_ws (c :: cur) cs'
  end.

(** [a < b] on the values a sort key can hold. *)
Fixpoint lt_json (a b : json) {struct a} : res bool :=
  match a, b with
  | JNum n, JNum m => Ok (n <? m)
  | JNum n, JBool y => Ok (n <? (if y then 1 else 0))
  | JBool x, JNum m => Ok ((if x then 1 else 0) <? m)
  | JBool x, JBool y => Ok ((if x then 1 else 0) <? (if y then 1 else 0))
  | JStr s, JStr t => Ok (String.ltb s t)
  | JArr l, JArr m =>
      (fix go (l m : list json) {struct l} : res bool :=
         match l, m with
         | [], [] => Ok false
         | [], _ :: _ => Ok true
         | _ :: _, [] => Ok false
         | x :: l', y :: m' => if py_eq x y then go l' m' else lt_json x y
         end) l m
  | _, _ => Raise TypeError
  end.

(** [k1 < k2] on the tuples [(score, ts)]: the first component that
    differs decides. *)
Definition lt_key (k1 k2 : Z * json) : res bool :=
  if fst k1 =? fst k2 then
    if py_eq (snd k1) (snd k2) then Ok false else lt_json (snd k1) (snd k2)
  else Ok (fst k1 <? fst k2).

Section Sorting.
Context {A K : Type}.
Variable key : A -> K.
Variable lt : K -> K -> res bool.

(** [x] goes before the first element whose key is not above its own. *)
Fixpoint insert_desc (x : A) (l : list A) : res (list A) :=
  match l with
  | [] => Ok [x]
  | y :: l' =>
      above <- lt (key x) (key y) ;;
      if above then l'' <- insert_desc x l' ;; Ok (y :: l'')
      else Ok (x :: l)
  end.

(** [l.sort(key=key, reverse=True)]: the result of a stable sort is
    determined by the keys, so it is computed here by insertion; items
    with equal keys keep their order. A comparison that raises makes the
    sort raise. *)
Fixpoint sort_desc (l : list A) : res (list A) :=
  match l with
  | [] => Ok []
  | x :: l' => sorted <- sort_desc l' ;; insert_desc x sorted
  end.
End Sorting.

(** [i] as a position of a list of length [n], as a slice bound. *)
Definition slice_bound (i : Z) (n : nat) : nat :=
  if i <? 0 then Z.to_nat (Z.max 0 (i + Z.of_nat n))
  else Nat.min (Z.to_nat i) n.

(** [l[start:stop]] *)
Definition slice {A : Type} (l : list A) (start stop : Z) : list A :=
  let a := slice_bound start (List.length l) in
  let b := slice_bound stop (List.length l) in
  firstn (b - a) (skipn a l).

(** What [search] returns next to the summary line. *)
Record outcome (D : Type) : Type := mk_outcome {
  results : list (SearchResult.t D);
  totalMatches : nat
}.
Arguments mk_outcome {D} _ _.
Arguments results {D} _.
Arguments totalMatches {D} _.

(** The terms of [query_terms] found in [text_lower], added to
    [matched_terms], and whether there was one. *)
Definition match_terms (query_terms : list string) (text_lower : string)
  (matched_terms : list string) : list string * bool :=
  fold_left
    (fun acc t =>
       if contains t text_lower
       then (StemText.add_once t (fst acc), true) else acc)
    query_terms (matched_terms, false).

(** [' '.join(v).lower()] *)
Definition joined_lower (v : json) : res string :=
  items <- iter v ;;
  text <- join_json " " items ;;
  Ok (lower text).

Section Collaborators.
(** [datetime.fromisoformat] followed by the normalisation to UTC of
    [parse_timestamp], as an instant; [None] when it raises. *)
Variable fromisoformat_utc : string -> option Z.
(** [get_notes_for_session] of the notes store. *)
Variable get_notes_for_session : string -> list string.
(** [recency_boost] of the formatters, which reads the clock. *)
Variable recency_boost : json -> Z.
(** The display fields of a result; building them may raise. The code's
    own are [SearchDisplay.display], further down. *)
Variable D : Type.
Variable display : string -> json -> list string -> list string -> bool
                   -> res D.

(** [parse_timestamp(ts)] of [cache.py]; the bare [except] turns every
    failure into [None]. *)
Definition parse_timestamp (ts : json) : option Z :=
  match ts with
  | JStr s =>
      if String.eqb s "" then None
      else fromisoformat_utc (replace_all "Z" "+00:00" O s)
  | _ => None
  end.

(** [parse_timestamp(bound) if bound else None] *)
Definition parse_bound (bound : option string) : option Z :=
  match bound with
  | Some s => if String.eqb s "" then None else parse_timestamp (JStr s)
  | None => None
  end.

(** The two [continue] tests on the timestamp: [true] when the record
    goes on to scoring. *)
Definition in_time_range (after_dt before_dt conv_dt : option Z) : bool :=
  match after_dt, conv_dt with
  | Some a, Some c => negb (c <? a)
  | _, _ => true
  end &&
  match before_dt, conv_dt with
  | Some b, Some c => negb (c >? b)
  | _, _ => true
  end.

(** The filters at the head of the loop: [true] when neither
    [continue] is taken. *)
Definition passes_filters (project : option string)
  (after_dt before_dt : option Z) (data : json) : res bool :=
  project_ok <-
    (match project with
     | Some p =>
         if String.eqb p "" then Ok true
         else
           proj <- get_default data "project" (JStr "") ;;
           contains_key p proj
     | None => Ok true
     end) ;;
  if negb project_ok then Ok false
  else
    ts <- get_default data "timestamp" (JStr "") ;;
    Ok (in_time_range after_dt before_dt (parse_timestamp ts)).

(** The five binary categories and the bonuses: the score of a record,
    the sources that matched, the matched terms and [text_matched]. *)
Definition score_record (query_terms query_stems : list string)
  (session_id : string) (data : json)
  : res (Z * list string * list string * bool) :=
  work_items <- get_default data "work_items" (JArr []) ;;
  work_items_lower <- joined_lower work_items ;;
  let m1 := match_terms query_terms work_items_lower [] in
  let notes_lower := lower (join " " (get_notes_for_session session_id)) in
  let m2 := match_terms query_terms notes_lower (fst m1) in
  files <- get_default data "files_touched" (JArr []) ;;
  files_lower <- joined_lower files ;;
  let m3 := match_terms query_terms files_lower (fst m2) in
  commands <- get_default data "commands_run" (JArr []) ;;
  commands_lower <- joined_lower commands ;;
  let m4 := match_terms query_terms commands_lower (fst m3) in
  old_counts <- get_default data "user_term_counts" (JObj []) ;;
  term_counts <- get_default data "term_counts" old_counts ;;
  m5 <- for_each
          (fun acc stem =>
             found <- contains_key stem term_counts ;;
             if found then
               Ok (fold_left
                     (fun mt t =>
                        if existsb (String.eqb stem) (StemText.stem_query t)
                        then StemText.add_once t mt else mt)
                     query_terms (fst acc), true)
             else Ok acc)
          query_stems (fst m4, false) ;;
  let score :=
    (if snd m1 then SCORE_WORK_ITEMS else 0)
    + (if snd m2 then SCORE_NOTES else 0)
    + (if snd m3 then SCORE_FILES else 0)
    + (if snd m4 then SCORE_COMMANDS else 0)
    + (if snd m5 then SCORE_TEXT else 0) in
  let match_source :=
    (if snd m1 then ["todos"] else [])
    ++ (if snd m2 then ["notes"] else [])
    ++ (if snd m3 then ["files"] else [])
    ++ (if snd m4 then ["commands"] else [])
    ++ (if snd m5 then ["text"] else []) in
  Ok (score, match_source, fst m5, snd m5).

(** The body of the loop over [cache.items()]. *)
Definition search_step (query_terms query_stems : list string)
  (project : option string) (after_dt before_dt : option Z)
  (results : list (SearchResult.t D)) (item : string * json)
  : res (list (SearchResult.t D)) :=
  let session_id := fst item in
  let data := snd item in
  keep <- passes_filters project after_dt before_dt data ;;
  if negb keep then Ok results
  else
    sc <- score_record query_terms query_stems session_id data ;;
    let '(score, match_source, matched_terms, text_matched) := sc in
    if score =? 0 then Ok results
    else
      let matched := Z.of_nat (List.length matched_terms) in
      let score1 :=
        if 1 <? matched
        then score + (matched - 1) * SCORE_MULTI_TERM_BONUS else score in
      ts <- get data "timestamp" ;;
      let score2 := score1 + recency_boost ts in
      d <- display session_id data match_source matched_terms
             text_matched ;;
      mtime <- get_default data "mtime" (JNum 0) ;;
      Ok (results ++
          [ SearchResult.mk session_id score2 mtime d ]).

(** [x['_ts'] or ''] *)
Definition ts_key (r : SearchResult.t D) : json :=
  if truthy (SearchResult._ts r) then SearchResult._ts r else JStr "".

(** The sort at the end of [search]. *)
Definition sort_results (recent : bool) (results : list (SearchResult.t D))
  : res (list (SearchResult.t D)) :=
  if recent then
    sort_desc ts_key lt_json results
  else
    sort_desc (fun r => (SearchResult.score r, ts_key r)) lt_key results.

(** [search(query, limit, skip, project, after, before, recent)] on the
    cache [ensure_cache_fresh] left. *)
Definition search (cache : dict) (query : string) (limit skip : Z)
  (project after before : option string) (recent : bool)
  : res (outcome D) :=
  let after_dt := parse_bound after in
  let before_dt := parse_bound before in
  let query_terms := split_ws [] (chars (lower query)) in
  let query_stems := StemText.stem_query query in
  results <- for_each
               (search_step query_terms query_stems project
                  after_dt before_dt) cache [] ;;
  sorted <- sort_results recent results ;;
  Ok {| results := slice sorted skip (skip + limit);
        totalMatches := List.length sorted |}.

End Collaborators.
End Search.

(* ===================================================================== *)
(** * Display helpers ([formatters.py]) *)
(* ===================================================================== *)

Module Formatters.
Import PyStr Py.

(** [v is False] *)
Definition is_False (v : json) : bool :=
  match v with JBool false => true | _ => false end.

(** [omit_empty(d)]: the comprehension keeps the order of [d]. *)
Definition omit_empty (d : dict) : dict :=
  filter
    (fun kv =>
       negb (member (snd kv) [JArr []; JObj []; JStr ""; JNull; JNum 0])
       && negb (is_False (snd kv))
       || String.eqb (fst kv) "success")
    d.

(** [s.split(sep)] for a one-character [sep]; [cur] is the part being
    read, last character first. *)
Fixpoint split_char (sep : ascii) (cur cs : list ascii) : list string :=
  match cs with
  | [] => [str (rev cur)]
  | c :: cs' =>
      if Ascii.eqb c sep then str (rev cur) :: split_char sep [] cs'
      else split_char sep (c :: cur) cs'
  end.

(** [short_project(project_name)]; a value without [split] raises. *)
Definition short_project (project_name : json) : res string :=
  if negb (truthy project_name) then Ok ""
  else
    match project_name with
    | JStr s => Ok (last (split_char "-" [] (chars s)) s)
    | _ => Raise AttributeError
    end.

End Formatters.

(* ===================================================================== *)
(** * The notes store ([notes.py]) *)
(* ===================================================================== *)

Module Notes.
Import PyStr Py.

(** [get_notes_for_session(session_id)] on the loaded [_notes_cache]. *)
Definition get_notes_for_session (notes_cache : dict) (session_id : string)
  : json :=
  match lookup session_id notes_cache with
  | Some v => v
  | None => JArr []
  end.

(** [add_note_to_session(session_id, note)] on the loaded
    [_notes_cache]: the cache it leaves and the count it returns. A
    stored value that is no list has no [append]. *)
Definition add_note_to_session (notes_cache : dict)
  (session_id note : string) : res (dict * nat) :=
  let notes_cache1 :=
    if has_key session_id notes_cache then notes_cache
    else assign session_id (JArr []) notes_cache in
  match lookup session_id notes_cache1 with
  | Some (JArr l) =>
      let l' := l ++ [JStr note] in
      Ok (assign session_id (JArr l') notes_cache1, List.length l')
  | Some _ => Raise AttributeError
  | None => Raise KeyError
  end.

End Notes.

(* ===================================================================== *)
(** * The display fields of a search result ([commands/search.py]) *)
(* ===================================================================== *)

Module SearchDisplay.
Import PyStr Py.

(** What a result holds besides [sessionId], [score] and [_ts]; the key
    [firstMatch] is present only for [Some]. *)
Record fields : Type := mk_fields {
  matchSource : list string;
  summary : json;
  project : string;
  when : string;
  turns : json;
  firstMatch : option string
}.

(** [v[i]] for a non-negative [i]. *)
Definition item_at (v : json) (i : nat) : res json :=
  match v with
  | JArr l =>
      match nth_error l i with Some x => Ok x | None => Raise IndexError end
  | JStr s =>
      match nth_error (chars s) i with
      | Some c => Ok (JStr (String c ""))
      | None => Raise IndexError
      end
  | JObj _ => Raise KeyError
  | _ => Raise TypeError
  end.

(** [v.lower()] *)
Definition lower_of (v : json) : res string :=
  match v with
  | JStr s => Ok (lower s)
  | _ => Raise AttributeError
  end.

(** The arrow of the two-message summary, as its UTF-8 bytes. *)
Definition arrow : string :=
  String (ascii_of_nat 226) (String (ascii_of_nat 134)
    (String (ascii_of_nat 146) "")).

(** The [summary] of a result: the first three completed todos, or the
    arc of the user messages, or the first message. *)
Definition summary_of (data : json) : res json :=
  final_todos <- getitem data "final_todos" ;;
  completed <- get_default final_todos "completed" (JArr []) ;;
  if truthy completed then
    first3 <- slice_to 3 completed ;;
    items <- iter first3 ;;
    text <- join_json ", " items ;;
    Ok (JStr text)
  else
    arc <- get_default data "user_message_arc" (JArr []) ;;
    turns <- get_default data "user_message_count" (JNum 0) ;;
    n <- py_len arc ;;
    if (n =? 2)%nat then
      a0 <- item_at arc 0 ;;
      a0' <- slice_to 60 a0 ;;
      a1 <- item_at arc 1 ;;
      a1' <- slice_to 60 a1 ;;
      Ok (JStr ("[" ++ format turns ++ "t] " ++ format a0' ++ "... "
                ++ arrow ++ " " ++ format a1')%string)
    else if (n =? 1)%nat then
      a0 <- item_at arc 0 ;;
      a0' <- slice_to 100 a0 ;;
      Ok (JStr ("[" ++ format turns ++ "t] " ++ format a0')%string)
    else
      first_message <- get_default data "first_message" (JStr "") ;;
      slice_to 100 first_message.

(** The loop over [enumerate(episodes)]: the first episode whose title
    holds a matched term, as [":N title"]; [i] episodes came before. *)
Fixpoint first_episode_match (matched_terms : list string) (i : nat)
  (episodes : list json) : res (option string) :=
  match episodes with
  | [] => Ok None
  | ep :: rest =>
      title <- get_default ep "title" (JStr "") ;;
      title_lower <- lower_of title ;;
      if existsb (fun term => contains term title_lower) matched_terms then
        t <- getitem ep "title" ;;
        Ok (Some (":" ++ str_of_nat (i + 1) ++ " " ++ format t)%string)
      else first_episode_match matched_terms (i + 1) rest
  end.

Section Collaborators.
(** [short_timestamp] of the formatters, which reads the clock. *)
Variable short_timestamp : json -> res string.
(** [_find_first_matching_turn(file_path, matched_terms)] when
    [os.path.exists(file_path)], and [None] otherwise: both read the
    file system. *)
Variable first_matching_turn : json -> list string -> res (option string).

(** The part of the loop body of [search] between the recency boost and
    [results.append]. *)
Definition display (session_id : string) (data : json)
  (match_source matched_terms : list string) (text_matched : bool)
  : res fields :=
  summary <- summary_of data ;;
  episodes <- get_default data "episodes" (JArr []) ;;
  eps <- iter episodes ;;
  first_match <- first_episode_match matched_terms 0 eps ;;
  first_match <-
    (match first_match with
     | Some _ => Ok first_match
     | None =>
         if text_matched then
           file_path <- get data "file_path" ;;
           if truthy file_path
           then first_matching_turn file_path matched_terms
           else Ok None
         else Ok None
     end) ;;
  project_name <- get_default data "project" (JStr "") ;;
  project <- Formatters.short_project project_name ;;
  mtime <- get_default data "mtime" (JNum 0) ;;
  when <- short_timestamp mtime ;;
  turns <- get_default data "user_message_count" (JNum 0) ;;
  Ok {| matchSource := match_source;
        summary := summary;
        project := project;
        when := when;
        turns := turns;
        firstMatch :=
          match first_match with
          | Some s => if String.eqb s "" then None else Some s
          | None => None
          end |}.

End Collaborators.
End SearchDisplay.

(* ===================================================================== *)
(** * Notions used in the statements, and sample inputs *)
(* ===================================================================== *)

Module Notions.
Import PyStr Py Extraction.


(** The words the module documentation and the stages of the algorithm
    give as examples. *)
Definition sample_words : list string :=
  [ "implementing"; "implemented"; "caresses"; "ponies"; "plastered";
    "hopping"; "happy"; "relational"; "generalization"; "running";
    "fixes"; "Search"; "bug"; "at" ].

(** [t.get(k, default)] on a todo that is a dict. *)
Definition field (k : string) (default : json) (t : json) : json :=
  match t with
  | JObj d => match lookup k d with Some x => x | None => default end
  | _ => default
  end.

Definition todo_id : json -> json := field "id" JNull.
Definition todo_content : json -> json := field "content" (JStr "").
(** The status the final-state step reads: absent means pending. *)
Definition todo_status : json -> json := field "status" (JStr "pending").

Definition all_dicts (todos : list json) : Prop :=
  Forall (fun t => is_dict t = true) todos.

(** What the update loop makes of one todo: the status of a todo whose id
    equals [task_id] is replaced and its other fields stay; any other
    todo is carried forward as it is. *)
Definition status_replaced (task_id new_status : json) (t t' : json) : Prop :=
  exists d, t = JObj d /\
    if py_eq (todo_id t) task_id
    then exists d', t' = JObj d'
           /\ lookup "status" d' = Some new_status
           /\ forall k, k <> "status" -> lookup k d' = lookup k d
    else t' = t.

(** A content item that is a tool use of the tool [name] with [input]. *)
Definition is_tool_use (name : string) (item tool_input : json) : Prop :=
  exists d, item = JObj d
    /\ lookup "type" d = Some (JStr "tool_use")
    /\ lookup "name" d = Some (JStr name)
    /\ lookup "input" d = Some tool_input.

(** Sample log entries. *)
Definition user_entry (text : string) : json :=
  JObj [ ("type", JStr "user");
         ("timestamp", JStr "2025-01-01T00:00:00Z");
         ("sessionId", JStr "abc");
         ("message", JObj [("content", JStr text)]) ].

Definition tool_use (name : string) (input : json) : json :=
  JObj [ ("type", JStr "tool_use"); ("name", JStr name); ("input", input) ].

Definition assistant_entry (items : list json) : json :=
  JObj [ ("type", JStr "assistant");
         ("timestamp", JStr "2025-01-01T00:00:01Z");
         ("message", JObj [("content", JArr items)]) ].

Definition todo (id content status : string) : json :=
  JObj [ ("content", JStr content); ("status", JStr status);
         ("id", JStr id) ].

Definition sample_path : string :=
  "/home/u/.claude/projects/-Users-kate-foo/abc.jsonl".

(** A log whose last event updates a task id no todo has. *)
Definition log_before_update : list json :=
  [ user_entry "please fix the bug";
    assistant_entry
      [ tool_use "TodoWrite"
          (JObj [("todos", JArr [todo "1" "fix bug" "in_progress"])]) ] ].

Definition update_unknown : json :=
  tool_use "TaskUpdate"
    (JObj [("taskId", JStr "7"); ("status", JStr "completed")]).

Definition log_update_unknown : list json :=
  log_before_update ++ [ assistant_entry [ update_unknown ] ].

(** The episodes follow one another from [start]: each begins where the
    one before it ended, none ends before it begins, the last ends at
    [fin]. *)
Inductive chained : Z -> list Episode.t -> Z -> Prop :=
| chained_nil : forall a, chained a [] a
| chained_cons : forall a e eps c,
    fst (Episode.message_range e) = a ->
    a <= snd (Episode.message_range e) ->
    chained (snd (Episode.message_range e)) eps c ->
    chained a (e :: eps) c.

(** Every episode is a range [[start, end)] with [start <= end], and of
    two episodes the earlier one starts no later, ends no later, and ends
    before or where the later one starts. *)
Definition ranges_ordered (eps : list Episode.t) : Prop :=
  Forall (fun e => fst (Episode.message_range e)
                   <= snd (Episode.message_range e)) eps
  /\ ForallOrdPairs
       (fun e1 e2 =>
          fst (Episode.message_range e1) <= fst (Episode.message_range e2)
          /\ snd (Episode.message_range e1) <= snd (Episode.message_range e2)
          /\ snd (Episode.message_range e1) <= fst (Episode.message_range e2))
       eps.

(** [c] is the content of a todo that has status completed in one of the
    snapshots. *)
Definition completed_in (snaps : list Snapshot.t) (c : json) : Prop :=
  exists s t, In s snaps /\ In t (Snapshot.todos s)
    /\ field "status" JNull t = JStr "completed"
    /\ todo_content t = c.

(** The numbers of [l] do not decrease and start at [lo] or above. *)
Fixpoint nondecreasing_from (lo : Z) (l : list Z) : Prop :=
  match l with
  | [] => True
  | x :: l' => lo <= x /\ nondecreasing_from x l'
  end.

Definition indices (snaps : list Snapshot.t) : list Z :=
  map Snapshot.message_index snaps.

(** A log with two completions, one of them through a task update. *)
Definition log_two_episodes : list json :=
  [ user_entry "please fix the bug";
    assistant_entry
      [ tool_use "TodoWrite"
          (JObj [("todos", JArr [todo "1" "fix bug" "completed"])]) ];
    assistant_entry
      [ tool_use "TaskCreate"
          (JObj [("subject", JStr "write tests");
                 ("description", JStr "cover it")]) ];
    user_entry "go on";
    assistant_entry
      [ tool_use "TaskUpdate"
          (JObj [("taskId", JStr "2"); ("status", JStr "completed")]) ] ].

(** The contents the final-state loop files under [status]: those of the
    todos that have this status and a non-empty content, in snapshot
    order, one entry per todo. *)
Definition contents_with (status : string) (todos : list json) : list json :=
  flat_map
    (fun t =>
       if truthy (todo_content t) && is_str (todo_status t) status
       then [todo_content t] else [])
    todos.

(** The non-empty contents of a todo list, one entry per todo. *)
Definition filed_contents (todos : list json) : list json :=
  filter truthy (map todo_content todos).

(** The documented status domain; a todo without the field counts as
    pending. *)
Definition status_in_domain (t : json) : Prop :=
  todo_status t = JStr "pending"
  \/ todo_status t = JStr "in_progress"
  \/ todo_status t = JStr "completed".

Definition todo_write (todos : list json) : json :=
  assistant_entry [ tool_use "TodoWrite" (JObj [("todos", JArr todos)]) ].

(** A log whose latest snapshot repeats contents. *)
Definition log_repeated_contents : list json :=
  [ user_entry "please fix the bug";
    todo_write [ todo "1" "a" "pending"; todo "2" "a" "completed";
                 todo "3" "b" "pending"; todo "4" "b" "pending" ] ].

(** A log whose latest snapshot has distinct contents. *)
Definition log_distinct_contents : list json :=
  [ user_entry "please fix the bug";
    todo_write [ todo "1" "a" "pending"; todo "2" "b" "completed";
                 todo "3" "c" "in_progress" ] ].

(** A log whose only todo has an empty content and a status outside the
    documented domain. *)
Definition log_empty_content_odd_status : list json :=
  [ user_entry "please fix the bug";
    todo_write [ todo "1" "" "done" ] ].

(** A log whose only todo has a content and a status outside the
    documented domain. *)
Definition log_odd_status : list json :=
  [ user_entry "please fix the bug";
    todo_write [ todo "1" "fix bug" "done" ] ].

(** A cached record the scan can compare: a dict whose [mtime], when it
    has one, is a number. *)
Definition comparable_entry (entry : json) : Prop :=
  is_dict entry = true /\ exists m, field "mtime" (JNum 0) entry = JNum m.

(** The staleness condition of the scan for the session [sid] and a file
    whose modification time is [current_mtime]: the session is absent
    from the cache, or the cached mtime (0 when the record has none) is
    strictly less, or the cached record lacks [term_counts] or
    [episodes]. *)
Definition must_reparse (cache : dict) (sid : string) (current_mtime : Z)
  : Prop :=
  match lookup sid cache with
  | None => True
  | Some entry =>
      (exists m, field "mtime" (JNum 0) entry = JNum m /\ m < current_mtime)
      \/ (exists d, entry = JObj d /\ has_key "term_counts" d = false)
      \/ (exists d, entry = JObj d /\ has_key "episodes" d = false)
  end.

(** Sample cache states and log files. *)
Definition plain_log : list json :=
  [ user_entry "please fix the bug"; user_entry "thanks" ].

Definition sample_file (mtime : Z) : Cache.log_file :=
  Cache.mk_file sample_path mtime plain_log.

Definition cached_record (mtime : Z) (keys : list string) : json :=
  JObj (("mtime", JNum mtime) :: map (fun k => (k, JArr [])) keys).

Definition cache_three_ids : dict :=
  [ ("abc", cached_record 5 ["term_counts"; "episodes"]);
    ("abcdef", cached_record 6 ["term_counts"; "episodes"]);
    ("abd", cached_record 7 ["term_counts"; "episodes"]) ].

(** A cache whose record of the sample session lacks [episodes]. *)
Definition cache_without_episodes : dict :=
  [ ("abc", cached_record 5 ["term_counts"]) ].

(** The caveat entry of a log, followed by a real user turn. *)
Definition caveat_text : string :=
  "Caveat: The messages below were generated by the user "
  ++ "while running local commands.".

Definition log_with_caveat : list json :=
  [ user_entry caveat_text; user_entry "please fix the bug" ].





(** A stand-in for [datetime.fromisoformat] that knows three days. *)
Definition toy_fromisoformat (s : string) : option Z :=
  if String.eqb s "2025-01-01T00:00:00+00:00" then Some 10
  else if String.eqb s "2025-01-02T00:00:00+00:00" then Some 20
  else if String.eqb s "2025-01-03T00:00:00+00:00" then Some 30
  else None.

Definition no_notes (session_id : string) : list string := [].
Definition no_boost (ts : json) : Z := 0.
(** [short_timestamp] of a modification time on 1 January 1970, read a
    week or more later. *)
Definition old_short_timestamp (mtime : json) : res string := Ok "Jan 01".

(** No log file is on disk: [os.path.exists] is false. *)
Definition not_on_disk (file_path : json) (matched_terms : list string)
  : res (option string) := Ok None.

Definition user_entry_at (timestamp text : string) : json :=
  JObj [ ("type", JStr "user");
         ("timestamp", JStr timestamp);
         ("message", JObj [("content", JStr text)]) ].

(** The log of a session that began at [timestamp] and completed one
    todo, and its file with the modification time [mtime]. *)
Definition session_log (timestamp : string) : list json :=
  [ user_entry_at timestamp "please fix the bug";
    todo_write [ todo "1" "fix bug" "completed" ] ].

Definition session_file (sid timestamp : string) (mtime : Z)
  : Cache.log_file :=
  Cache.mk_file ("/home/u/.claude/projects/-Users-kate-foo/" ++ sid
                 ++ ".jsonl")%string
                mtime (session_log timestamp).

(** The record the scan stores for such a file. *)
Definition session_record (sid timestamp : string) (mtime : Z) : json :=
  match lookup sid
          (fst (Cache.index_files [] [session_file sid timestamp mtime])) with
  | Some data => data
  | None => JNull
  end.

(** The cache after the scan of two such files: the sessions score the
    same; the one that started later was modified earlier. *)
Definition cache_two_sessions : dict :=
  fst (Cache.index_files []
         [ session_file "s-new" "2025-01-02T00:00:00Z" 100;
           session_file "s-old" "2025-01-01T00:00:00Z" 200 ]).

(** The search of the samples: no notes, sessions older than a week,
    log files no longer on disk. *)
Definition toy_search (cache : dict) (query : string) (limit skip : Z)
  (after before : option string) (recent : bool)
  : res (Search.outcome SearchDisplay.fields) :=
  Search.search toy_fromisoformat no_notes no_boost SearchDisplay.fields
    (SearchDisplay.display old_short_timestamp not_on_disk)
    cache query limit skip None after before recent.




End Notions.

(* ===================================================================== *)
(** * Notions used in the further properties *)
(* ===================================================================== *)

Module MoreNotions.
Import PyStr Py Extraction Notions.

(** The number of places where a vowel is followed by a consonant, on the
    consonant flags of a word. *)
Fixpoint vc_count (l : list bool) : nat :=
  match l with
  | [] => O
  | c :: l' =>
      match c, l' with
      | false, true :: _ => S (vc_count l')
      | _, _ => vc_count l'
      end
  end.

(** No character of the string is an upper-case letter. *)
Definition no_upper (s : string) : Prop :=
  Forall (fun c => is_upper c = false) (chars s).

(** The count a frequency map gives for a key, 0 when it has none. *)
Fixpoint count_of (k : string) (c : list (string * nat)) : nat :=
  match c with
  | [] => O
  | (k', n) :: c' => if String.eqb k k' then n else count_of k c'
  end.

(** A step that shortens or keeps the word, and keeps it free of
    upper-case letters. *)
Definition tame (f : string -> string) : Prop :=
  forall w, (len (f w) <= len w)%nat /\ (no_upper w -> no_upper (f w)).

(** The number of times [k] occurs in a list of stems. *)
Definition occurrences (k : string) (l : list string) : nat :=
  count_occ string_dec l k.

(** The [type] of a log entry that is a dict. *)
Definition entry_type (entry : json) : json := field "type" JNull entry.

Definition is_user (entry : json) : bool := is_str (entry_type entry) "user".

Definition is_assistant (entry : json) : bool :=
  is_str (entry_type entry) "assistant".

(** The entries that count as messages. *)
Definition is_message (entry : json) : bool :=
  is_user entry || is_assistant entry.

(** The todo list of the latest snapshot, empty when there is none. *)
Definition latest_todos (snaps : list Snapshot.t) : list json :=
  match last_opt snaps with
  | Some s => Snapshot.todos s
  | None => []
  end.

Definition is_string (v : json) : Prop := exists s, v = JStr s.

(** The number of messages the episodes cover together. *)
Definition total_messages (eps : list Episode.t) : Z :=
  fold_right Z.add 0 (map Episode.message_count eps).

(** Everything final todos and episodes offer as work items. *)
Definition work_item_sources (r : ConvRecord.t) : list json :=
  FinalTodos.completed (ConvRecord.final_todos r)
  ++ FinalTodos.in_progress (ConvRecord.final_todos r)
  ++ FinalTodos.pending (ConvRecord.final_todos r)
  ++ filter truthy (map Episode.title (ConvRecord.episodes r)).

(** The three derived fields of an episode agree with its range. *)
Definition episode_consistent (e : Episode.t) : Prop :=
  Episode.completed_at e = snd (Episode.message_range e)
  /\ Episode.message_count e
     = snd (Episode.message_range e) - fst (Episode.message_range e).

(** Where the last episode was completed, 0 when there is none. *)
Definition last_completed_at (eps : list Episode.t) : Z :=
  match last_opt eps with
  | Some e => Episode.completed_at e
  | None => 0
  end.

(** What the segmenter keeps true of its episodes and of the set of
    titles it has seen. *)
Definition seg_sound (st : seg_state) : Prop :=
  completed_todos st = rev (map Episode.title (seg_episodes st))
  /\ Forall (fun e => episode_consistent e
                      /\ truthy (Episode.title e) = true
                      /\ hashable (Episode.title e) = true)
            (seg_episodes st)
  /\ ForallOrdPairs
       (fun e1 e2 => py_eq (Episode.title e2) (Episode.title e1) = false)
       (seg_episodes st).

(** The entry cannot give a snapshot: it is no assistant entry and has no
    [todos] of its own. *)
Definition no_todo_source (entry : json) : Prop :=
  is_assistant entry = false /\ truthy (field "todos" JNull entry) = false.

(** A user entry whose text opens with the disclaimer about local
    commands. *)
Definition is_disclaimer (entry : json) : Prop :=
  exists d m c text,
    entry = JObj d
    /\ lookup "type" d = Some (JStr "user")
    /\ lookup "message" d = Some (JObj m)
    /\ lookup "content" m = Some c
    /\ extract_text_content c = Ok text
    /\ startswith text caveat = true.

(** The string has no ["<"]. *)
Definition no_markup (s : string) : Prop :=
  Forall (fun ch => ch <> "<"%char) (chars s).

(** The three activity lists hold nothing twice, the files come with
    their base names, and no command is empty. *)
Definition signals_tidy (files commands : list string) (urls : list json)
  : Prop :=
  NoDup files /\ NoDup commands /\ NoDup urls
  /\ (forall p, In p files -> In (basename p) files)
  /\ Forall (fun c => c <> "") commands.

(** An assistant entry one of whose content items is a use of the tool
    [name] with the input dict [input]. *)
Definition uses_tool (entry : json) (name : string) (input : dict) : Prop :=
  exists d m items item,
    entry = JObj d
    /\ lookup "type" d = Some (JStr "assistant")
    /\ lookup "message" d = Some (JObj m)
    /\ lookup "content" m = Some (JArr items)
    /\ In item items
    /\ is_tool_use name item (JObj input).

(** A log in which the assistant reads a file and runs a command. *)
Definition log_with_tools : list json :=
  [ user_entry "please fix the bug";
    assistant_entry
      [ tool_use "Read" (JObj [("file_path", JStr "/src/app/main.py")]);
        tool_use "Bash" (JObj [("command", JStr "git status")]) ] ].

(** The character [c] does not occur in [s]. *)
Definition free_of (c : ascii) (s : string) : Prop :=
  Forall (fun ch => ch <> c) (chars s).

(** A path prefix: empty, or ending in a slash. *)
Definition dir_prefix (prefix : string) : Prop :=
  prefix = "" \/ exists pre, prefix = (pre ++ "/")%string.

(** A notes store with two notes on one session. *)
Definition sample_notes : dict :=
  [ ("abc", JArr [JStr "auth bug"; JStr "fixed in the parser"]) ].

(** A command result with empty and false fields. *)
Definition sample_result : dict :=
  [ ("success", JBool false); ("error", JStr ""); ("matches", JArr []);
    ("total", JNum 0); ("query", JStr "bug"); ("exact", JBool true) ].

(** The first value of a list that is true in a condition. *)
Definition first_truthy (vs : list json) (default : json) : json :=
  match find truthy vs with
  | Some v => v
  | None => default
  end.

(** A text of ASCII characters only. *)
Definition ascii_text (s : string) : Prop :=
  Forall (fun c => (nat_of_ascii c < 128)%nat) (chars s).

End MoreNotions.

(* ===================================================================== *)
(** * Properties of the stemmer *)
(* ===================================================================== *)

Module StemmerFacts.
Import PyStr Stemmer Notions.

Lemma str_chars (s : string) : str (chars s) = s.
Proof. apply string_of_list_ascii_of_string. Qed.

Lemma chars_str (l : list ascii) : chars (str l) = l.
Proof. apply list_ascii_of_string_of_list_ascii. Qed.

Lemma len_chars (s : string) : len s = List.length (chars s).
Proof.
  unfold len, chars. induction s as [|c s IH]; simpl; [reflexivity|].
  now rewrite IH.
Qed.

Lemma len_lower (s : string) : len (lower s) = len s.
Proof.
  unfold lower. rewrite !len_chars, chars_str. apply length_map.
Qed.

Lemma lower_char_idem (c : ascii) : lower_char (lower_char c) = lower_char c.
Proof.
  unfold lower_char. destruct (is_upper c) eqn:U; [|now rewrite U].
  unfold is_upper in *.
  apply andb_true_iff in U as [U1 U2].
  apply Nat.leb_le in U1, U2.
  rewrite nat_ascii_embedding by lia.
  replace ((nat_of_ascii c + 32 <=? 90)%nat) with false
    by (symmetry; apply Nat.leb_gt; lia).
  now rewrite andb_false_r.
Qed.

Lemma lower_idem (s : string) : lower (lower s) = lower s.
Proof.
  unfold lower. rewrite chars_str, map_map. f_equal.
  apply map_ext. intros c. apply lower_char_idem.
Qed.

(** A word of at most two characters is only lower-cased. *)
Lemma stem_short (w : string) : (len w <= 2)%nat -> stem w = lower w.
Proof.
  intros H. unfold stem. rewrite len_lower.
  now apply Nat.leb_le in H as ->.
Qed.

(** C4, the claim as stated, fails: stemming once more shortens the stem
    of "expansion". *)
Lemma stem_not_idempotent :
  stem "expansion" = "expans" /\ stem "expans" = "expan" /\
  ~ (forall w : string, stem (stem w) = stem w).
Proof.
  assert (H1 : stem "expansion" = "expans") by (vm_compute; reflexivity).
  assert (H2 : stem "expans" = "expan") by (vm_compute; reflexivity).
  repeat split; auto.
  intros H. specialize (H "expansion"). rewrite H1, H2 in H. discriminate.
Qed.

(** Stemming starts by lower-casing, so it does not see the case. *)
Lemma stem_lower (w : string) : stem (lower w) = stem w.
Proof. unfold stem. now rewrite lower_idem. Qed.

(** C4, amended: [stem] is a function of its input alone (equal inputs
    give equal outputs); stemming twice gives the same stem for every
    word that stemming only lower-cases, in particular for every word of
    at most two characters, and for each of the sample words. *)
Theorem stem_deterministic_idempotent_short :
  (forall w1 w2 : string, w1 = w2 -> stem w1 = stem w2) /\
  (forall w : string, stem w = lower w -> stem (stem w) = stem w) /\
  (forall w : string, (len w <= 2)%nat -> stem (stem w) = stem w) /\
  Forall (fun w => stem (stem w) = stem w) sample_words.
Proof.
  assert (Hfix : forall w, stem w = lower w -> stem (stem w) = stem w).
  { intros w H. rewrite H at 1. apply stem_lower. }
  split; [intros w1 w2 ->; reflexivity|]. split; [exact Hfix|]. split.
  - intros w H. apply Hfix. now apply stem_short.
  - unfold sample_words.
    repeat (apply Forall_cons; [vm_compute; reflexivity|]).
    apply Forall_nil.
Qed.

Lemma stem_deterministic_idempotent_short_witness :
  stem "Go" = stem "Go" /\ stem (stem "Go") = stem "Go"
  /\ stem (stem "Search") = stem "Search".
Proof.
  destruct stem_deterministic_idempotent_short as (Hd & Hf & Hs & _).
  split; [|split].
  - apply Hd. reflexivity.
  - apply Hs. vm_compute. lia.
  - apply Hf. vm_compute. reflexivity.
Defined.

End StemmerFacts.

(* ===================================================================== *)
(** * Properties of the Python layer *)
(* ===================================================================== *)

Module PyFacts.
Import PyStr Py Extraction.

(** Splits a hypothesis [x <- m ;; k = Ok v] into its two steps. *)
Ltac inv_bind H :=
  match type of H with
  | bind ?m _ = Ok _ =>
      let E := fresh "E" in
      destruct m eqn:E; simpl in H; [discriminate H|]
  end.

Lemma bind_ok {A B : Type} (m : res A) (k : A -> res B) (b : B) :
  bind m k = Ok b -> exists a, m = Ok a /\ k a = Ok b.
Proof. destruct m; simpl; [discriminate|]. intros H. eauto. Qed.

Lemma lookup_assign_same (k : string) (v : json) (d : dict) :
  lookup k (assign k v d) = Some v.
Proof.
  induction d as [|[k' v'] d IH]; simpl.
  - now rewrite String.eqb_refl.
  - destruct (String.eqb k k') eqn:E; simpl.
    + now rewrite String.eqb_refl.
    + now rewrite E.
Qed.

Lemma lookup_assign_other (k k' : string) (v : json) (d : dict) :
  k' <> k -> lookup k' (assign k v d) = lookup k' d.
Proof.
  intros N. induction d as [|[k0 v0] d IH]; simpl.
  - apply String.eqb_neq in N. now rewrite N.
  - destruct (String.eqb k k0) eqn:E; simpl.
    + apply String.eqb_eq in E. subst k0.
      apply String.eqb_neq in N. now rewrite N.
    + now rewrite IH.
Qed.

Lemma is_str_eq (v : json) (s : string) : is_str v s = true -> v = JStr s.
Proof.
  unfold is_str. destruct v; simpl; try discriminate.
  intros H. apply String.eqb_eq in H. now subst.
Qed.

Lemma is_str_refl (s : string) : is_str (JStr s) s = true.
Proof. unfold is_str. simpl. apply String.eqb_refl. Qed.

Lemma last_opt_app {A : Type} (l : list A) (x : A) :
  last_opt (l ++ [x]) = Some x.
Proof. unfold last_opt. now rewrite rev_app_distr. Qed.

Lemma last_opt_nil {A : Type} (l : list A) : last_opt l = None -> l = [].
Proof.
  unfold last_opt. intros H. destruct (rev l) eqn:E; [|discriminate].
  apply (f_equal (@rev A)) in E. now rewrite rev_involutive in E.
Qed.

Lemma last_opt_some {A : Type} (l : list A) (x : A) :
  last_opt l = Some x -> exists l', l = l' ++ [x].
Proof.
  unfold last_opt. intros H. destruct (rev l) as [|y r] eqn:E; [discriminate|].
  injection H as ->. exists (rev r).
  apply (f_equal (@rev A)) in E. now rewrite rev_involutive in E.
Qed.

Lemma last_opt_in {A : Type} (l : list A) (x : A) :
  last_opt l = Some x -> In x l.
Proof.
  intros H. apply last_opt_some in H as [l' ->].
  apply in_or_app. right. now left.
Qed.

Lemma map_res_ok_forall2 {A B : Type} (f : A -> res B) (l : list A)
  (l' : list B) :
  map_res f l = Ok l' -> Forall2 (fun x y => f x = Ok y) l l'.
Proof.
  revert l'. induction l as [|x l IH]; simpl; intros l' H.
  - injection H as <-. constructor.
  - inv_bind H. inv_bind H. injection H as <-. constructor; auto.
Qed.

Lemma map_res_total {A B : Type} (f : A -> res B) (l : list A) :
  Forall (fun x => exists y, f x = Ok y) l -> exists l', map_res f l = Ok l'.
Proof.
  induction 1 as [|x l [y Hy] _ [l' IH]]; simpl.
  - now exists [].
  - rewrite Hy, IH. simpl. now exists (y :: l').
Qed.

End PyFacts.

(* ===================================================================== *)
(** * The incremental update event *)
(* ===================================================================== *)

Module UpdateFacts.
Import PyStr Py Extraction Notions PyFacts.

Lemma update_todo_spec (task_id new_status : json) (d : dict) :
  exists t', update_todo task_id new_status (JObj d) = Ok t'
    /\ status_replaced task_id new_status (JObj d) t'.
Proof.
  unfold update_todo, status_replaced.
  change (match lookup "id" d with Some x => x | None => JNull end)
    with (todo_id (JObj d)).
  destruct (py_eq (todo_id (JObj d)) task_id) eqn:E.
  - eexists. split; [reflexivity|]. exists d. split; [reflexivity|].
    exists (assign "status" new_status d).
    repeat split.
    + apply lookup_assign_same.
    + intros k N. now apply lookup_assign_other.
  - eexists. split; [reflexivity|]. exists d. split; reflexivity.
Qed.

Lemma update_todos_spec (task_id new_status : json) (todos : list json) :
  all_dicts todos ->
  exists updated,
    map_res (update_todo task_id new_status) todos = Ok updated
    /\ Forall2 (status_replaced task_id new_status) todos updated
    /\ (Forall (fun t => py_eq (todo_id t) task_id = false) todos ->
        updated = todos).
Proof.
  induction 1 as [|t todos Ht _ (updated & Hm & Hf & Hn)].
  - exists []. simpl. repeat split; constructor.
  - destruct t as [| | | | |d]; try discriminate Ht.
    destruct (update_todo_spec task_id new_status d) as (t' & Ht' & Hr).
    exists (t' :: updated). cbn [map_res]. rewrite Ht'. cbn [bind].
    rewrite Hm. cbn [bind].
    repeat split.
    + constructor; assumption.
    + intros Hall. inversion Hall as [|? ? Hd Hrest]; subst.
      rewrite (Hn Hrest). f_equal.
      unfold update_todo in Ht'. unfold todo_id, field in Hd.
      rewrite Hd in Ht'. now injection Ht' as <-.
Qed.

Lemma tool_use_item_task_update (idx : Z) (ts : json)
  (snaps : list Snapshot.t) (item tool_input : json) :
  is_tool_use "TaskUpdate" item tool_input ->
  tool_use_item idx ts snaps item = task_update idx ts snaps tool_input.
Proof.
  intros (d & -> & Hty & Hname & Hin).
  unfold tool_use_item. simpl. rewrite Hty, Hname, Hin. simpl.
  reflexivity.
Qed.

(** C1, the claim as stated, fails: after a [TodoWrite] with the one todo
    of id "1", a [TaskUpdate] of the unknown id "7" adds a second
    snapshot (with the todos of the first). *)
Lemma update_unknown_id_emits_snapshot :
  let todos := [todo "1" "fix bug" "in_progress"] in
  let ts := JStr "2025-01-01T00:00:01Z" in
  Forall (fun t => py_eq (todo_id t) (JStr "7") = false) todos
  /\ (st <- extract_loop log_before_update ;; Ok (todo_snapshots st))
       = Ok [ Snapshot.mk 2 ts todos ]
  /\ (st <- extract_loop log_update_unknown ;; Ok (todo_snapshots st))
       = Ok [ Snapshot.mk 2 ts todos; Snapshot.mk 3 ts todos ].
Proof.
  intros todos ts. split; [repeat constructor|].
  split; vm_compute; reflexivity.
Qed.

(** C1, amended: a [TaskUpdate] tool use is a no-op when no snapshot
    exists yet (or when it carries no task id or no status); otherwise it
    emits one new snapshot after the existing ones, in which every todo
    whose id equals the task id has its status replaced and nothing else
    changed, and every other todo is carried forward unchanged; when the
    task id matches no todo of the latest snapshot the new snapshot
    carries the todos of the latest one unchanged. *)
Theorem task_update_effect (idx : Z) (ts : json) (snaps : list Snapshot.t)
  (item : json) (input : dict) :
  is_tool_use "TaskUpdate" item (JObj input) ->
  let task_id := field "taskId" (JStr "") (JObj input) in
  let new_status := field "status" JNull (JObj input) in
  match last_opt snaps with
  | None => tool_use_item idx ts snaps item = Ok snaps
  | Some s =>
      if truthy task_id && truthy new_status then
        all_dicts (Snapshot.todos s) ->
        exists updated,
          tool_use_item idx ts snaps item
            = Ok (snaps ++ [ {| Snapshot.message_index := idx;
                                Snapshot.timestamp := ts;
                                Snapshot.todos := updated |} ])
          /\ Forall2 (status_replaced task_id new_status)
                     (Snapshot.todos s) updated
          /\ (Forall (fun t => py_eq (todo_id t) task_id = false)
                     (Snapshot.todos s) ->
              updated = Snapshot.todos s)
      else tool_use_item idx ts snaps item = Ok snaps
  end.
Proof.
  intros Hitem task_id new_status.
  rewrite (tool_use_item_task_update _ _ _ _ _ Hitem).
  unfold task_update. simpl.
  subst task_id new_status. unfold field.
  set (task_id := match lookup "taskId" input with
                  | Some x => x | None => JStr "" end).
  set (new_status := match lookup "status" input with
                     | Some x => x | None => JNull end).
  destruct (last_opt snaps) as [s|]; [|reflexivity].
  destruct (truthy task_id && truthy new_status); [|reflexivity].
  intros Hd.
  destruct (update_todos_spec task_id new_status _ Hd)
    as (updated & Hm & Hf & Hn).
  exists updated. rewrite Hm. simpl. auto.
Qed.

Lemma task_update_effect_witness :
  exists updated,
    tool_use_item 2 JNull
      [ {| Snapshot.message_index := 1; Snapshot.timestamp := JNull;
           Snapshot.todos := [todo "1" "fix bug" "in_progress"] |} ]
      (tool_use "TaskUpdate"
         (JObj [("taskId", JStr "1"); ("status", JStr "completed")]))
    = Ok [ {| Snapshot.message_index := 1; Snapshot.timestamp := JNull;
              Snapshot.todos := [todo "1" "fix bug" "in_progress"] |};
           {| Snapshot.message_index := 2; Snapshot.timestamp := JNull;
              Snapshot.todos := updated |} ]
    /\ Forall2 (status_replaced (JStr "1") (JStr "completed"))
               [todo "1" "fix bug" "in_progress"] updated.
Proof.
  pose proof (task_update_effect 2 JNull
    [ {| Snapshot.message_index := 1; Snapshot.timestamp := JNull;
         Snapshot.todos := [todo "1" "fix bug" "in_progress"] |} ]
    (tool_use "TaskUpdate"
       (JObj [("taskId", JStr "1"); ("status", JStr "completed")]))
    [("taskId", JStr "1"); ("status", JStr "completed")]) as H.
  simpl in H.
  destruct H as (updated & H1 & H2 & _).
  - eexists. repeat split; reflexivity.
  - repeat constructor.
  - exists updated. split; assumption.
Defined.

End UpdateFacts.

(* ===================================================================== *)
(** * The episode segmenter *)
(* ===================================================================== *)

Module SegmenterFacts.
Import PyStr Py Extraction Notions PyFacts.

Lemma chained_snoc (a b m : Z) (eps : list Episode.t) (e : Episode.t) :
  chained a eps b -> Episode.message_range e = (b, m) -> b <= m ->
  chained a (eps ++ [e]) m.
Proof.
  intros H He Hm. induction H as [a|a e0 eps c H1 H2 H3 IH]; simpl.
  - apply chained_cons; rewrite He; simpl; auto. constructor.
  - apply chained_cons; auto.
Qed.

Lemma chained_bounds (a c : Z) (eps : list Episode.t) :
  chained a eps c ->
  a <= c /\
  Forall (fun e => a <= fst (Episode.message_range e)
                   /\ fst (Episode.message_range e)
                      <= snd (Episode.message_range e)
                   /\ snd (Episode.message_range e) <= c) eps.
Proof.
  induction 1 as [a|a e eps c H1 H2 H3 [IHle IH]].
  - split; [lia|constructor].
  - split; [lia|]. constructor; [lia|].
    eapply Forall_impl; [|exact IH]. simpl. intros e' H. lia.
Qed.

Lemma chained_ordered (a c : Z) (eps : list Episode.t) :
  chained a eps c -> ranges_ordered eps.
Proof.
  induction 1 as [a|a e eps c H1 H2 H3 [IH1 IH2]].
  - split; constructor.
  - split.
    + constructor; [lia|exact IH1].
    + constructor; [|exact IH2].
      apply chained_bounds in H3 as [_ H3].
      eapply Forall_impl; [|exact H3]. simpl. intros e' H. lia.
Qed.

Lemma chained_first (a c : Z) (e : Episode.t) (eps : list Episode.t) :
  chained a (e :: eps) c -> fst (Episode.message_range e) = a.
Proof. now inversion 1. Qed.

(** The invariant of the two loops of [calculate_episodes]. *)
Definition seg_inv (all : list Snapshot.t) (st : seg_state) : Prop :=
  chained 0 (seg_episodes st) (prev_message_idx st)
  /\ Forall (fun e => completed_in all (Episode.title e)) (seg_episodes st).

Lemma episode_step_inv (all : list Snapshot.t) (s : Snapshot.t)
  (st st' : seg_state) (t : json) :
  In s all -> In t (Snapshot.todos s) ->
  episode_step (Snapshot.message_index s) st t = Ok st' ->
  prev_message_idx st <= Snapshot.message_index s ->
  seg_inv all st ->
  seg_inv all st' /\ prev_message_idx st' <= Snapshot.message_index s.
Proof.
  intros Hs Ht H Hle [Hc Hf]. unfold episode_step in H.
  inv_bind H. inv_bind H.
  destruct t as [| | | | |d]; try discriminate E.
  simpl in E, E0. injection E as <-. injection E0 as <-.
  destruct (is_str _ "completed" && truthy _) eqn:C.
  2:{ injection H as <-. split; [split|]; assumption. }
  destruct (negb (hashable _)); [discriminate|].
  destruct (negb (member _ _)).
  2:{ injection H as <-. split; [split|]; assumption. }
  injection H as <-. simpl.
  apply andb_true_iff in C as [C _]. apply is_str_eq in C.
  split; [split|lia]; simpl.
  - eapply chained_snoc; [exact Hc|reflexivity|exact Hle].
  - apply Forall_app. split; [exact Hf|]. constructor; [|constructor].
    simpl. exists s, (JObj d). repeat split; auto.
Qed.

Lemma todos_loop_inv (all : list Snapshot.t) (s : Snapshot.t)
  (todos : list json) (st st' : seg_state) :
  In s all -> incl todos (Snapshot.todos s) ->
  for_each (episode_step (Snapshot.message_index s)) todos st = Ok st' ->
  prev_message_idx st <= Snapshot.message_index s ->
  seg_inv all st ->
  seg_inv all st' /\ prev_message_idx st' <= Snapshot.message_index s.
Proof.
  intros Hs. revert st. induction todos as [|t todos IH]; intros st Hi H Hle Hv.
  - injection H as <-. auto.
  - cbn [for_each] in H. inv_bind H.
    destruct (episode_step_inv all s st s0 t) as [Hv' Hle']; auto.
    { apply Hi. now left. }
    apply (IH s0); auto.
    intros x Hx. apply Hi. now right.
Qed.

Lemma snapshots_loop_inv (all snaps : list Snapshot.t) (st st' : seg_state) :
  incl snaps all ->
  for_each snapshot_step snaps st = Ok st' ->
  nondecreasing_from (prev_message_idx st) (indices snaps) ->
  seg_inv all st ->
  seg_inv all st'.
Proof.
  revert st. induction snaps as [|s snaps IH]; intros st Hi H Hn Hv.
  - now injection H as <-.
  - cbn [for_each] in H. inv_bind H. destruct Hn as [Hle Hn].
    unfold snapshot_step in E.
    destruct (todos_loop_inv all s (Snapshot.todos s) st s0) as [Hv' Hle'];
      auto.
    { apply Hi. now left. }
    { apply incl_refl. }
    apply (IH s0); auto.
    + intros x Hx. apply Hi. now right.
    + simpl in Hn. destruct (indices snaps) as [|x l] eqn:El; [exact I|].
      destruct Hn as [Hx Hn]. split; [lia|exact Hn].
Qed.

(** The segmenter on a snapshot sequence whose message indices start at 0
    or above and do not decrease. *)
Lemma calculate_episodes_ranges (snaps : list Snapshot.t)
  (eps : list Episode.t) :
  nondecreasing_from 0 (indices snaps) ->
  calculate_episodes snaps = Ok eps ->
  ranges_ordered eps
  /\ (forall e rest, eps = e :: rest -> fst (Episode.message_range e) = 0)
  /\ Forall (fun e => completed_in snaps (Episode.title e)) eps.
Proof.
  intros Hn H. unfold calculate_episodes in H. inv_bind H.
  injection H as <-.
  destruct (snapshots_loop_inv snaps snaps _ s (incl_refl _) E) as [Hc Hf].
  - exact Hn.
  - split; constructor.
  - repeat split.
    + eapply chained_ordered; eauto.
    + eapply chained_ordered; eauto.
    + intros e rest Heq. rewrite Heq in Hc. now apply chained_first in Hc.
    + exact Hf.
Qed.

End SegmenterFacts.

(* ===================================================================== *)
(** * The main loop of the extractor *)
(* ===================================================================== *)

Module LoopFacts.
Import PyStr Py Extraction Notions PyFacts.

Lemma nondecreasing_snoc (lo m : Z) (l : list Z) :
  nondecreasing_from lo l -> Forall (fun x => x <= m) l -> lo <= m ->
  nondecreasing_from lo (l ++ [m]).
Proof.
  revert lo. induction l as [|x l IH]; simpl; intros lo Hn Hf Hle.
  - split; [exact Hle|exact I].
  - destruct Hn as [Hx Hn]. inversion Hf; subst.
    split; [exact Hx|]. apply IH; auto.
Qed.

(** The snapshots are in the order of their message indices, which lie
    between 0 and the current [message_index]. *)
Definition snaps_inv (snaps : list Snapshot.t) (idx : Z) : Prop :=
  0 <= idx
  /\ nondecreasing_from 0 (indices snaps)
  /\ Forall (fun x => x <= idx) (indices snaps).

Lemma snaps_inv_snoc (snaps : list Snapshot.t) (idx : Z) (ts : json)
  (todos : list json) :
  snaps_inv snaps idx ->
  snaps_inv (snaps ++ [ {| Snapshot.message_index := idx;
                           Snapshot.timestamp := ts;
                           Snapshot.todos := todos |} ]) idx.
Proof.
  intros (H0 & Hn & Hf). unfold snaps_inv, indices in *.
  rewrite map_app. simpl. repeat split; auto.
  - apply nondecreasing_snoc; auto.
  - apply Forall_app. split; [exact Hf|]. constructor; [lia|constructor].
Qed.

Lemma snaps_inv_mono (snaps : list Snapshot.t) (idx idx' : Z) :
  snaps_inv snaps idx -> idx <= idx' -> snaps_inv snaps idx'.
Proof.
  intros (H0 & Hn & Hf) Hle. repeat split; auto; [lia|].
  eapply Forall_impl; [|exact Hf]. simpl. intros. lia.
Qed.

(** A content item leaves the snapshots as they are or adds one, with the
    current message index and the time stamp of the entry. *)
Lemma tool_use_item_shape (idx : Z) (ts : json) (snaps snaps' : list Snapshot.t)
  (item : json) :
  tool_use_item idx ts snaps item = Ok snaps' ->
  snaps' = snaps
  \/ exists todos,
       snaps' = snaps ++ [ {| Snapshot.message_index := idx;
                              Snapshot.timestamp := ts;
                              Snapshot.todos := todos |} ].
Proof.
  unfold tool_use_item, task_create, task_update. intros H.
  repeat match type of H with
         | (if ?c then _ else _) = Ok _ => destruct c
         | bind ?m _ = Ok _ => inv_bind H
         | match ?x with _ => _ end = Ok _ => destruct x
         end;
    injection H as <-; eauto.
Qed.

Lemma items_loop_inv (idx : Z) (ts : json) (items : list json)
  (snaps snaps' : list Snapshot.t) :
  for_each (tool_use_item idx ts) items snaps = Ok snaps' ->
  snaps_inv snaps idx -> snaps_inv snaps' idx.
Proof.
  revert snaps. induction items as [|item items IH]; intros snaps H Hv.
  - now injection H as <-.
  - cbn [for_each] in H. inv_bind H. apply (IH l); [exact H|].
    apply tool_use_item_shape in E as [->|[todos ->]]; [exact Hv|].
    now apply snaps_inv_snoc.
Qed.

Lemma entry_step_inv (st st' : loop_state) (entry : json) :
  entry_step st entry = Ok st' ->
  snaps_inv (todo_snapshots st) (message_index st) ->
  snaps_inv (todo_snapshots st') (message_index st').
Proof.
  intros H Hv. unfold entry_step in H.
  do 7 inv_bind H.
  match type of H with
  | context [for_each (tool_use_item ?i _)] => set (idx := i) in *
  end.
  assert (Hidx : message_index st <= idx)
    by (subst idx; destruct (_ || _); lia).
  assert (Hv1 : snaps_inv (todo_snapshots st) idx)
    by (eapply snaps_inv_mono; eauto).
  inv_bind H.
  assert (Hv2 : snaps_inv l idx).
  { match type of E6 with
    | (if ?c then _ else _) = _ => destruct c
    end.
    - inv_bind E6. inv_bind E6. eapply items_loop_inv; eauto.
    - now injection E6 as <-. }
  inv_bind H. injection H as <-. simpl.
  match type of E7 with
  | (if ?c then _ else _) = _ => destruct c
  end.
  - inv_bind E7. inv_bind E7. injection E7 as <-.
    now apply snaps_inv_snoc.
  - now injection E7 as <-.
Qed.

Lemma entries_loop_inv (entries : list json) (st st' : loop_state) :
  for_each entry_step entries st = Ok st' ->
  snaps_inv (todo_snapshots st) (message_index st) ->
  snaps_inv (todo_snapshots st') (message_index st').
Proof.
  revert st. induction entries as [|entry entries IH]; intros st H Hv.
  - now injection H as <-.
  - cbn [for_each] in H. inv_bind H. apply (IH l); [exact H|].
    eapply entry_step_inv; eauto.
Qed.

(** Every snapshot sequence the extractor builds is in the order of its
    message indices, which are not negative. *)
Lemma extract_loop_sorted (entries : list json) (st : loop_state) :
  extract_loop entries = Ok st ->
  nondecreasing_from 0 (indices (todo_snapshots st)).
Proof.
  intros H. apply entries_loop_inv in H.
  - apply H.
  - repeat split; simpl; [lia|constructor].
Qed.

(** What a returned record is made of. *)
Lemma extract_inversion (jsonl_file : string) (entries : list json)
  (r : ConvRecord.t) :
  extract_conversation_data jsonl_file entries = Ok r ->
  exists st,
    extract_loop entries = Ok st
    /\ ConvRecord.todo_snapshots r = todo_snapshots st
    /\ build_final_todos (todo_snapshots st) = Ok (ConvRecord.final_todos r)
    /\ calculate_episodes (todo_snapshots st) = Ok (ConvRecord.episodes r)
    /\ ConvRecord.user_message_count r = List.length (user_messages st)
    /\ ConvRecord.user_message_arc r = message_arc (user_messages st)
    /\ ConvRecord.first_message r
       = match user_messages st with m :: _ => m | [] => "No message" end.
Proof.
  intros H. unfold extract_conversation_data in H.
  do 9 inv_bind H. injection H as <-. simpl.
  exists l. repeat split; auto.
  destruct (todo_snapshots l); [now injection E1 as <-|exact E1].
Qed.

End LoopFacts.

Module EpisodeClaim.
Import PyStr Py Extraction Notions PyFacts SegmenterFacts LoopFacts.

(** C2: in every record the extractor returns, the episodes are in
    non-decreasing, non-overlapping [message_range] order (each range
    has start <= end, and an earlier episode starts no later, ends no
    later and ends at or before the start of a later one), the first
    episode starts at 0, and every title is the content of a todo that
    has status completed in one of the record's snapshots. *)
Theorem episodes_ordered_titles_completed (jsonl_file : string)
  (entries : list json) (r : ConvRecord.t) :
  extract_conversation_data jsonl_file entries = Ok r ->
  ranges_ordered (ConvRecord.episodes r)
  /\ (forall e rest, ConvRecord.episodes r = e :: rest ->
        fst (Episode.message_range e) = 0)
  /\ Forall (fun e => completed_in (ConvRecord.todo_snapshots r)
                                   (Episode.title e))
            (ConvRecord.episodes r).
Proof.
  intros H. apply extract_inversion in H as (st & Hl & Hs & _ & He & _).
  rewrite Hs. apply calculate_episodes_ranges; [|exact He].
  now apply extract_loop_sorted with (entries := entries).
Qed.

Lemma episodes_ordered_titles_completed_witness :
  exists r,
    extract_conversation_data sample_path log_two_episodes = Ok r
    /\ map Episode.message_range (ConvRecord.episodes r) = [(0, 2); (2, 5)]
    /\ ranges_ordered (ConvRecord.episodes r).
Proof.
  destruct (extract_conversation_data sample_path log_two_episodes)
    as [e|r] eqn:E; [vm_compute in E; discriminate E|].
  exists r. split; [reflexivity|]. split.
  - vm_compute in E. injection E as <-. reflexivity.
  - exact (proj1 (episodes_ordered_titles_completed _ _ _ E)).
Defined.

End EpisodeClaim.

(* ===================================================================== *)
(** * The final todo state *)
(* ===================================================================== *)

Module FinalTodosFacts.
Import PyStr Py Extraction Notions PyFacts LoopFacts.

Lemma is_str_other (s s' : string) :
  s <> s' -> is_str (JStr s) s' = false.
Proof. intros N. unfold is_str. simpl. now apply String.eqb_neq. Qed.

(** One round of the loop on a todo that is a dict. *)
Lemma final_todo_step_dict (ft : FinalTodos.t) (d : dict) :
  final_todo_step ft (JObj d)
  = if truthy (todo_content (JObj d))
    then final_todos_append ft (todo_status (JObj d)) (todo_content (JObj d))
    else Ok ft.
Proof. reflexivity. Qed.

Lemma final_todo_step_ok (ft ft' : FinalTodos.t) (t : json) :
  final_todo_step ft t = Ok ft' ->
  FinalTodos.completed ft'
    = FinalTodos.completed ft ++ contents_with "completed" [t]
  /\ FinalTodos.in_progress ft'
     = FinalTodos.in_progress ft ++ contents_with "in_progress" [t]
  /\ FinalTodos.pending ft'
     = FinalTodos.pending ft ++ contents_with "pending" [t].
Proof.
  destruct t as [| | | | |d]; try discriminate.
  rewrite final_todo_step_dict. unfold contents_with. cbn [flat_map].
  rewrite !app_nil_r.
  generalize (todo_content (JObj d)) (todo_status (JObj d)). intros c s.
  destruct (truthy c); cbn [andb].
  2:{ intros H. injection H as <-. now rewrite !app_nil_r. }
  unfold final_todos_append.
  destruct (negb (hashable s)); [discriminate|].
  destruct (is_str s "completed") eqn:C.
  { apply is_str_eq in C. rewrite C. intros H. injection H as <-. simpl.
    now rewrite !app_nil_r. }
  destruct (is_str s "in_progress") eqn:P.
  { apply is_str_eq in P. rewrite P. intros H. injection H as <-. simpl.
    now rewrite !app_nil_r. }
  destruct (is_str s "pending") eqn:Q.
  { intros H. injection H as <-. simpl. now rewrite !app_nil_r. }
  discriminate.
Qed.

Lemma contents_with_cons (status : string) (t : json) (todos : list json) :
  contents_with status (t :: todos)
  = contents_with status [t] ++ contents_with status todos.
Proof. unfold contents_with. simpl. now rewrite app_nil_r. Qed.

Lemma final_loop_ok (todos : list json) (ft ft' : FinalTodos.t) :
  for_each final_todo_step todos ft = Ok ft' ->
  FinalTodos.completed ft'
    = FinalTodos.completed ft ++ contents_with "completed" todos
  /\ FinalTodos.in_progress ft'
     = FinalTodos.in_progress ft ++ contents_with "in_progress" todos
  /\ FinalTodos.pending ft'
     = FinalTodos.pending ft ++ contents_with "pending" todos.
Proof.
  revert ft. induction todos as [|t todos IH]; intros ft H.
  - injection H as <-. unfold contents_with. simpl.
    now rewrite !app_nil_r.
  - cbn [for_each] in H. inv_bind H.
    apply final_todo_step_ok in E as (E1 & E2 & E3).
    apply IH in H as (H1 & H2 & H3).
    rewrite H1, H2, H3, E1, E2, E3, <- !app_assoc.
    now rewrite <- !contents_with_cons.
Qed.

Lemma contents_with_filed (status : string) (todos : list json) (c : json) :
  In c (contents_with status todos) -> In c (filed_contents todos).
Proof.
  unfold contents_with, filed_contents.
  induction todos as [|t todos IH]; simpl; [auto|].
  intros H. apply in_app_or in H as [H|H].
  - destruct (truthy (todo_content t)) eqn:T; simpl in H; [|contradiction].
    destruct (is_str _ status); [|contradiction].
    destruct H as [<-|[]]. now left.
  - destruct (truthy (todo_content t)); [right|]; auto.
Qed.

Lemma contents_with_single (status : string) (t : json) :
  contents_with status [t]
  = if truthy (todo_content t) && is_str (todo_status t) status
    then [todo_content t] else [].
Proof. unfold contents_with. simpl. apply app_nil_r. Qed.

(** With distinct non-empty contents, the three lists together hold no
    content twice. *)
Lemma contents_with_nodup (todos : list json) :
  NoDup (filed_contents todos) ->
  NoDup (contents_with "completed" todos
         ++ contents_with "in_progress" todos
         ++ contents_with "pending" todos).
Proof.
  induction todos as [|t todos IH]; [intros _; constructor|].
  rewrite !(contents_with_cons _ t todos), !contents_with_single.
  unfold filed_contents. cbn [map filter].
  destruct (truthy (todo_content t)) eqn:T; cbn [andb].
  2:{ exact IH. }
  intros Hn. inversion Hn as [|c l Hnotin Hn']; subst.
  specialize (IH Hn').
  assert (Hfresh : ~ In (todo_content t)
            (contents_with "completed" todos
             ++ contents_with "in_progress" todos
             ++ contents_with "pending" todos)).
  { intros Hin. apply Hnotin.
    apply in_app_or in Hin as [Hin|Hin];
      [|apply in_app_or in Hin as [Hin|Hin]];
      eapply contents_with_filed; eauto. }
  destruct (is_str (todo_status t) "completed") eqn:C.
  { apply is_str_eq in C. rewrite C. simpl. now constructor. }
  destruct (is_str (todo_status t) "in_progress") eqn:P.
  { apply is_str_eq in P. rewrite P. simpl.
    eapply Permutation_NoDup;
      [apply Permutation_middle|now constructor]. }
  destruct (is_str (todo_status t) "pending") eqn:Q; simpl; [|exact IH].
  rewrite app_assoc.
  eapply Permutation_NoDup; [apply Permutation_middle|].
  rewrite <- app_assoc. now constructor.
Qed.

(** C3, the claim as stated, fails: the latest snapshot of this log has
    two todos "b" with status pending and the content "a" once pending
    and once completed; "b" is listed twice, "a" in two lists. *)
Lemma final_todos_repeat_contents :
  exists r,
    extract_conversation_data sample_path log_repeated_contents = Ok r
    /\ FinalTodos.pending (ConvRecord.final_todos r)
       = [JStr "a"; JStr "b"; JStr "b"]
    /\ FinalTodos.completed (ConvRecord.final_todos r) = [JStr "a"]
    /\ ~ NoDup (FinalTodos.pending (ConvRecord.final_todos r))
    /\ In (JStr "a") (FinalTodos.pending (ConvRecord.final_todos r))
    /\ In (JStr "a") (FinalTodos.completed (ConvRecord.final_todos r)).
Proof.
  eexists. split; [vm_compute; reflexivity|]. simpl.
  repeat split; auto.
  intros H. inversion H as [|? ? _ H']; subst.
  inversion H' as [|? ? N _]; subst. apply N. now left.
Qed.

(** C3, amended: in every extracted record each of the three
    [final_todos] lists holds the non-empty contents of the todos of the
    latest snapshot that have that status, in snapshot order, one entry
    per todo (all three are empty when there is no snapshot); when the
    non-empty contents of the latest snapshot are pairwise distinct, the
    entries of each list are distinct and no content occurs in more than
    one list. *)
Theorem final_todos_from_latest_snapshot (jsonl_file : string)
  (entries : list json) (r : ConvRecord.t) :
  extract_conversation_data jsonl_file entries = Ok r ->
  let ft := ConvRecord.final_todos r in
  match last_opt (ConvRecord.todo_snapshots r) with
  | None => ft = FinalTodos.empty
  | Some s =>
      FinalTodos.completed ft = contents_with "completed" (Snapshot.todos s)
      /\ FinalTodos.in_progress ft
         = contents_with "in_progress" (Snapshot.todos s)
      /\ FinalTodos.pending ft = contents_with "pending" (Snapshot.todos s)
      /\ (NoDup (filed_contents (Snapshot.todos s)) ->
          NoDup (FinalTodos.completed ft ++ FinalTodos.in_progress ft
                 ++ FinalTodos.pending ft))
  end.
Proof.
  intros H ft.
  apply extract_inversion in H as (st & _ & Hs & Hf & _).
  rewrite Hs. unfold build_final_todos in Hf. fold ft in Hf.
  destruct (last_opt (todo_snapshots st)) as [s|].
  - apply final_loop_ok in Hf as (H1 & H2 & H3). simpl in H1, H2, H3.
    repeat split; auto.
    intros Hn. rewrite H1, H2, H3. now apply contents_with_nodup.
  - now injection Hf as <-.
Qed.

Lemma final_todos_from_latest_snapshot_witness :
  exists r,
    extract_conversation_data sample_path log_distinct_contents = Ok r
    /\ FinalTodos.completed (ConvRecord.final_todos r) = [JStr "b"]
    /\ NoDup (FinalTodos.completed (ConvRecord.final_todos r)
              ++ FinalTodos.in_progress (ConvRecord.final_todos r)
              ++ FinalTodos.pending (ConvRecord.final_todos r)).
Proof.
  destruct (extract_conversation_data sample_path log_distinct_contents)
    as [e|r] eqn:E; [vm_compute in E; discriminate E|].
  exists r. split; [reflexivity|].
  pose proof (final_todos_from_latest_snapshot _ _ _ E) as H.
  assert (Hs : ConvRecord.todo_snapshots r
               = [ Snapshot.mk 2 (JStr "2025-01-01T00:00:01Z")
                     [ todo "1" "a" "pending"; todo "2" "b" "completed";
                       todo "3" "c" "in_progress" ] ])
    by (vm_compute in E; injection E as <-; reflexivity).
  rewrite Hs in H. simpl in H. destruct H as (H1 & _ & _ & H4).
  split; [exact H1|]. apply H4.
  repeat constructor; simpl; intuition discriminate.
Defined.

End FinalTodosFacts.

(* ===================================================================== *)
(** * Totality of the final-state step *)
(* ===================================================================== *)

Module StatusDomainFacts.
Import PyStr Py Extraction Notions PyFacts LoopFacts FinalTodosFacts.

(** One round of the final-state loop on a dict either goes through or
    raises in the look-up [final_todos[status]], on a todo with a
    non-empty content and a status outside the domain. *)
Lemma final_todo_step_cases (ft : FinalTodos.t) (d : dict) :
  (exists ft', final_todo_step ft (JObj d) = Ok ft')
  \/ (exists e, final_todo_step ft (JObj d) = Raise e
        /\ (e = KeyError \/ e = TypeError)
        /\ truthy (todo_content (JObj d)) = true
        /\ ~ status_in_domain (JObj d)).
Proof.
  rewrite final_todo_step_dict. unfold status_in_domain.
  generalize (todo_content (JObj d)) (todo_status (JObj d)). intros c s.
  destruct (truthy c); [|left; eauto].
  unfold final_todos_append.
  destruct (hashable s) eqn:Hh; simpl.
  2:{ right. exists TypeError. repeat split; auto.
      intros [ -> | [ -> | -> ] ]; discriminate. }
  destruct (is_str s "completed") eqn:C; [left; eauto|].
  destruct (is_str s "in_progress") eqn:P; [left; eauto|].
  destruct (is_str s "pending") eqn:Q; [left; eauto|].
  right. exists KeyError. repeat split; auto.
  intros [ -> | [ -> | -> ] ]; discriminate.
Qed.

Lemma final_loop_total (todos : list json) (ft : FinalTodos.t) :
  all_dicts todos -> Forall status_in_domain todos ->
  exists ft', for_each final_todo_step todos ft = Ok ft'.
Proof.
  intros Hd. revert ft. induction Hd as [|t todos Ht _ IH]; intros ft Hs.
  - exists ft. reflexivity.
  - inversion Hs as [|? ? Hst Hs']; subst.
    destruct t as [| | | | |d]; try discriminate Ht.
    cbn [for_each].
    destruct (final_todo_step_cases ft d) as [[ft' ->]|(e & _ & _ & _ & N)];
      [|contradiction].
    simpl. now apply IH.
Qed.

Lemma final_loop_raise (todos : list json) (ft : FinalTodos.t) (e : exn) :
  all_dicts todos ->
  for_each final_todo_step todos ft = Raise e ->
  (e = KeyError \/ e = TypeError)
  /\ exists t, In t todos /\ truthy (todo_content t) = true
               /\ ~ status_in_domain t.
Proof.
  intros Hd. revert ft. induction Hd as [|t todos Ht _ IH]; intros ft H.
  - discriminate H.
  - destruct t as [| | | | |d]; try discriminate Ht.
    cbn [for_each] in H.
    destruct (final_todo_step_cases ft d)
      as [[ft' E]|(e' & E & He & Hc & N)]; rewrite E in H; simpl in H.
    + apply IH in H as (He & t & Hin & Hc & N).
      split; [exact He|]. exists t. repeat split; auto. now right.
    + injection H as <-. split; [exact He|].
      exists (JObj d). repeat split; auto. now left.
Qed.

(** A todo with a non-empty content and a status that is a string outside
    the domain stops the loop, at the latest when its turn comes. *)
Lemma final_loop_odd_status (todos : list json) (ft : FinalTodos.t)
  (t : json) (w : string) :
  In t todos -> is_dict t = true -> todo_status t = JStr w ->
  ~ status_in_domain t -> truthy (todo_content t) = true ->
  exists e, for_each final_todo_step todos ft = Raise e.
Proof.
  intros Hin Hd Hw N Hc. revert ft.
  induction todos as [|t0 todos IH]; intros ft; [contradiction|].
  cbn [for_each].
  destruct (final_todo_step ft t0) as [e|ft'] eqn:E; simpl; [eauto|].
  destruct Hin as [->|Hin]; [|now apply IH].
  exfalso. destruct t as [| | | | |d]; try discriminate Hd.
  destruct (final_todo_step_cases ft d) as [[ft'' E']|(e & E' & _)].
  - rewrite final_todo_step_dict, Hc, Hw in E.
    unfold final_todos_append in E. simpl in E.
    unfold status_in_domain in N. rewrite Hw in N.
    destruct (String.eqb w "completed") eqn:C.
    { apply String.eqb_eq in C. subst. apply N. auto. }
    destruct (String.eqb w "in_progress") eqn:P.
    { apply String.eqb_eq in P. subst. apply N. auto. }
    destruct (String.eqb w "pending") eqn:Q.
    { apply String.eqb_eq in Q. subst. apply N. auto. }
    unfold is_str in E. simpl in E. rewrite C, P, Q in E. discriminate E.
  - rewrite E in E'. discriminate E'.
Qed.

(** A todo that is not an object stops the step in [todo.get], before
    the look-up; [normalize_task] lets the string through because it
    contains "content". *)
Lemma non_object_todo_raises_in_get :
  normalize_task (JStr "content") = Ok (JStr "content")
  /\ build_final_todos [ Snapshot.mk 1 JNull [JStr "content"] ]
     = Raise AttributeError.
Proof. split; reflexivity. Qed.

(** C10, the claim as stated, fails: the only todo of this log has the
    status "done", outside the domain, and an empty content; extraction
    returns a record. *)
Lemma odd_status_empty_content_returns :
  ~ status_in_domain (todo "1" "" "done")
  /\ exists r,
       extract_conversation_data sample_path log_empty_content_odd_status
         = Ok r
       /\ map Snapshot.todos (ConvRecord.todo_snapshots r)
          = [[todo "1" "" "done"]]
       /\ ConvRecord.final_todos r = FinalTodos.empty.
Proof.
  split.
  - intros [H|[H|H]]; discriminate H.
  - eexists. split; [vm_compute; reflexivity|]. split; reflexivity.
Qed.

(** C10, amended: when the todos of the latest snapshot are objects whose
    status is pending, in_progress, completed or absent, building
    [final_todos] returns; when they are objects and the step raises, the
    exception comes from the look-up [final_todos[status]], on a todo with
    a non-empty content and a status outside the domain; and a todo of
    the latest snapshot with a non-empty content whose status is any
    other string makes extraction raise instead of returning a record. *)
Theorem final_todos_total_on_status_domain :
  (forall snaps : list Snapshot.t,
      (forall s, last_opt snaps = Some s ->
                 all_dicts (Snapshot.todos s)
                 /\ Forall status_in_domain (Snapshot.todos s)) ->
      exists ft, build_final_todos snaps = Ok ft)
  /\ (forall (snaps : list Snapshot.t) (s : Snapshot.t) (e : exn),
         last_opt snaps = Some s -> all_dicts (Snapshot.todos s) ->
         build_final_todos snaps = Raise e ->
         (e = KeyError \/ e = TypeError)
         /\ exists t, In t (Snapshot.todos s)
                      /\ truthy (todo_content t) = true
                      /\ ~ status_in_domain t)
  /\ (forall (jsonl_file : string) (entries : list json) (st : loop_state)
             (s : Snapshot.t) (t : json) (w : string),
         extract_loop entries = Ok st ->
         last_opt (todo_snapshots st) = Some s ->
         In t (Snapshot.todos s) -> is_dict t = true ->
         todo_status t = JStr w -> ~ status_in_domain t ->
         truthy (todo_content t) = true ->
         exists e, extract_conversation_data jsonl_file entries = Raise e).
Proof.
  split; [|split].
  - intros snaps H. unfold build_final_todos.
    destruct (last_opt snaps) as [s|]; [|eauto].
    destruct (H s eq_refl) as [Hd Hs]. now apply final_loop_total.
  - intros snaps s e Hl Hd H. unfold build_final_todos in H.
    rewrite Hl in H. eapply final_loop_raise; eauto.
  - intros jsonl_file entries st s t w Hloop Hl Hin Hd Hw N Hc.
    destruct (final_loop_odd_status (Snapshot.todos s) FinalTodos.empty
                t w Hin Hd Hw N Hc) as [e He].
    exists e. unfold extract_conversation_data. rewrite Hloop.
    cbn [bind]. unfold build_final_todos. rewrite Hl, He. reflexivity.
Qed.

Lemma final_todos_total_on_status_domain_witness :
  (exists ft,
      build_final_todos
        [ Snapshot.mk 2 JNull
            [ todo "1" "a" "pending";
              JObj [("content", JStr "b")] ] ] = Ok ft)
  /\ (exists e,
         extract_conversation_data sample_path log_odd_status = Raise e).
Proof.
  destruct final_todos_total_on_status_domain as (Ha & _ & Hc).
  split.
  - apply Ha. intros s Hs. vm_compute in Hs. injection Hs as <-.
    split; repeat constructor.
  - destruct (extract_loop log_odd_status) as [e|st] eqn:E;
      [vm_compute in E; discriminate E|].
    assert (Hs : todo_snapshots st
                 = [ Snapshot.mk 2 (JStr "2025-01-01T00:00:01Z")
                       [ todo "1" "fix bug" "done" ] ])
      by (vm_compute in E; injection E as <-; reflexivity).
    apply (Hc sample_path log_odd_status st
              (Snapshot.mk 2 (JStr "2025-01-01T00:00:01Z")
                 [ todo "1" "fix bug" "done" ])
              (todo "1" "fix bug" "done") "done").
    + exact E.
    + rewrite Hs. reflexivity.
    + now left.
    + reflexivity.
    + reflexivity.
    + intros [H|[H|H]]; discriminate H.
    + reflexivity.
Defined.

End StatusDomainFacts.

(* ===================================================================== *)
(** * Session-id resolution *)
(* ===================================================================== *)

Module ResolveFacts.
Import PyStr Py Shared Notions PyFacts.

Lemma has_key_in (k : string) (d : dict) :
  has_key k d = true <-> In k (map fst d).
Proof.
  unfold has_key. induction d as [|[k' v] d IH]; simpl.
  - split; [discriminate|contradiction].
  - destruct (String.eqb k k') eqn:E.
    + apply String.eqb_eq in E. subst. split; auto.
    + apply String.eqb_neq in E. rewrite IH. split; [auto|].
      intros [H|H]; [congruence|exact H].
Qed.

(** C9: an id that is a key of the cache resolves to itself without
    ambiguity, whatever other keys it is a prefix of; the result is a
    list of matches only when the id is not a key and at least two keys
    start with it (the list holds exactly those keys, in cache order);
    the result is the not-found error only when no key starts with it. *)
Theorem resolve_exact_match_first (partial_id : string) (cache : dict) :
  let keys := map fst cache in
  let matches := filter (fun sid => startswith sid partial_id) keys in
  (In partial_id keys ->
   resolve_session_id partial_id cache = (Some partial_id, NoError))
  /\ (forall l,
         resolve_session_id partial_id cache = (None, Matches l) ->
         ~ In partial_id keys /\ l = matches /\ (2 <= List.length l)%nat)
  /\ (forall msg,
         resolve_session_id partial_id cache = (None, ErrorString msg) ->
         forall sid, In sid keys -> startswith sid partial_id = false).
Proof.
  intros keys matches. unfold resolve_session_id. fold keys. fold matches.
  destruct (has_key partial_id cache) eqn:K.
  - split; [reflexivity|]. split; intros ? H; discriminate H.
  - assert (N : ~ In partial_id keys).
    { intros H. apply has_key_in in H. congruence. }
    split; [contradiction|].
    destruct matches as [|m1 [|m2 rest]] eqn:M.
    + split; [discriminate|]. intros msg _ sid Hin.
      destruct (startswith sid partial_id) eqn:S; [|reflexivity].
      assert (Hm : In sid matches)
        by (apply filter_In; split; assumption).
      rewrite M in Hm. contradiction.
    + split; discriminate.
    + split; [|discriminate]. intros l H. injection H as <-.
      repeat split; [exact N|simpl; lia].
Qed.

Lemma resolve_exact_match_first_witness :
  resolve_session_id "abc" cache_three_ids = (Some "abc", NoError)
  /\ startswith "abcdef" "abc" = true.
Proof.
  split; [|reflexivity].
  apply (proj1 (resolve_exact_match_first "abc" cache_three_ids)).
  simpl. auto.
Defined.

End ResolveFacts.

(* ===================================================================== *)
(** * The cache scan *)
(* ===================================================================== *)

Module CacheFacts.
Import PyStr Py Cache Notions PyFacts.

(** On a comparable record the staleness test returns, and says yes
    exactly under the staleness condition. *)
Lemma needs_reparse_spec (cache : dict) (sid : string) (current_mtime : Z) :
  (forall entry, lookup sid cache = Some entry -> comparable_entry entry) ->
  exists b, needs_reparse cache sid current_mtime = Ok b
            /\ (b = true <-> must_reparse cache sid current_mtime).
Proof.
  intros Hc. unfold needs_reparse, must_reparse.
  destruct (lookup sid cache) as [entry|]; [|exists true; tauto].
  destruct (Hc entry eq_refl) as [Hd [m Hm]].
  destruct entry as [| | | | |d]; try discriminate Hd.
  cbn [get_default bind]. simpl in Hm. rewrite Hm. cbn [lt_number bind].
  destruct (m <? current_mtime) eqn:L.
  { exists true. split; [reflexivity|]. split; [|reflexivity].
    intros _. left. exists m. split; [exact Hm|]. now apply Z.ltb_lt. }
  apply Z.ltb_ge in L.
  unfold is_entry_stale. cbn [contains_key bind].
  destruct (has_key "term_counts" d) eqn:T; cbn [negb].
  2:{ exists true. split; [reflexivity|]. split; [|reflexivity].
      intros _. right. left. now exists d. }
  destruct (has_key "episodes" d) eqn:P; cbn [negb].
  2:{ exists true. split; [reflexivity|]. split; [|reflexivity].
      intros _. right. right. now exists d. }
  exists false. split; [reflexivity|]. split; [discriminate|].
  intros [(m' & Hm' & Hlt)|[(d' & Hd' & H)|(d' & Hd' & H)]].
  - simpl in Hm'. rewrite Hm in Hm'. injection Hm' as <-. lia.
  - injection Hd' as <-. congruence.
  - injection Hd' as <-. congruence.
Qed.

(** C5, amended: for a log file whose cached record, if any, is
    comparable, the scan re-extracts exactly under the staleness condition
    (session id absent, cached mtime strictly less than the file's, or
    [term_counts] or [episodes] missing). When the extraction returns a
    record, the entry of the session becomes that record, field by field,
    with [mtime] and [file_path] added at its end, nothing of the old
    entry is kept, the other sessions are untouched and the cache is
    marked modified; when the extraction raises, cache and flag stay as
    they were. Without the staleness condition cache and flag are
    unchanged. *)
Theorem index_file_reparse_iff_stale (cache : dict) (modified : bool)
  (f : log_file) :
  let sid := session_id_of (file_path f) in
  (forall entry, lookup sid cache = Some entry -> comparable_entry entry) ->
  (needs_reparse cache sid (current_mtime f) = Ok true
   <-> must_reparse cache sid (current_mtime f))
  /\ (must_reparse cache sid (current_mtime f) ->
      (forall r,
         Extraction.extract_conversation_data (file_path f) (file_entries f)
         = Ok r ->
         exists cache',
           index_file (cache, modified) f = (cache', true)
           /\ lookup sid cache'
              = Some (JObj
                  [ ("session_id", ConvRecord.session_id r);
                    ("project", JStr (ConvRecord.project r));
                    ("first_message", JStr (ConvRecord.first_message r));
                    ("user_message_arc",
                     JArr (map JStr (ConvRecord.user_message_arc r)));
                    ("user_message_count",
                     JNum (Z.of_nat (ConvRecord.user_message_count r)));
                    ("timestamp", ConvRecord.timestamp r);
                    ("todo_snapshots",
                     JArr (map snapshot_json (ConvRecord.todo_snapshots r)));
                    ("final_todos",
                     JObj [ ("completed",
                             JArr (FinalTodos.completed
                                     (ConvRecord.final_todos r)));
                            ("in_progress",
                             JArr (FinalTodos.in_progress
                                     (ConvRecord.final_todos r)));
                            ("pending",
                             JArr (FinalTodos.pending
                                     (ConvRecord.final_todos r))) ]);
                    ("work_items", JArr (ConvRecord.work_items r));
                    ("episodes",
                     JArr (map episode_json (ConvRecord.episodes r)));
                    ("message_count", JNum (ConvRecord.message_count r));
                    ("files_touched",
                     JArr (map JStr (ConvRecord.files_touched r)));
                    ("commands_run",
                     JArr (map JStr (ConvRecord.commands_run r)));
                    ("urls_fetched", JArr (ConvRecord.urls_fetched r));
                    ("term_counts",
                     JObj (map (fun kn => (fst kn, JNum (Z.of_nat (snd kn))))
                               (ConvRecord.term_counts r)));
                    ("mtime", JNum (current_mtime f));
                    ("file_path", JStr (file_path f)) ])
           /\ (forall sid', sid' <> sid ->
                 lookup sid' cache' = lookup sid' cache))
      /\ (forall e,
            Extraction.extract_conversation_data (file_path f)
              (file_entries f) = Raise e ->
            index_file (cache, modified) f = (cache, modified)))
  /\ (~ must_reparse cache sid (current_mtime f) ->
      index_file (cache, modified) f = (cache, modified)).
Proof.
  intros sid Hc.
  destruct (needs_reparse_spec cache sid (current_mtime f) Hc)
    as (b & Hb & Hiff).
  unfold index_file, index_file_try. fold sid. cbn [fst]. rewrite Hb.
  cbn [bind]. split; [|split].
  - rewrite <- Hiff. split; [now intros [= ->]|now intros ->].
  - intros Hm. apply Hiff in Hm. subst b. split.
    + intros r Hr. rewrite Hr. cbn [bind]. eexists.
      split; [reflexivity|]. split.
      * rewrite lookup_assign_same. reflexivity.
      * intros sid' N. now apply lookup_assign_other.
    + intros e He. now rewrite He.
  - intros Hn. destruct b; [|reflexivity]. exfalso. apply Hn.
    now apply Hiff.
Qed.

Lemma index_file_reparse_iff_stale_witness :
  must_reparse cache_without_episodes "abc" 5
  /\ needs_reparse cache_without_episodes "abc" 5 = Ok true
  /\ exists cache' d,
       index_file (cache_without_episodes, false) (sample_file 5)
       = (cache', true)
       /\ lookup "abc" cache' = Some (JObj d)
       /\ lookup "mtime" d = Some (JNum 5)
       /\ has_key "episodes" d = true.
Proof.
  assert (Hm : must_reparse cache_without_episodes "abc" 5).
  { right. right. eexists. split; reflexivity. }
  destruct (index_file_reparse_iff_stale cache_without_episodes false
              (sample_file 5)) as (H1 & H2 & _).
  { intros entry H. vm_compute in H. injection H as <-.
    split; [reflexivity|]. exists 5. reflexivity. }
  split; [exact Hm|]. split; [exact (proj2 H1 Hm)|].
  destruct (H2 Hm) as [H3 _].
  destruct (Extraction.extract_conversation_data sample_path plain_log)
    as [e|data] eqn:E; [vm_compute in E; discriminate E|].
  destruct (H3 data E) as (cache' & Hi & Hl & _).
  exists cache'. eexists. split; [exact Hi|]. split; [exact Hl|].
  split; reflexivity.
Defined.

(** C5, the claim as stated, fails: the cached record of the session
    lacks [episodes], so the staleness condition holds and the scan
    re-extracts; the extraction raises on the log (a todo with the status
    done), and the stale record stays in the cache. *)
Lemma stale_entry_kept_when_extraction_raises :
  must_reparse cache_without_episodes "abc" 5
  /\ session_id_of sample_path = "abc"
  /\ needs_reparse cache_without_episodes "abc" 5 = Ok true
  /\ Extraction.extract_conversation_data sample_path log_odd_status
     = Raise KeyError
  /\ index_file (cache_without_episodes, false)
       (mk_file sample_path 5 log_odd_status)
     = (cache_without_episodes, false).
Proof.
  split; [right; right; eexists; split; reflexivity|].
  repeat split; vm_compute; reflexivity.
Qed.

Lemma assign_forall (P : json -> Prop) (k : string) (v : json) (d : dict) :
  P v -> Forall (fun kv => P (snd kv)) d ->
  Forall (fun kv => P (snd kv)) (assign k v d).
Proof.
  intros Hv H. induction H as [|[k0 v0] d Hk Hd IH]; simpl.
  - constructor; [exact Hv|constructor].
  - destruct (String.eqb k k0); constructor; auto.
Qed.

(** The scan keeps the records of the cache comparable. *)
Lemma index_file_comparable (st : dict * bool) (f : log_file) :
  Forall (fun kv => comparable_entry (snd kv)) (fst st) ->
  Forall (fun kv => comparable_entry (snd kv)) (fst (index_file st f)).
Proof.
  intros H. unfold index_file.
  destruct (index_file_try st f) as [e|st'] eqn:E; [exact H|].
  unfold index_file_try in E. inv_bind E.
  destruct b; [|now injection E as <-].
  inv_bind E. injection E as <-. cbn [fst].
  apply assign_forall; [|exact H].
  split; [reflexivity|]. exists (current_mtime f).
  unfold fresh_record, field.
  rewrite lookup_assign_other by discriminate.
  now rewrite lookup_assign_same.
Qed.

End CacheFacts.

(* ===================================================================== *)
(** * System disclaimers among the user turns *)
(* ===================================================================== *)

Module CaveatFacts.
Import PyStr Py Extraction Notions PyFacts.

(** Text extraction skips a user entry whose text is a disclaimer. *)
Lemma full_text_skips_caveat (text_parts : list json) (d m : dict)
  (text : string) :
  lookup "type" d = Some (JStr "user") ->
  lookup "message" d = Some (JObj m) ->
  lookup "content" m = Some (JStr text) ->
  is_local_command_noise text = true ->
  full_text_step text_parts (JObj d) = Ok text_parts.
Proof.
  intros Hty Hm Hc Hn. unfold full_text_step. simpl.
  rewrite Hty, Hm. simpl.
  destruct m as [|kv m']; [discriminate Hc|]. cbn [andb].
  cbn [get_default bind]. rewrite Hc. cbn [extract_text_content bind].
  rewrite Hn. now rewrite andb_false_r.
Qed.

(** The main loop counts every user entry with a non-empty text, a
    disclaimer or not: it never consults [is_local_command_noise]. *)
Lemma user_text_always_counted (st st' : loop_state) (d m : dict)
  (text : string) :
  lookup "type" d = Some (JStr "user") ->
  lookup "message" d = Some (JObj m) ->
  lookup "content" m = Some (JStr text) ->
  text <> "" ->
  entry_step st (JObj d) = Ok st' ->
  user_messages st' = user_messages st ++ [take 200 text].
Proof.
  intros Hty Hm Hc Hne H. unfold entry_step in H.
  cbn [contains_key get get_default bind] in H.
  rewrite Hty, Hm in H.
  assert (Ht : truthy (JObj m) = true)
    by (destruct m; [discriminate Hc|reflexivity]).
  rewrite Ht, is_str_refl in H.
  apply String.eqb_neq in Hne.
  match type of H with
  | bind ?x _ = Ok _ => destruct x; cbn [bind] in H; [discriminate H|]
  end.
  cbn [andb get_default bind] in H. rewrite Hc in H.
  cbn [extract_text_content bind] in H. rewrite Hne in H.
  cbn [negb bind] in H.
  do 2 (match type of H with
        | bind ?x _ = Ok _ => destruct x; cbn [bind] in H; [discriminate H|]
        end).
  now injection H as <-.
Qed.

(** C8, evaluated on a log that opens with the disclaimer: text
    extraction ([extract_full_text], [extract_user_text]) leaves the
    disclaimer out, but the record counts it as a user turn and takes it
    as the first message. *)
Theorem caveat_counted_as_user_turn :
  is_local_command_noise caveat_text = true
  /\ extract_full_text log_with_caveat = Ok "please fix the bug"
  /\ extract_user_text log_with_caveat = Ok "please fix the bug"
  /\ exists r,
       extract_conversation_data sample_path log_with_caveat = Ok r
       /\ ConvRecord.user_message_count r = 2%nat
       /\ ConvRecord.first_message r = caveat_text
       /\ ConvRecord.user_message_arc r
          = [caveat_text; "please fix the bug"].
Proof.
  split; [reflexivity|]. split; [vm_compute; reflexivity|].
  split; [vm_compute; reflexivity|].
  eexists. split; [vm_compute; reflexivity|].
  repeat split.
Qed.

End CaveatFacts.

(* ===================================================================== *)
(** * Sorting and slicing *)
(* ===================================================================== *)

Module SortFacts.
Import PyStr Py Search Notions PyFacts.

Section StableSort.
Context {A K : Type}.
Variable key : A -> K.
Variable lt : K -> K -> res bool.

Lemma insert_desc_perm (x : A) (l l' : list A) :
  insert_desc key lt x l = Ok l' -> Permutation (x :: l) l'.
Proof.
  revert l'. induction l as [|y l IH]; intros l' H; simpl in H.
  - injection H as <-. apply Permutation_refl.
  - inv_bind H. destruct b.
    + inv_bind H. injection H as <-.
      eapply perm_trans; [apply perm_swap|].
      apply perm_skip. now apply IH.
    + injection H as <-. apply Permutation_refl.
Qed.

Lemma sort_desc_perm (l l' : list A) :
  sort_desc key lt l = Ok l' -> Permutation l l'.
Proof.
  revert l'. induction l as [|x l IH]; intros l' H; simpl in H.
  - injection H as <-. constructor.
  - inv_bind H. apply insert_desc_perm in H.
    eapply perm_trans; [apply perm_skip, IH; reflexivity|exact H].
Qed.

(** The items the comparison is defined on, and the order it decides. *)
Variable good : A -> Prop.
Variable ltb : A -> A -> bool.
Hypothesis lt_ltb :
  forall x y, good x -> good y -> lt (key x) (key y) = Ok (ltb x y).
Hypothesis ltb_asym : forall x y, ltb x y = true -> ltb y x = false.
Hypothesis ltb_trans :
  forall x y z, ltb x y = false -> ltb y z = false -> ltb x z = false.



End StableSort.


Lemma firstn_min_length {A : Type} (k : nat) (l : list A) :
  firstn (Nat.min k (List.length l)) l = firstn k l.
Proof.
  destruct (Nat.le_ge_cases k (List.length l)) as [H|H].
  - now rewrite Nat.min_l.
  - rewrite Nat.min_r by exact H.
    now rewrite firstn_all, firstn_all2.
Qed.

(** A slice with bounds that are not negative. *)
Lemma slice_nonneg {A : Type} (l : list A) (skip limit : Z) :
  0 <= skip -> 0 <= limit ->
  slice l skip (skip + limit)
  = firstn (Z.to_nat limit) (skipn (Z.to_nat skip) l).
Proof.
  intros Hs Hl. unfold slice, slice_bound.
  replace (skip <? 0) with false by (symmetry; apply Z.ltb_ge; lia).
  replace (skip + limit <? 0) with false by (symmetry; apply Z.ltb_ge; lia).
  rewrite Z2Nat.inj_add by lia.
  set (s := Z.to_nat skip). set (k := Z.to_nat limit).
  set (n := List.length l).
  destruct (Nat.le_gt_cases n s) as [H|H].
  - rewrite (Nat.min_r s n) by exact H.
    rewrite !skipn_all2 by (fold n; lia).
    now rewrite !firstn_nil.
  - rewrite (Nat.min_l s n) by lia.
    rewrite <- (firstn_min_length k (skipn s l)).
    rewrite length_skipn. fold n. f_equal. lia.
Qed.

End SortFacts.

(* ===================================================================== *)
(** * Search: filters, order, pagination *)
(* ===================================================================== *)

Module SearchFacts.
Import PyStr Py Search Notions PyFacts SortFacts.

Section WithCollaborators.
Variable fromisoformat_utc : string -> option Z.
Variable get_notes_for_session : string -> list string.
Variable recency_boost : json -> Z.
Variable D : Type.
Variable display : string -> json -> list string -> list string -> bool
                   -> res D.

Abbreviation step :=
  (search_step fromisoformat_utc get_notes_for_session recency_boost D
     display).
Abbreviation filters := (passes_filters fromisoformat_utc).

(** The time-range test keeps a record without a parsed time stamp, and
    one with a time stamp between the given bounds, both included. *)
Lemma in_time_range_spec (after_dt before_dt conv_dt : option Z) :
  in_time_range after_dt before_dt conv_dt = true
  <-> (forall c, conv_dt = Some c ->
         (forall a, after_dt = Some a -> a <= c)
         /\ (forall b, before_dt = Some b -> c <= b)).
Proof.
  unfold in_time_range.
  destruct conv_dt as [c|].
  2:{ destruct after_dt, before_dt; simpl; split; auto; discriminate. }
  destruct after_dt as [a|], before_dt as [b|]; simpl;
    rewrite ?andb_true_iff, ?negb_true_iff, ?Z.gtb_ltb, ?Z.ltb_ge;
    (split;
     [ intros H c' [= <-]; split; intros ? E; try discriminate E;
       injection E as <-; intuition lia
     | intros H; destruct (H c eq_refl) as [H1 H2];
       repeat split; auto ]).
Qed.

(** Without a project filter, the filters of a record that is a dict are
    the time-range test on its [timestamp]. *)
Lemma passes_filters_time (after_dt before_dt : option Z) (d : dict) :
  filters None after_dt before_dt (JObj d)
  = Ok (in_time_range after_dt before_dt
          (parse_timestamp fromisoformat_utc
             (field "timestamp" (JStr "") (JObj d)))).
Proof. reflexivity. Qed.


(** A record the filters turn down adds no result, so it is never
    scored. *)
Lemma filtered_out_not_scored (query_terms query_stems : list string)
  (project : option string) (after_dt before_dt : option Z)
  (results : list (SearchResult.t D)) (item : string * json) :
  filters project after_dt before_dt (snd item) = Ok false ->
  step query_terms query_stems project after_dt before_dt results item
  = Ok results.
Proof. intros H. unfold search_step. rewrite H. reflexivity. Qed.








Lemma passes_filters_true_in_range (project : option string)
  (after_dt before_dt : option Z) (d : dict) :
  filters project after_dt before_dt (JObj d) = Ok true ->
  in_time_range after_dt before_dt
    (parse_timestamp fromisoformat_utc
       (field "timestamp" (JStr "") (JObj d))) = true.
Proof.
  unfold passes_filters. intros H. inv_bind H.
  destruct b; cbn [negb] in H; [|discriminate H].
  cbn [get_default bind] in H. injection H as H. exact H.
Qed.

(** C6, amended: the time-range filter reads the record's first-message
    [timestamp]; for whichever bounds are given, a record whose time
    stamp parses is kept exactly when after <= timestamp <= before, both
    bounds included, and a record without a parsed time stamp is kept;
    the filter comes before scoring: for a record it turns down the round
    of the loop ends with the results as they were, whatever scoring,
    notes, boost and display would do or raise. *)
Theorem time_filter_inclusive_before_scoring
  (query_terms query_stems : list string) (after_dt before_dt : option Z)
  (results : list (SearchResult.t D)) (sid : string) (d : dict) :
  let conv_dt := parse_timestamp fromisoformat_utc
                   (field "timestamp" (JStr "") (JObj d)) in
  filters None after_dt before_dt (JObj d)
    = Ok (in_time_range after_dt before_dt conv_dt)
  /\ (in_time_range after_dt before_dt conv_dt = true
      <-> (forall c, conv_dt = Some c ->
             (forall a, after_dt = Some a -> a <= c)
             /\ (forall b, before_dt = Some b -> c <= b)))
  /\ (in_time_range after_dt before_dt conv_dt = false ->
      step query_terms query_stems None after_dt before_dt results
        (sid, JObj d) = Ok results)
  /\ (forall project,
         filters project after_dt before_dt (JObj d) = Ok false ->
         step query_terms query_stems project after_dt before_dt results
           (sid, JObj d) = Ok results).
Proof.
  intros conv_dt. split; [reflexivity|]. split; [|split].
  - apply in_time_range_spec.
  - intros Hr. apply filtered_out_not_scored. cbn [snd].
    rewrite passes_filters_time. fold conv_dt. now rewrite Hr.
  - intros project Hf. now apply filtered_out_not_scored.
Qed.



End WithCollaborators.
End SearchFacts.

Module SearchClaims.
Import PyStr Py Search Notions PyFacts SortFacts SearchFacts.

(** C6, the claim as stated, fails: the session "s-new" has the time
    stamp that is also given as the [before] bound, and it is kept. *)
Lemma record_at_before_bound_kept :
  parse_bound toy_fromisoformat (Some "2025-01-02T00:00:00Z") = Some 20
  /\ (exists data,
        lookup "s-new" cache_two_sessions = Some data
        /\ parse_timestamp toy_fromisoformat
             (field "timestamp" (JStr "") data) = Some 20)
  /\ ~ (20 < 20)
  /\ exists out,
       toy_search cache_two_sessions "bug" 5 0
         None (Some "2025-01-02T00:00:00Z") false = Ok out
       /\ map SearchResult.sessionId (results out) = ["s-old"; "s-new"].
Proof.
  split; [reflexivity|].
  split; [eexists; split; vm_compute; reflexivity|].
  split; [lia|].
  eexists. split; vm_compute; reflexivity.
Qed.

Lemma time_filter_inclusive_before_scoring_witness :
  exists d,
    lookup "s-new" cache_two_sessions = Some (JObj d)
    /\ in_time_range (Some 20) (Some 20)
         (parse_timestamp toy_fromisoformat
            (field "timestamp" (JStr "") (JObj d))) = true.
Proof.
  destruct (lookup "s-new" cache_two_sessions) as [[| | | | |d]|] eqn:E;
    try (vm_compute in E; discriminate E).
  exists d. split; [reflexivity|].
  pose proof (time_filter_inclusive_before_scoring toy_fromisoformat
                no_notes no_boost SearchDisplay.fields
                (SearchDisplay.display old_short_timestamp not_on_disk)
                [] [] (Some 20) (Some 20) [] "s-new" d) as (_ & H & _).
  apply H. intros c Hc.
  vm_compute in E. injection E as <-.
  vm_compute in Hc. injection Hc as <-.
  split; intros ? [= <-]; lia.
Defined.



End SearchClaims.

(* ===================================================================== *)
(** * Further properties of the stemmer *)
(* ===================================================================== *)

Module StemmerMore.
Import PyStr Stemmer StemText Notions MoreNotions StemmerFacts.

Lemma skip_consonants_count (l : list bool) :
  vc_count (skip_while (fun c => c) l) = vc_count l.
Proof.
  induction l as [|c l IH]; [reflexivity|].
  destruct c; simpl; [|reflexivity].
  rewrite IH. now destruct l.
Qed.

Lemma skip_length (p : bool -> bool) (l : list bool) :
  (List.length (skip_while p l) <= List.length l)%nat.
Proof.
  induction l as [|c l IH]; simpl; [lia|].
  destruct (p c); simpl; lia.
Qed.

(** From a vowel on: no transition when only vowels follow, otherwise
    one, plus those after the consonants that follow. *)
Lemma vc_count_from_vowel (l : list bool) :
  vc_count (false :: l)
  = match skip_while negb (false :: l) with
    | [] => O
    | l1 => S (vc_count (skip_while (fun c => c) l1))
    end.
Proof.
  induction l as [|c l IH]; [reflexivity|].
  destruct c.
  - change (S (vc_count l) = S (vc_count (skip_while (fun c => c) l))).
    now rewrite skip_consonants_count.
  - change (skip_while negb (false :: false :: l))
      with (skip_while negb (false :: l)).
    rewrite <- IH. reflexivity.
Qed.

Lemma skip_vowels_head (l : list bool) :
  match skip_while negb l with
  | [] => True
  | c :: _ => c = true
  end.
Proof.
  induction l as [|c l IH]; simpl; [exact I|].
  destruct c; simpl; [reflexivity|exact IH].
Qed.

Lemma skip_consonants_head (l : list bool) :
  match skip_while (fun c => c) l with
  | [] => True
  | c :: _ => c = false
  end.
Proof.
  induction l as [|c l IH]; simpl; [exact I|].
  destruct c; simpl; [exact IH|reflexivity].
Qed.

(** With more fuel than positions the loop counts every transition. *)
Lemma measure_loop_count (fuel : nat) (l : list bool) :
  (List.length l < fuel)%nat ->
  match l with [] => True | c :: _ => c = false end ->
  measure_loop fuel l = vc_count l.
Proof.
  revert l. induction fuel as [|fuel IH]; intros l Hlen Hhead; [lia|].
  destruct l as [|c l]; [reflexivity|]. subst c.
  rewrite vc_count_from_vowel. cbn [measure_loop].
  pose proof (skip_length negb (false :: l)) as H1.
  pose proof (skip_vowels_head (false :: l)) as H2.
  destruct (skip_while negb (false :: l)) as [|c1 l1]; [reflexivity|].
  subst c1. f_equal. apply IH.
  - pose proof (skip_length (fun c => c) (true :: l1)) as H3.
    cbn [skip_while] in *. cbn [List.length] in *.
    pose proof (skip_length (fun c => c) l1). lia.
  - apply skip_consonants_head.
Qed.

(** X1: the measure of a word is the number of places where a vowel is
    followed by a consonant; the loop of [_measure] never runs short. *)
Theorem measure_counts_vowel_consonant (word : string) :
  _measure word = vc_count (flags word).
Proof.
  unfold _measure.
  rewrite measure_loop_count.
  - apply skip_consonants_count.
  - pose proof (skip_length (fun c => c) (flags word)). lia.
  - apply skip_consonants_head.
Qed.

End StemmerMore.

(* ===================================================================== *)
(** * Lengths and characters of strings *)
(* ===================================================================== *)

Module StringFacts.
Import PyStr MoreNotions StemmerFacts.

Lemma chars_app (s t : string) : chars (s ++ t) = (chars s ++ chars t)%list.
Proof.
  unfold chars. induction s as [|c s IH]; simpl; [reflexivity|].
  now rewrite IH.
Qed.

Lemma len_str (l : list ascii) : len (str l) = List.length l.
Proof. now rewrite len_chars, chars_str. Qed.

Lemma len_app (s t : string) : len (s ++ t) = (len s + len t)%nat.
Proof. now rewrite !len_chars, chars_app, length_app. Qed.

Lemma len_take (n : nat) (s : string) : len (take n s) = Nat.min n (len s).
Proof. unfold take. now rewrite len_str, length_firstn, <- len_chars. Qed.

Lemma len_drop (n : nat) (s : string) : len (drop n s) = (len s - n)%nat.
Proof. unfold drop. now rewrite len_str, length_skipn, <- len_chars. Qed.

Lemma len_chop (n : nat) (s : string) : len (chop n s) = (len s - n)%nat.
Proof. unfold chop. rewrite len_take. lia. Qed.

Lemma endswith_len (s suf : string) :
  endswith s suf = true -> (len suf <= len s)%nat.
Proof.
  unfold endswith. intros H. apply andb_true_iff in H as [H _].
  now apply Nat.leb_le.
Qed.

Lemma no_upper_take (n : nat) (s : string) :
  no_upper s -> no_upper (take n s).
Proof.
  unfold no_upper, take. rewrite chars_str. intros H.
  rewrite <- (firstn_skipn n (chars s)) in H.
  now apply Forall_app in H as [H _].
Qed.

Lemma no_upper_chop (n : nat) (s : string) :
  no_upper s -> no_upper (chop n s).
Proof. apply no_upper_take. Qed.

Lemma no_upper_app (s t : string) :
  no_upper s -> no_upper t -> no_upper (s ++ t).
Proof.
  unfold no_upper. rewrite chars_app. intros Hs Ht.
  apply Forall_app. now split.
Qed.

Lemma lower_char_not_upper (c : ascii) : is_upper (lower_char c) = false.
Proof.
  unfold lower_char. destruct (is_upper c) eqn:U; [|exact U].
  unfold is_upper in *.
  apply andb_true_iff in U as [U1 U2].
  apply Nat.leb_le in U1, U2.
  rewrite nat_ascii_embedding by lia.
  apply andb_false_iff. right. apply Nat.leb_gt. lia.
Qed.

Lemma no_upper_lower (s : string) : no_upper (lower s).
Proof.
  unfold no_upper, lower. rewrite chars_str.
  apply Forall_map. apply Forall_forall. intros c _.
  apply lower_char_not_upper.
Qed.

End StringFacts.

Module StemShape.
Import PyStr Stemmer Notions MoreNotions StemmerFacts StringFacts.

Lemma tame_step1a : tame step1a.
Proof.
  intros w. unfold step1a.
  repeat match goal with
         | |- context [if ?c then _ else _] => destruct c
         end;
    rewrite ?len_chop; split; auto using no_upper_chop; lia.
Qed.

Lemma cleanup_shape (w : string) :
  (len (step1b_cleanup w) <= len w + 1)%nat
  /\ (no_upper w -> no_upper (step1b_cleanup w)).
Proof.
  assert (He : no_upper "e") by (repeat constructor).
  unfold step1b_cleanup.
  repeat match goal with
         | |- context [if ?c then _ else _] => destruct c
         end;
    rewrite ?len_chop, ?len_app; cbn [len String.length]; split;
    auto using no_upper_chop, no_upper_app; lia.
Qed.

Lemma tame_step1b : tame step1b.
Proof.
  intros w. unfold step1b.
  destruct (endswith w "eed") eqn:E1.
  { destruct (_ <? _)%nat; rewrite ?len_chop; split;
      auto using no_upper_chop; lia. }
  destruct (endswith w "ed") eqn:E2.
  { apply endswith_len in E2. cbn [len String.length] in E2.
    destruct (_has_vowel _); [|split; auto].
    destruct (cleanup_shape (chop 2 w)) as [H1 H2].
    rewrite len_chop in H1. split; [lia|].
    auto using no_upper_chop. }
  destruct (endswith w "ing") eqn:E3; [|split; auto].
  apply endswith_len in E3. cbn [len String.length] in E3.
  destruct (_has_vowel _); [|split; auto].
  destruct (cleanup_shape (chop 3 w)) as [H1 H2].
  rewrite len_chop in H1. split; [lia|].
  auto using no_upper_chop.
Qed.

Lemma tame_step1c : tame step1c.
Proof.
  assert (Hi : no_upper "i") by (repeat constructor).
  intros w. unfold step1c.
  destruct (endswith w "y") eqn:E; cbn [andb]; [|split; auto].
  apply endswith_len in E. cbn [len String.length] in E.
  destruct (_has_vowel _); [|split; auto].
  rewrite len_app, len_chop. cbn [len String.length].
  split; [lia|]. auto using no_upper_chop, no_upper_app.
Qed.

Lemma tame_rewrite_suffix (rules : list (string * string)) :
  Forall (fun r => (len (snd r) <= len (fst r))%nat /\ no_upper (snd r))
         rules ->
  tame (rewrite_suffix rules).
Proof.
  induction 1 as [|[suffix replacement] rules [Hl Hu] _ IH]; intros w.
  - split; auto.
  - cbn [rewrite_suffix fst snd] in *.
    destruct (endswith w suffix) eqn:E; [|apply IH].
    apply endswith_len in E.
    destruct (_ <? _)%nat; [|split; auto].
    rewrite len_app, len_chop. split; [lia|].
    auto using no_upper_chop, no_upper_app.
Qed.

Lemma tame_strip_suffix (suffixes : list string) :
  tame (strip_suffix suffixes).
Proof.
  induction suffixes as [|suffix suffixes IH]; intros w.
  - split; auto.
  - cbn [strip_suffix].
    destruct (endswith w suffix); [|apply IH].
    repeat match goal with
           | |- context [if ?c then _ else _] => destruct c
           | |- context [match ?c with Some _ => _ | None => _ end] =>
               destruct c
           end;
      rewrite ?len_chop; split; auto using no_upper_chop; lia.
Qed.

Lemma tame_step5a : tame step5a.
Proof.
  intros w. unfold step5a.
  repeat match goal with
         | |- context [if ?c then _ else _] => destruct c
         end;
    rewrite ?len_chop; split; auto using no_upper_chop; lia.
Qed.

Lemma tame_step5b : tame step5b.
Proof.
  intros w. unfold step5b.
  destruct (_ && _); rewrite ?len_chop; split;
    auto using no_upper_chop; lia.
Qed.

Lemma tame_compose (f g : string -> string) :
  tame f -> tame g -> tame (fun w => g (f w)).
Proof.
  intros Hf Hg w. destruct (Hf w) as [F1 F2]. destruct (Hg (f w)) as [G1 G2].
  split; [lia|auto].
Qed.

Lemma step2_rules_shrink :
  Forall (fun r => (len (snd r) <= len (fst r))%nat /\ no_upper (snd r))
         step2_suffixes.
Proof.
  unfold step2_suffixes.
  repeat (apply Forall_cons;
          [split; [vm_compute; lia|repeat constructor]|]).
  apply Forall_nil.
Qed.

Lemma step3_rules_shrink :
  Forall (fun r => (len (snd r) <= len (fst r))%nat /\ no_upper (snd r))
         step3_suffixes.
Proof.
  unfold step3_suffixes.
  repeat (apply Forall_cons;
          [split; [vm_compute; lia|repeat constructor]|]).
  apply Forall_nil.
Qed.

Lemma stem_shape (w : string) :
  (len (stem w) <= len w)%nat /\ no_upper (stem w).
Proof.
  unfold stem. pose proof (no_upper_lower w) as Hu.
  rewrite <- (len_lower w).
  destruct (len (lower w) <=? 2)%nat; [split; [lia|exact Hu]|].
  pose proof (tame_compose _ _ tame_step1a
               (tame_compose _ _ tame_step1b
                 (tame_compose _ _ tame_step1c
                   (tame_compose _ _ (tame_rewrite_suffix _ step2_rules_shrink)
                     (tame_compose _ _
                        (tame_rewrite_suffix _ step3_rules_shrink)
                        (tame_compose _ _ (tame_strip_suffix step4_suffixes)
                          (tame_compose _ _ tame_step5a tame_step5b)))))))
    as H.
  destruct (H (lower w)) as [H1 H2]. split; [exact H1|exact (H2 Hu)].
Qed.

(** X2: a stem is never longer than the word it comes from. *)
Theorem stem_never_longer (w : string) : (len (stem w) <= len w)%nat.
Proof. apply stem_shape. Qed.

(** X3: a stem has no upper-case letter, and stemming does not see the
    case of its input: a word and its lower-case form have the same
    stem. *)
Theorem stem_lower_case (w : string) :
  no_upper (stem w) /\ stem (lower w) = stem w.
Proof. split; [apply stem_shape|apply stem_lower]. Qed.

End StemShape.

(* ===================================================================== *)
(** * Tokens, stem sets and stem frequencies *)
(* ===================================================================== *)

Module StemTextFacts.
Import PyStr Stemmer StemText Notions MoreNotions StemmerFacts StringFacts.

Lemma count_of_add_same (k : string) (c : list (string * nat)) :
  count_of k (count_add k c) = S (count_of k c).
Proof.
  induction c as [|[k' n] c IH]; simpl.
  - now rewrite String.eqb_refl.
  - destruct (String.eqb k k') eqn:E; simpl; rewrite E; auto.
Qed.

Lemma count_of_add_other (k k' : string) (c : list (string * nat)) :
  k' <> k -> count_of k' (count_add k c) = count_of k' c.
Proof.
  intros N. induction c as [|[k0 n] c IH]; simpl.
  - apply String.eqb_neq in N. now rewrite N.
  - destruct (String.eqb k k0) eqn:E; simpl.
    + apply String.eqb_eq in E. subst k0.
      apply String.eqb_neq in N. now rewrite N.
    + now rewrite IH.
Qed.

Lemma keys_count_add (k : string) (c : list (string * nat)) :
  map fst (count_add k c) = add_once k (map fst c).
Proof.
  induction c as [|[k' n] c IH]; simpl; [reflexivity|].
  destruct (String.eqb k k'); simpl; [reflexivity|now rewrite IH].
Qed.

Lemma add_once_in (k x : string) (ks : list string) :
  In x (add_once k ks) <-> x = k \/ In x ks.
Proof.
  induction ks as [|k' ks IH]; simpl.
  - intuition.
  - destruct (String.eqb k k') eqn:E; simpl.
    + apply String.eqb_eq in E. subst k'. intuition.
    + rewrite IH. intuition.
Qed.

Lemma add_once_nodup (k : string) (ks : list string) :
  NoDup ks -> NoDup (add_once k ks).
Proof.
  induction 1 as [|k' ks Hn Hd IH]; simpl.
  - repeat constructor. intros [].
  - destruct (String.eqb k k') eqn:E; [now constructor|].
    constructor; [|exact IH].
    rewrite add_once_in. intros [->|H]; [|contradiction].
    now rewrite String.eqb_refl in E.
Qed.

Lemma fold_counts (l : list string) (c : list (string * nat)) (k : string) :
  count_of k (fold_left (fun c k => count_add k c) l c)
  = (count_of k c + occurrences k l)%nat.
Proof.
  unfold occurrences. revert c. induction l as [|x l IH]; intros c; simpl.
  - lia.
  - rewrite IH. destruct (string_dec x k) as [->|N].
    + rewrite count_of_add_same. lia.
    + rewrite count_of_add_other by congruence. lia.
Qed.

Lemma fold_keys (l : list string) (c : list (string * nat)) :
  map fst (fold_left (fun c k => count_add k c) l c)
  = fold_left (fun acc k => add_once k acc) l (map fst c).
Proof.
  revert c. induction l as [|x l IH]; intros c; simpl; [reflexivity|].
  now rewrite IH, keys_count_add.
Qed.

Lemma fold_set (l acc : list string) (x : string) :
  NoDup acc ->
  NoDup (fold_left (fun acc k => add_once k acc) l acc)
  /\ (In x (fold_left (fun acc k => add_once k acc) l acc)
      <-> In x acc \/ In x l).
Proof.
  revert acc. induction l as [|k l IH]; intros acc Hn; simpl.
  - intuition.
  - destruct (IH (add_once k acc) (add_once_nodup k acc Hn)) as [H1 H2].
    split; [exact H1|]. rewrite H2, add_once_in. intuition.
Qed.

Lemma occurrences_of_stems (k : string) (ws : list string) :
  occurrences k (map stem ws)
  = List.length (filter (fun w => String.eqb (stem w) k) ws).
Proof.
  unfold occurrences. induction ws as [|w ws IH]; cbn [map count_occ filter].
  - reflexivity.
  - destruct (string_dec (stem w) k) as [E|N].
    + apply String.eqb_eq in E. rewrite E. cbn [List.length]. now rewrite IH.
    + apply String.eqb_neq in N. now rewrite N.
Qed.

(** X4: on an ASCII text, the frequency map gives every string the
    number of words handed to the stemmer (the words of the lower-cased
    text that have more than two letters) whose stem it is; it has one
    entry per stem, and an entry for exactly the stems of these words. *)
Theorem term_counts_are_occurrences (text : string) (k : string) :
  ascii_text text ->
  count_of k (stem_text_with_counts text)
  = List.length (filter (fun w => String.eqb (stem w) k) (words_of text))
  /\ NoDup (map fst (stem_text_with_counts text))
  /\ (In k (map fst (stem_text_with_counts text))
      <-> exists w, In w (words_of text) /\ stem w = k).
Proof.
  intros _. unfold stem_text_with_counts. split; [|split].
  - rewrite fold_counts. unfold stems_of. now rewrite occurrences_of_stems.
  - rewrite fold_keys. apply (fold_set _ [] k). constructor.
  - rewrite fold_keys.
    destruct (fold_set (stems_of text) [] k) as [_ H]; [constructor|].
    rewrite H. unfold stems_of. rewrite in_map_iff. cbn [map In].
    split.
    + intros [[]|(w & Hw & Hin)]. now exists w.
    + intros (w & Hin & Hw). right. now exists w.
Qed.

Lemma term_counts_are_occurrences_witness :
  count_of "fix" (stem_text_with_counts "Fixing bugs: fixed a bug at it")
  = 2%nat
  /\ count_of "at" (stem_text_with_counts "Fixing bugs: fixed a bug at it")
     = 0%nat.
Proof.
  assert (Ha : ascii_text "Fixing bugs: fixed a bug at it").
  { unfold ascii_text. cbn [chars list_ascii_of_string].
    repeat (constructor; [cbn; lia|]). constructor. }
  split.
  - rewrite (proj1 (term_counts_are_occurrences _ "fix" Ha)).
    vm_compute. reflexivity.
  - rewrite (proj1 (term_counts_are_occurrences _ "at" Ha)).
    vm_compute. reflexivity.
Defined.

(** X5: the stem set of a text is the key set of its frequency map, in
    the same order, and holds no stem twice; so a query stem is found in
    an indexed text exactly when it is a stem of that text. *)
Theorem stem_set_is_key_set (text : string) :
  stem_text text = map fst (stem_text_with_counts text)
  /\ NoDup (stem_text text)
  /\ forall k, In k (stem_text text) <-> In k (stems_of text).
Proof.
  unfold stem_text, stem_text_with_counts. rewrite fold_keys. simpl.
  split; [reflexivity|]. split.
  - apply (fold_set _ [] ""). constructor.
  - intros k. destruct (fold_set (stems_of text) [] k) as [_ H];
      [constructor|].
    rewrite H. simpl. intuition.
Qed.

Lemma word_runs_shape (cur cs : list ascii) :
  Forall (fun run => run <> []) (word_runs cur cs).
Proof.
  revert cur. induction cs as [|c cs IH]; intros cur; simpl.
  - destruct cur as [|a cur]; constructor; [|constructor].
    intros H. apply (f_equal (@List.length ascii)) in H.
    rewrite length_rev in H. discriminate H.
  - destruct (is_word_char c); [apply IH|].
    destruct cur as [|a cur]; [apply IH|].
    constructor; [|apply IH].
    intros H. apply (f_equal (@List.length ascii)) in H.
    rewrite length_rev in H. discriminate H.
Qed.

Lemma word_runs_forall (P : ascii -> Prop) (cur cs : list ascii) :
  Forall P cur -> Forall P cs -> Forall (Forall P) (word_runs cur cs).
Proof.
  revert cur. induction cs as [|c cs IH]; intros cur Hcur Hcs; simpl.
  - destruct cur as [|a cur]; constructor; [|constructor].
    now apply Forall_rev.
  - inversion Hcs as [|? ? Hc Hcs']; subst.
    destruct (is_word_char c); [apply IH; auto|].
    destruct cur as [|a cur]; [apply IH; auto|].
    constructor; [now apply Forall_rev|apply IH; auto].
Qed.

(** X6: on an ASCII text, every word handed to the stemmer has at least
    three characters, all of them lower-case letters; the indexed stems
    are the stems of these words, in their order. *)
Theorem tokens_are_letter_words (text : string) :
  ascii_text text ->
  Forall (fun w => (3 <= len w)%nat /\ forallb is_lower (chars w) = true)
         (words_of text)
  /\ stems_of text = map stem (words_of text).
Proof.
  intros _. split; [|reflexivity].
  apply Forall_forall. intros w Hin. unfold words_of in Hin.
  apply filter_In in Hin as [Hin Hl].
  split; [apply Nat.ltb_lt in Hl; lia|].
  unfold findall_words in Hin. apply in_map_iff in Hin as (run & <- & Hin).
  apply filter_In in Hin as [Hin Hlet]. rewrite chars_str.
  pose proof (word_runs_forall (fun c => is_upper c = false) []
                (chars (lower text)) (Forall_nil _)
                (no_upper_lower text)) as Hno.
  rewrite Forall_forall in Hno. specialize (Hno run Hin).
  apply forallb_forall. intros c Hc.
  rewrite forallb_forall in Hlet. specialize (Hlet c Hc).
  rewrite Forall_forall in Hno. specialize (Hno c Hc).
  unfold is_letter in Hlet. rewrite Hno, orb_false_r in Hlet. exact Hlet.
Qed.

Lemma tokens_are_letter_words_witness :
  words_of "Fixing bugs: fixed a bug at it"
  = ["fixing"; "bugs"; "fixed"; "bug"]
  /\ Forall (fun w => (3 <= len w)%nat
                      /\ forallb is_lower (chars w) = true)
            (words_of "Fixing bugs: fixed a bug at it").
Proof.
  split; [vm_compute; reflexivity|].
  apply (tokens_are_letter_words "Fixing bugs: fixed a bug at it").
  unfold ascii_text. cbn [chars list_ascii_of_string].
  repeat (constructor; [cbn; lia|]). constructor.
Defined.

End StemTextFacts.

(* ===================================================================== *)
(** * Loops that may raise *)
(* ===================================================================== *)

Module LoopLaws.
Import PyStr Py PyFacts.

(** Takes the first step of a hypothesis [x <- m ;; k = Ok v], without
    unfolding anything else. *)
Ltac step H :=
  match type of H with
  | bind ?m _ = Ok _ =>
      let E := fresh "E" in
      destruct m eqn:E; cbn [bind] in H; [discriminate H|]
  end.

(** A property the body keeps holds after the loop. *)
Lemma for_each_inv {A S : Type} (P : S -> Prop) (body : S -> A -> res S)
  (xs : list A) (s0 s : S) :
  (forall s1 x s2, In x xs -> P s1 -> body s1 x = Ok s2 -> P s2) ->
  P s0 -> for_each body xs s0 = Ok s -> P s.
Proof.
  revert s0. induction xs as [|x xs IH]; intros s0 Hb H0 H.
  - now injection H as <-.
  - cbn [for_each] in H. step H. apply (IH s1); auto.
    + intros s2 y s3 Hy. apply Hb. now right.
    + apply (Hb s0 x); auto. now left.
Qed.

(** A loop over a concatenation is the two loops in sequence. *)
Lemma for_each_app {A S : Type} (body : S -> A -> res S) (xs ys : list A)
  (s0 : S) :
  for_each body (xs ++ ys) s0
  = (s1 <- for_each body xs s0 ;; for_each body ys s1).
Proof.
  revert s0. induction xs as [|x xs IH]; intros s0; [reflexivity|].
  cbn [for_each app]. destruct (body s0 x); cbn [bind]; auto.
Qed.

End LoopLaws.

(* ===================================================================== *)
(** * Normalising and creating tasks *)
(* ===================================================================== *)

Module TaskFacts.
Import PyStr Py Extraction Notions MoreNotions PyFacts LoopLaws.

(** X7: normalising is idempotent, and what it makes of an object is an
    object with a [content] field: a task in either wire format comes out
    in the todo format, and a todo comes out as it went in. *)
Theorem normalize_task_idempotent (task t' : json) :
  normalize_task task = Ok t' ->
  normalize_task t' = Ok t'
  /\ (is_dict task = true ->
      exists d', t' = JObj d' /\ has_key "content" d' = true).
Proof.
  intros H. unfold normalize_task in H. step H.
  destruct b.
  - injection H as <-. unfold normalize_task. rewrite E. cbn [bind].
    split; [reflexivity|]. intros Hd.
    destruct task as [| | | | |d]; try discriminate Hd.
    exists d. split; [reflexivity|]. cbn [contains_key] in E.
    now injection E as ->.
  - repeat step H. injection H as <-.
    split; [reflexivity|]. intros _. eexists. split; reflexivity.
Qed.

Lemma str_of_nat_not_empty (n : nat) : str_of_nat n <> "".
Proof. unfold str_of_nat. destruct (Nat.to_uint n); discriminate. Qed.

(** X8: a [TaskCreate] adds exactly one snapshot, after the existing
    ones; its todos are those of the latest snapshot, in order, followed
    by the normalised task, which keeps its id when it has one and
    otherwise gets the number of todos plus one as its id; its other
    fields are those of the normalised task and its id is never empty. *)
Theorem task_create_appends (idx : Z) (ts : json)
  (snaps snaps' : list Snapshot.t) (tool_input : json) :
  task_create idx ts snaps tool_input = Ok snaps' ->
  exists d d',
    normalize_task tool_input = Ok (JObj d)
    /\ snaps' = snaps ++ [ {| Snapshot.message_index := idx;
                              Snapshot.timestamp := ts;
                              Snapshot.todos :=
                                latest_todos snaps ++ [JObj d'] |} ]
    /\ (forall k, k <> "id" -> lookup k d' = lookup k d)
    /\ todo_id (JObj d')
       = (if truthy (todo_id (JObj d)) then todo_id (JObj d)
          else JStr (str_of_nat (List.length (latest_todos snaps) + 1)))
    /\ truthy (todo_id (JObj d')) = true.
Proof.
  intros H. unfold task_create in H. step H. step H.
  destruct j as [| | | | |d]; try discriminate E0.
  cbn [get get_default] in E0. injection E0 as <-.
  fold (latest_todos snaps) in H.
  change (match lookup "id" d with Some x => x | None => JNull end)
    with (todo_id (JObj d)) in H.
  exists d. destruct (truthy (todo_id (JObj d))) eqn:T.
  - exists d. injection H as <-. repeat split; auto.
  - exists (assign "id"
              (JStr (str_of_nat (List.length (latest_todos snaps) + 1))) d).
    injection H as <-.
    assert (Hid : todo_id (JObj (assign "id"
               (JStr (str_of_nat (List.length (latest_todos snaps) + 1))) d))
             = JStr (str_of_nat (List.length (latest_todos snaps) + 1))).
    { unfold todo_id, field. now rewrite lookup_assign_same. }
    repeat split; auto.
    + intros k N. now apply lookup_assign_other.
    + rewrite Hid. cbn [truthy].
      apply negb_true_iff. apply String.eqb_neq.
      apply str_of_nat_not_empty.
Qed.

Lemma task_create_appends_witness :
  exists d',
    task_create 3 JNull
      [ Snapshot.mk 2 JNull [todo "1" "fix bug" "completed"] ]
      (JObj [("subject", JStr "write tests")])
    = Ok [ Snapshot.mk 2 JNull [todo "1" "fix bug" "completed"];
           Snapshot.mk 3 JNull [todo "1" "fix bug" "completed"; JObj d'] ]
    /\ todo_id (JObj d') = JStr "2".
Proof.
  destruct (task_create 3 JNull
              [ Snapshot.mk 2 JNull [todo "1" "fix bug" "completed"] ]
              (JObj [("subject", JStr "write tests")])) as [e|snaps'] eqn:E;
    [vm_compute in E; discriminate E|].
  destruct (task_create_appends _ _ _ _ _ E) as (d & d' & Hn & -> & _ & Hid & _).
  exists d'. split; [reflexivity|].
  rewrite Hid. vm_compute in Hn. injection Hn as <-. reflexivity.
Defined.

Lemma normalize_task_idempotent_witness :
  exists t',
    normalize_task (JObj [("subject", JStr "write tests")]) = Ok t'
    /\ normalize_task t' = Ok t'.
Proof.
  destruct (normalize_task (JObj [("subject", JStr "write tests")]))
    as [e|t'] eqn:E; [vm_compute in E; discriminate E|].
  exists t'. split; [reflexivity|].
  exact (proj1 (normalize_task_idempotent _ _ E)).
Defined.

End TaskFacts.

(* ===================================================================== *)
(** * What one entry does to the state of the extractor *)
(* ===================================================================== *)

Module EntryFacts.
Import PyStr Py Extraction Notions MoreNotions PyFacts LoopLaws LoopFacts.

Lemma items_loop_shape (idx : Z) (ts : json) (items : list json)
  (snaps snaps' : list Snapshot.t) :
  for_each (tool_use_item idx ts) items snaps = Ok snaps' ->
  exists extra,
    snaps' = snaps ++ extra
    /\ Forall (fun s => Snapshot.message_index s = idx) extra.
Proof.
  revert snaps. induction items as [|item items IH]; intros snaps H.
  - injection H as <-. exists []. split; [now rewrite app_nil_r|constructor].
  - cbn [for_each] in H. step H.
    apply IH in H as (extra & -> & Hf).
    apply tool_use_item_shape in E as [->|[todos ->]].
    + now exists extra.
    + eexists (_ :: extra). rewrite <- app_assoc. split; [reflexivity|].
      constructor; [reflexivity|exact Hf].
Qed.

(** The effect of one entry on the loop variables. *)
Lemma entry_step_parts (st st' : loop_state) (entry : json) :
  entry_step st entry = Ok st' ->
  is_dict entry = true
  /\ message_index st'
     = message_index st + (if is_message entry then 1 else 0)
  /\ (user_messages st' = user_messages st
      \/ (is_user entry = true
          /\ exists text, text <> ""
               /\ user_messages st' = user_messages st ++ [take 200 text]))
  /\ exists extra,
       todo_snapshots st' = todo_snapshots st ++ extra
       /\ Forall (fun s => Snapshot.message_index s = message_index st') extra
       /\ (extra <> [] ->
           is_assistant entry = true
           \/ (is_user entry = true
               /\ truthy (field "todos" JNull entry) = true)).
Proof.
  intros H. unfold entry_step in H.
  destruct entry as [| | | | |d];
    try discriminate H;
    try (cbn [contains_key get get_default bind] in H; step H;
         discriminate H).
  cbn [contains_key get get_default bind] in H.
  change (match lookup "type" d with Some x => x | None => JNull end)
    with (entry_type (JObj d)) in H.
  change (match lookup "todos" d with Some x => x | None => JNull end)
    with (field "todos" JNull (JObj d)) in H.
  change (match lookup "message" d with Some x => x | None => JNull end)
    with (field "message" JNull (JObj d)) in H.
  fold (is_user (JObj d)) in H. fold (is_assistant (JObj d)) in H.
  fold (is_message (JObj d)) in H.
  step H. step H. step H. step H. injection H as <-.
  cbn [message_index user_messages todo_snapshots].
  split; [reflexivity|].
  split; [destruct (is_message (JObj d)); [reflexivity|lia]|]. split.
  - destruct (is_user (JObj d)); cbn [andb] in E0.
    + destruct (truthy (field "message" JNull (JObj d)));
        [|injection E0 as <-; now left].
      step E0. step E0.
      match type of E0 with
      | (if negb (?m =? "")%string then _ else _) = _ =>
          destruct (negb (m =? "")%string) eqn:N;
          injection E0 as <-; [|now left];
          right; split; [reflexivity|]; exists m; split; [|reflexivity];
          apply negb_true_iff in N; now apply String.eqb_neq
      end.
    + injection E0 as <-. now left.
  - assert (H1 : exists extra1,
               l = todo_snapshots st ++ extra1
               /\ Forall (fun s => Snapshot.message_index s
                            = (if is_message (JObj d)
                               then message_index st + 1
                               else message_index st))
                         extra1
               /\ (extra1 <> [] -> is_assistant (JObj d) = true)).
    { destruct (is_assistant (JObj d)); cbn [andb] in E1.
      - destruct (truthy (field "message" JNull (JObj d))).
        + step E1. step E1. apply items_loop_shape in E1 as (x & -> & Hf).
          exists x. repeat split; auto.
        + injection E1 as <-. exists []. rewrite app_nil_r.
          repeat split; auto.
      - injection E1 as <-. exists []. rewrite app_nil_r.
        repeat split; auto. }
    destruct H1 as (extra1 & -> & Hf1 & Ha).
    destruct (is_user (JObj d)) eqn:U; cbn [andb] in E2.
    + destruct (truthy (field "todos" JNull (JObj d))) eqn:T.
      * step E2. step E2. injection E2 as <-.
        eexists (extra1 ++ [_]). rewrite app_assoc.
        split; [reflexivity|]. split.
        { apply Forall_app. split; [exact Hf1|].
          constructor; [reflexivity|constructor]. }
        intros _. right. now split.
      * injection E2 as <-. exists extra1. repeat split; auto.
    + injection E2 as <-. exists extra1. repeat split; auto.
Qed.

End EntryFacts.

(* ===================================================================== *)
(** * The record as a whole *)
(* ===================================================================== *)

Module RecordFacts.
Import PyStr Py Extraction Notions MoreNotions PyFacts LoopLaws LoopFacts.
Import SegmenterFacts EntryFacts StringFacts.

(** Every step that makes up a returned record. *)
Lemma extract_parts (jsonl_file : string) (entries : list json)
  (r : ConvRecord.t) :
  extract_conversation_data jsonl_file entries = Ok r ->
  exists st activity full_text work_text desc_text,
    extract_loop entries = Ok st
    /\ ConvRecord.todo_snapshots r = todo_snapshots st
    /\ ConvRecord.message_count r = message_index st
    /\ ConvRecord.user_message_count r = List.length (user_messages st)
    /\ ConvRecord.user_message_arc r = message_arc (user_messages st)
    /\ ConvRecord.first_message r
       = match user_messages st with m :: _ => m | [] => "No message" end
    /\ build_final_todos (todo_snapshots st) = Ok (ConvRecord.final_todos r)
    /\ calculate_episodes (todo_snapshots st) = Ok (ConvRecord.episodes r)
    /\ set_of (work_item_sources r) = Ok (ConvRecord.work_items r)
    /\ join_json " " (ConvRecord.work_items r) = Ok work_text
    /\ extract_activity_signals entries = Ok activity
    /\ ConvRecord.files_touched r = sig_files_touched activity
    /\ ConvRecord.commands_run r = sig_commands_run activity
    /\ ConvRecord.urls_fetched r = sig_urls_fetched activity
    /\ extract_full_text entries = Ok full_text
    /\ ConvRecord.term_counts r
       = StemText.stem_text_with_counts
           (join " " [ full_text; work_text; desc_text;
                       join " " (sig_files_touched activity);
                       join " " (sig_commands_run activity) ])
    /\ ConvRecord.project r = basename (dirname jsonl_file).
Proof.
  intros H. unfold extract_conversation_data in H.
  do 9 step H. injection H as <-.
  unfold work_item_sources. cbn.
  exists l, s, s0, s1, s2. repeat split; auto.
  destruct (todo_snapshots l); [now injection E1 as <-|exact E1].
Qed.

Lemma user_is_message (entry : json) :
  is_user entry = true -> is_message entry = true.
Proof. unfold is_message. now intros ->. Qed.

Lemma assistant_is_message (entry : json) :
  is_assistant entry = true -> is_message entry = true.
Proof. unfold is_message. intros ->. apply orb_true_r. Qed.

Lemma not_empty_len (s : string) : s <> "" -> (1 <= len s)%nat.
Proof. destruct s; [congruence|]. cbn. lia. Qed.

(** What the main loop keeps true of its variables, counted from the
    state it starts in. *)
Lemma entries_loop_counts (entries : list json) (st0 st : loop_state) :
  for_each entry_step entries st0 = Ok st ->
  message_index st
  = message_index st0
    + Z.of_nat (List.length (filter is_message entries))
  /\ (List.length (user_messages st)
      <= List.length (user_messages st0)
         + List.length (filter is_user entries))%nat
  /\ (Forall (fun m => (1 <= len m <= 200)%nat) (user_messages st0) ->
      Forall (fun m => (1 <= len m <= 200)%nat) (user_messages st))
  /\ (0 <= message_index st0 ->
      Forall (fun s => 1 <= Snapshot.message_index s <= message_index st0)
             (todo_snapshots st0) ->
      Forall (fun s => 1 <= Snapshot.message_index s <= message_index st)
             (todo_snapshots st)).
Proof.
  revert st0. induction entries as [|entry entries IH]; intros st0 H.
  - injection H as <-. cbn. repeat split; auto; lia.
  - cbn [for_each] in H. step H.
    apply entry_step_parts in E
      as (_ & Hidx & Hum & extra & Hsn & Hex & Hwhy).
    destruct (IH _ H) as (I1 & I2 & I3 & I4). clear IH.
    cbn [filter].
    assert (Hlen : (List.length (user_messages l)
                    <= List.length (user_messages st0)
                       + (if is_user entry then 1 else 0))%nat).
    { destruct Hum as [->|(U & text & _ & ->)]; [lia|].
      rewrite U, length_app. cbn. lia. }
    split; [|split; [|split]].
    + rewrite I1, Hidx. destruct (is_message entry); cbn [List.length]; lia.
    + destruct (is_user entry); cbn [List.length]; lia.
    + intros Hf. apply I3.
      destruct Hum as [->|(_ & text & Hne & ->)]; [exact Hf|].
      apply Forall_app. split; [exact Hf|]. constructor; [|constructor].
      apply not_empty_len in Hne. rewrite len_take. lia.
    + intros H0 Hf. apply I4.
      * rewrite Hidx. destruct (is_message entry); lia.
      * rewrite Hsn. apply Forall_app. split.
        { eapply Forall_impl; [|exact Hf]. cbn. intros s0 Hs.
          rewrite Hidx. destruct (is_message entry); lia. }
        destruct extra as [|e extra]; [constructor|].
        assert (Hm : is_message entry = true).
        { destruct Hwhy as [Ha|[Hu _]]; [discriminate| |].
          - now apply assistant_is_message.
          - now apply user_is_message. }
        eapply Forall_impl; [|exact Hex]. cbn. intros s0 ->.
        rewrite Hidx, Hm. lia.
Qed.

Lemma filter_user_le_message (entries : list json) :
  (List.length (filter is_user entries)
   <= List.length (filter is_message entries))%nat.
Proof.
  induction entries as [|e entries IH]; cbn [filter]; [lia|].
  unfold is_message at 1. destruct (is_user e); cbn [orb List.length].
  - lia.
  - destruct (is_assistant e); cbn [List.length]; lia.
Qed.

(** X9: [message_count] is the number of entries whose type is user or
    assistant, whatever else the log holds; the user turns counted are at
    most the user entries, so at most [message_count]. *)
Theorem message_count_counts_messages (jsonl_file : string)
  (entries : list json) (r : ConvRecord.t) :
  extract_conversation_data jsonl_file entries = Ok r ->
  ConvRecord.message_count r
  = Z.of_nat (List.length (filter is_message entries))
  /\ (ConvRecord.user_message_count r
      <= List.length (filter is_user entries))%nat
  /\ Z.of_nat (ConvRecord.user_message_count r) <= ConvRecord.message_count r.
Proof.
  intros H. apply extract_parts in H
    as (st & _ & _ & _ & _ & Hl & _ & Hm & Hu & _).
  apply entries_loop_counts in Hl as (I1 & I2 & _).
  cbn in I1, I2. rewrite Hm, Hu, I1.
  pose proof (filter_user_le_message entries). repeat split; lia.
Qed.

Lemma message_count_counts_messages_witness :
  exists r,
    extract_conversation_data sample_path log_two_episodes = Ok r
    /\ ConvRecord.message_count r = 5.
Proof.
  destruct (extract_conversation_data sample_path log_two_episodes)
    as [e|r] eqn:E; [vm_compute in E; discriminate E|].
  exists r. split; [reflexivity|].
  now rewrite (proj1 (message_count_counts_messages _ _ _ E)).
Defined.

(** X10: with no user message the first message reads "No message" and
    the arc is empty; with one the arc is that message; with more it is
    the first and one other (the last); the arc starts with
    [first_message] and its messages have 1 to 200 characters. *)
Theorem user_message_arc_shape (jsonl_file : string)
  (entries : list json) (r : ConvRecord.t) :
  extract_conversation_data jsonl_file entries = Ok r ->
  let n := ConvRecord.user_message_count r in
  let arc := ConvRecord.user_message_arc r in
  (n = 0%nat -> ConvRecord.first_message r = "No message" /\ arc = [])
  /\ (n = 1%nat -> arc = [ConvRecord.first_message r])
  /\ ((2 <= n)%nat -> exists m, arc = [ConvRecord.first_message r; m])
  /\ Forall (fun m => (1 <= len m <= 200)%nat) arc.
Proof.
  intros H n arc. subst n arc.
  apply extract_parts in H
    as (st & _ & _ & _ & _ & Hl & _ & _ & -> & -> & -> & _).
  apply entries_loop_counts in Hl as (_ & _ & I3 & _).
  specialize (I3 (Forall_nil _)).
  destruct (user_messages st) as [|m rest]; cbn [List.length message_arc].
  - repeat split; try discriminate; try lia. constructor.
  - inversion I3 as [|? ? Hm Hrest]; subst.
    destruct (last_opt rest) as [x|] eqn:L.
    + pose proof (last_opt_in _ _ L) as Hin.
      rewrite Forall_forall in Hrest.
      split; [discriminate|]. split; [|split].
      * intros [= Hlen]. destruct rest; [discriminate L|discriminate Hlen].
      * intros _. now exists x.
      * constructor; [exact Hm|]. constructor; [|constructor].
        apply (Hrest x Hin).
    + apply last_opt_nil in L. subst rest.
      split; [discriminate|]. split; [reflexivity|]. split.
      * cbn. lia.
      * constructor; [exact Hm|constructor].
Qed.

Lemma user_message_arc_shape_witness :
  exists r,
    extract_conversation_data sample_path plain_log = Ok r
    /\ ConvRecord.user_message_arc r = ["please fix the bug"; "thanks"]
    /\ Forall (fun m => (1 <= len m <= 200)%nat)
              (ConvRecord.user_message_arc r).
Proof.
  destruct (extract_conversation_data sample_path plain_log)
    as [e|r] eqn:E; [vm_compute in E; discriminate E|].
  exists r. split; [reflexivity|]. split.
  - vm_compute in E. now injection E as <-.
  - exact (proj2 (proj2 (proj2 (user_message_arc_shape _ _ _ E)))).
Defined.

End RecordFacts.

(* ===================================================================== *)
(** * Sets of work items *)
(* ===================================================================== *)

Module SetFacts.
Import PyStr Py Extraction Notions MoreNotions PyFacts LoopLaws.

Lemma py_eq_refl (v : json) : hashable v = true -> py_eq v v = true.
Proof.
  destruct v as [|b|n|s|l|d]; cbn; try discriminate; intros _.
  - reflexivity.
  - now destruct b.
  - apply Z.eqb_refl.
  - apply String.eqb_refl.
Qed.

Lemma py_eq_string (v : json) (s : string) :
  py_eq v (JStr s) = true -> v = JStr s.
Proof. apply is_str_eq. Qed.

Lemma member_false_in (x : json) (l : list json) :
  member x l = false -> forall y, In y l -> py_eq x y = false.
Proof.
  intros H y Hy. destruct (py_eq x y) eqn:E; [|reflexivity].
  assert (member x l = true) by (apply existsb_exists; eauto).
  congruence.
Qed.

Lemma member_true_in (x : json) (l : list json) :
  member x l = true -> exists y, In y l /\ py_eq x y = true.
Proof. apply existsb_exists. Qed.

Lemma dedup_incl (xs seen : list json) (y : json) :
  In y (dedup seen xs) -> In y xs.
Proof.
  revert seen. induction xs as [|x xs IH]; intros seen; cbn [dedup]; auto.
  destruct (member x seen); intros H.
  - right. eapply IH; eauto.
  - destruct H as [->|H]; [now left|right; eapply IH; eauto].
Qed.

Lemma dedup_covers (xs seen : list json) (x : json) :
  Forall (fun v => hashable v = true) xs -> In x xs ->
  (exists y, In y seen /\ py_eq x y = true)
  \/ (exists y, In y (dedup seen xs) /\ py_eq x y = true).
Proof.
  revert seen. induction xs as [|x0 xs IH]; intros seen Hh Hin; [easy|].
  inversion Hh as [|? ? Hx0 Hxs]; subst. cbn [dedup].
  destruct (member x0 seen) eqn:M.
  - destruct Hin as [->|Hin]; [left; now apply member_true_in|].
    now apply IH.
  - destruct Hin as [->|Hin].
    + right. exists x. split; [now left|now apply py_eq_refl].
    + destruct (IH (x0 :: seen) Hxs Hin) as [(y & [<-|Hy] & E)|(y & Hy & E)].
      * right. exists x0. split; [now left|exact E].
      * left. eauto.
      * right. exists y. split; [now right|exact E].
Qed.

Lemma dedup_distinct (xs seen : list json) :
  ForallOrdPairs (fun a b => py_eq b a = false) (dedup seen xs)
  /\ Forall (fun y => member y seen = false) (dedup seen xs).
Proof.
  revert seen. induction xs as [|x xs IH]; intros seen; cbn [dedup].
  - split; constructor.
  - destruct (member x seen) eqn:M; [apply IH|].
    destruct (IH (x :: seen)) as [I1 I2]. split.
    + constructor; [|exact I1].
      eapply Forall_impl; [|exact I2]. cbn. intros y Hy.
      now apply orb_false_iff in Hy as [Hy _].
    + constructor; [exact M|].
      eapply Forall_impl; [|exact I2]. cbn. intros y Hy.
      now apply orb_false_iff in Hy as [_ Hy].
Qed.

Lemma distinct_nodup (l : list json) :
  Forall (fun v => hashable v = true) l ->
  ForallOrdPairs (fun a b => py_eq b a = false) l -> NoDup l.
Proof.
  intros Hh H. induction H as [|a l Ha Hl IH]; [constructor|].
  inversion Hh as [|? ? Hha Hhl]; subst.
  constructor; [|now apply IH].
  intros Hin. rewrite Forall_forall in Ha. specialize (Ha a Hin).
  rewrite py_eq_refl in Ha; [discriminate|exact Hha].
Qed.

(** What [list(set(xs))] returns: no value twice, nothing that was not in
    [xs], and an equal of every value of [xs]. *)
Lemma set_of_spec (xs out : list json) :
  set_of xs = Ok out ->
  NoDup out
  /\ (forall y, In y out -> In y xs)
  /\ (forall x, In x xs -> exists y, In y out /\ py_eq x y = true).
Proof.
  unfold set_of. destruct (forallb hashable xs) eqn:F; [|discriminate].
  intros [= <-]. rewrite forallb_forall in F.
  assert (Hh : Forall (fun v => hashable v = true) xs)
    by now apply Forall_forall.
  split; [|split].
  - apply distinct_nodup; [|apply dedup_distinct].
    apply Forall_forall. intros y Hy. apply F. eapply dedup_incl; eauto.
  - intros y. apply dedup_incl.
  - intros x Hx.
    destruct (dedup_covers xs [] x Hh Hx) as [(y & [] & _)|H]; exact H.
Qed.

Lemma map_res_as_str (xs : list json) (parts : list string) :
  map_res as_str xs = Ok parts -> xs = map JStr parts.
Proof.
  revert parts. induction xs as [|x xs IH]; intros parts H.
  - now injection H as <-.
  - cbn [map_res] in H. step H. step H. injection H as <-.
    destruct x; try discriminate E. injection E as <-.
    cbn [map]. f_equal. now apply IH.
Qed.

Lemma join_json_strings (sep : string) (xs : list json) (text : string) :
  join_json sep xs = Ok text -> Forall is_string xs.
Proof.
  unfold join_json. intros H. step H.
  apply map_res_as_str in E. subst xs.
  apply Forall_forall. intros x Hx. apply in_map_iff in Hx as (s & <- & _).
  now exists s.
Qed.

End SetFacts.

(* ===================================================================== *)
(** * Episodes of a record *)
(* ===================================================================== *)

Module EpisodeFacts.
Import PyStr Py Extraction Notions MoreNotions PyFacts LoopLaws LoopFacts.
Import SegmenterFacts EntryFacts RecordFacts SetFacts.

Lemma ordpairs_snoc {A : Type} (R : A -> A -> Prop) (l : list A) (y : A) :
  ForallOrdPairs R l -> Forall (fun x => R x y) l ->
  ForallOrdPairs R (l ++ [y]).
Proof.
  intros H Hy. induction H as [|a l Ha Hl IH]; cbn [app].
  - constructor; constructor.
  - inversion Hy as [|? ? Hay Hly]; subst.
    constructor; [|now apply IH].
    apply Forall_app. split; [exact Ha|]. now constructor.
Qed.

Lemma episode_step_sound (idx : Z) (st st' : seg_state) (t : json) :
  episode_step idx st t = Ok st' -> seg_sound st -> seg_sound st'.
Proof.
  intros H (Hc & Hf & Hp). unfold episode_step in H.
  step H. step H.
  destruct (is_str j0 "completed" && truthy j) eqn:C.
  2:{ injection H as <-. repeat split; assumption. }
  destruct (hashable j) eqn:Hh; cbn [negb] in H; [|discriminate].
  destruct (member j (completed_todos st)) eqn:M; cbn [negb] in H.
  { injection H as <-. repeat split; assumption. }
  injection H as <-. apply andb_true_iff in C as [_ C].
  unfold seg_sound. cbn [seg_episodes completed_todos].
  split; [|split].
  - rewrite map_app, rev_app_distr, Hc. reflexivity.
  - apply Forall_app. split; [exact Hf|].
    constructor; [|constructor]. unfold episode_consistent. cbn. auto.
  - apply ordpairs_snoc; [exact Hp|].
    apply Forall_forall. intros e He. cbn.
    apply (member_false_in _ _ M). rewrite Hc, <- in_rev.
    now apply in_map.
Qed.

Lemma segmenter_sound (snaps : list Snapshot.t) (st st' : seg_state) :
  for_each snapshot_step snaps st = Ok st' -> seg_sound st -> seg_sound st'.
Proof.
  intros H H0. revert H0 H. apply for_each_inv.
  intros s1 s s2 _ H1 H. unfold snapshot_step in H.
  revert H1 H. apply for_each_inv.
  intros s3 t s4 _ H3 H4. eapply episode_step_sound; eauto.
Qed.

Lemma segmenter_bound (hi : Z) (snaps : list Snapshot.t)
  (st st' : seg_state) :
  for_each snapshot_step snaps st = Ok st' ->
  Forall (fun s => Snapshot.message_index s <= hi) snaps ->
  prev_message_idx st <= hi -> prev_message_idx st' <= hi.
Proof.
  intros H Hf H0. revert H0 H.
  apply (for_each_inv (fun st => prev_message_idx st <= hi)).
  intros s1 s s2 Hs H1 H. unfold snapshot_step in H.
  rewrite Forall_forall in Hf. specialize (Hf s Hs).
  revert H1 H.
  apply (for_each_inv (fun st => prev_message_idx st <= hi)).
  intros s3 t s4 _ H3 H4. unfold episode_step in H4.
  step H4. step H4.
  destruct (is_str j0 "completed" && truthy j).
  2:{ now injection H4 as <-. }
  destruct (negb (hashable j)); [discriminate|].
  destruct (negb (member j (completed_todos s3)));
    injection H4 as <-; cbn; auto.
Qed.

Lemma last_opt_cons {A : Type} (x : A) (l : list A) :
  last_opt (x :: l)
  = match last_opt l with Some y => Some y | None => Some x end.
Proof. unfold last_opt. cbn [rev]. now destruct (rev l). Qed.

Lemma chained_total (a c : Z) (eps : list Episode.t) :
  chained a eps c -> Forall episode_consistent eps ->
  total_messages eps = c - a
  /\ match last_opt eps with
     | Some e => Episode.completed_at e
     | None => a
     end = c.
Proof.
  unfold total_messages.
  induction 1 as [a|a e eps c H1 H2 H3 IH]; intros Hf.
  - cbn. split; [lia|reflexivity].
  - inversion Hf as [|? ? [He1 He2] Hf']; subst.
    destruct (IH Hf') as [I1 I2]. cbn [map fold_right]. split; [lia|].
    rewrite last_opt_cons. destruct (last_opt eps); [exact I2|].
    now rewrite He1.
Qed.

(** What the segmenter gives on the snapshots of a log. *)
Lemma record_episodes (jsonl_file : string) (entries : list json)
  (r : ConvRecord.t) :
  extract_conversation_data jsonl_file entries = Ok r ->
  exists c,
    chained 0 (ConvRecord.episodes r) c
    /\ c <= ConvRecord.message_count r
    /\ Forall (fun e => episode_consistent e
                        /\ truthy (Episode.title e) = true
                        /\ hashable (Episode.title e) = true)
              (ConvRecord.episodes r)
    /\ ForallOrdPairs
         (fun e1 e2 => py_eq (Episode.title e2) (Episode.title e1) = false)
         (ConvRecord.episodes r).
Proof.
  intros H. apply extract_parts in H
    as (st & _ & _ & _ & _ & Hl & _ & Hm & _ & _ & _ & _ & Hc & _).
  pose proof (extract_loop_sorted _ _ Hl) as Hs.
  apply entries_loop_counts in Hl as (I1 & _ & _ & I4).
  specialize (I4 (Z.le_refl 0) (Forall_nil _)). cbn in I1.
  unfold calculate_episodes in Hc. step Hc. injection Hc as Hc.
  rewrite <- Hc, Hm. exists (prev_message_idx s).
  pose proof (snapshots_loop_inv (todo_snapshots st) (todo_snapshots st)
                _ s (incl_refl _) E Hs) as [Hch _].
  { split; constructor. }
  assert (Hsound : seg_sound s).
  { eapply segmenter_sound; [exact E|]. repeat split; constructor. }
  destruct Hsound as (_ & Hf & Hp).
  split; [exact Hch|]. split; [|split; assumption].
  eapply segmenter_bound; [exact E| |].
  - eapply Forall_impl; [|exact I4]. cbn. intros x Hx. lia.
  - cbn. lia.
Qed.

(** X11: every snapshot of a record is taken at a message index between
    1 and [message_count], and every episode range lies between 0 and
    [message_count]. *)
Theorem snapshots_and_episodes_within_messages (jsonl_file : string)
  (entries : list json) (r : ConvRecord.t) :
  extract_conversation_data jsonl_file entries = Ok r ->
  Forall (fun s => 1 <= Snapshot.message_index s
                   <= ConvRecord.message_count r)
         (ConvRecord.todo_snapshots r)
  /\ Forall (fun e => 0 <= fst (Episode.message_range e)
                      /\ fst (Episode.message_range e)
                         <= snd (Episode.message_range e)
                      /\ snd (Episode.message_range e)
                         <= ConvRecord.message_count r)
            (ConvRecord.episodes r).
Proof.
  intros H. split.
  - apply extract_parts in H as (st & _ & _ & _ & _ & Hl & -> & -> & _).
    apply entries_loop_counts in Hl as (_ & _ & _ & I4).
    apply I4; [reflexivity|constructor].
  - apply record_episodes in H as (c & Hch & Hc & _).
    apply chained_bounds in Hch as [_ Hb].
    eapply Forall_impl; [|exact Hb]. cbn. intros e He. lia.
Qed.

Lemma snapshots_and_episodes_within_messages_witness :
  exists r,
    extract_conversation_data sample_path log_two_episodes = Ok r
    /\ Forall (fun s => 1 <= Snapshot.message_index s
                        <= ConvRecord.message_count r)
              (ConvRecord.todo_snapshots r).
Proof.
  destruct (extract_conversation_data sample_path log_two_episodes)
    as [e|r] eqn:E; [vm_compute in E; discriminate E|].
  exists r. split; [reflexivity|].
  exact (proj1 (snapshots_and_episodes_within_messages _ _ _ E)).
Defined.

(** X12: in every episode of a record, [completed_at] is the end of the
    range and [message_count] its length; the message counts of the
    episodes add up to the index at which the last one was completed,
    which is at most the record's [message_count]. *)
Theorem episode_counts_add_up (jsonl_file : string)
  (entries : list json) (r : ConvRecord.t) :
  extract_conversation_data jsonl_file entries = Ok r ->
  Forall episode_consistent (ConvRecord.episodes r)
  /\ total_messages (ConvRecord.episodes r)
     = last_completed_at (ConvRecord.episodes r)
  /\ total_messages (ConvRecord.episodes r) <= ConvRecord.message_count r.
Proof.
  intros H. apply record_episodes in H as (c & Hch & Hc & Hf & _).
  assert (Hcons : Forall episode_consistent (ConvRecord.episodes r)).
  { eapply Forall_impl; [|exact Hf]. cbn. tauto. }
  destruct (chained_total _ _ _ Hch Hcons) as [Ht Hl].
  unfold last_completed_at. rewrite Hl, Ht.
  split; [exact Hcons|]. split; lia.
Qed.

Lemma episode_counts_add_up_witness :
  exists r,
    extract_conversation_data sample_path log_two_episodes = Ok r
    /\ total_messages (ConvRecord.episodes r)
       = last_completed_at (ConvRecord.episodes r).
Proof.
  destruct (extract_conversation_data sample_path log_two_episodes)
    as [e|r] eqn:E; [vm_compute in E; discriminate E|].
  exists r. split; [reflexivity|].
  exact (proj1 (proj2 (episode_counts_add_up _ _ _ E))).
Defined.

Lemma record_work_items (jsonl_file : string) (entries : list json)
  (r : ConvRecord.t) :
  extract_conversation_data jsonl_file entries = Ok r ->
  NoDup (ConvRecord.work_items r)
  /\ Forall is_string (ConvRecord.work_items r)
  /\ (forall x, In x (ConvRecord.work_items r)
                <-> In x (work_item_sources r)).
Proof.
  intros H. apply extract_parts in H
    as (st & _ & _ & wt & _ & _ & _ & _ & _ & _ & _ & _ & _ & Hset & Hj & _).
  apply set_of_spec in Hset as (Hn & Hin & Hcov).
  apply join_json_strings in Hj.
  split; [exact Hn|]. split; [exact Hj|].
  intros x. split; [apply Hin|]. intros Hx.
  destruct (Hcov x Hx) as (y & Hy & E).
  rewrite Forall_forall in Hj. destruct (Hj y Hy) as [s ->].
  apply py_eq_string in E. now subst x.
Qed.

(** X13: no two episodes of a record have the same title, every title is
    a non-empty string, and every title is among the record's work
    items. *)
Theorem episode_titles_distinct (jsonl_file : string)
  (entries : list json) (r : ConvRecord.t) :
  extract_conversation_data jsonl_file entries = Ok r ->
  NoDup (map Episode.title (ConvRecord.episodes r))
  /\ Forall (fun e => exists s, Episode.title e = JStr s /\ s <> ""
                      /\ In (JStr s) (ConvRecord.work_items r))
            (ConvRecord.episodes r).
Proof.
  intros H. pose proof (record_work_items _ _ _ H) as (_ & Hstr & Hiff).
  apply record_episodes in H as (c & _ & _ & Hf & Hp).
  assert (Hs : Forall (fun e => exists s, Episode.title e = JStr s /\ s <> ""
                      /\ In (JStr s) (ConvRecord.work_items r))
            (ConvRecord.episodes r)).
  { apply Forall_forall. intros e He.
    rewrite Forall_forall in Hf. destruct (Hf e He) as (_ & Ht & _).
    assert (Hin : In (Episode.title e) (ConvRecord.work_items r)).
    { apply Hiff. unfold work_item_sources. rewrite !in_app_iff.
      right. right. right. apply filter_In. split; [|exact Ht].
      now apply in_map. }
    rewrite Forall_forall in Hstr. destruct (Hstr _ Hin) as [s Hs].
    exists s. rewrite Hs in *. repeat split; auto.
    intros ->. discriminate Ht. }
  split; [|exact Hs].
  clear Hf Hiff Hstr. induction Hp as [|e eps He Hp IH]; [constructor|].
  inversion Hs as [|? ? (s & Hes & _) Hs']; subst.
  cbn [map]. constructor; [|now apply IH].
  intros Hin. apply in_map_iff in Hin as (e' & Heq & He').
  rewrite Forall_forall in He. specialize (He e' He').
  rewrite Heq, Hes in He. cbn in He. now rewrite String.eqb_refl in He.
Qed.

Lemma episode_titles_distinct_witness :
  exists r,
    extract_conversation_data sample_path log_two_episodes = Ok r
    /\ NoDup (map Episode.title (ConvRecord.episodes r)).
Proof.
  destruct (extract_conversation_data sample_path log_two_episodes)
    as [e|r] eqn:E; [vm_compute in E; discriminate E|].
  exists r. split; [reflexivity|].
  exact (proj1 (episode_titles_distinct _ _ _ E)).
Defined.

(** X14: [work_items] holds every content of the final todos and every
    episode title, and nothing else, each once; all of them are
    strings. *)
Theorem work_items_union_without_repeats (jsonl_file : string)
  (entries : list json) (r : ConvRecord.t) :
  extract_conversation_data jsonl_file entries = Ok r ->
  NoDup (ConvRecord.work_items r)
  /\ Forall is_string (ConvRecord.work_items r)
  /\ (forall x,
        In x (ConvRecord.work_items r)
        <-> In x (FinalTodos.completed (ConvRecord.final_todos r))
            \/ In x (FinalTodos.in_progress (ConvRecord.final_todos r))
            \/ In x (FinalTodos.pending (ConvRecord.final_todos r))
            \/ exists e, In e (ConvRecord.episodes r)
                         /\ Episode.title e = x).
Proof.
  intros H. pose proof (record_work_items _ _ _ H) as (Hn & Hstr & Hiff).
  apply record_episodes in H as (c & _ & _ & Hf & _).
  split; [exact Hn|]. split; [exact Hstr|].
  intros x. rewrite Hiff. unfold work_item_sources.
  rewrite !in_app_iff, filter_In, in_map_iff.
  rewrite Forall_forall in Hf.
  split.
  - intros [?|[?|[?|[(e & He & Hin) _]]]]; eauto 6.
  - intros [?|[?|[?|(e & Hin & He)]]]; auto.
    right. right. right. split; [eauto|].
    subst x. apply (Hf e Hin).
Qed.

Lemma work_items_union_without_repeats_witness :
  exists r,
    extract_conversation_data sample_path log_two_episodes = Ok r
    /\ NoDup (ConvRecord.work_items r).
Proof.
  destruct (extract_conversation_data sample_path log_two_episodes)
    as [e|r] eqn:E; [vm_compute in E; discriminate E|].
  exists r. split; [reflexivity|].
  exact (proj1 (work_items_union_without_repeats _ _ _ E)).
Defined.

Lemma no_source_no_snapshot (entries : list json) (st0 st : loop_state) :
  for_each entry_step entries st0 = Ok st ->
  Forall no_todo_source entries ->
  todo_snapshots st = todo_snapshots st0.
Proof.
  revert st0. induction entries as [|entry entries IH]; intros st0 H Hf.
  - now injection H as <-.
  - cbn [for_each] in H. step H. inversion Hf as [|? ? [Ha Ht] Hf']; subst.
    rewrite (IH _ H Hf').
    apply entry_step_parts in E as (_ & _ & _ & extra & -> & _ & Hwhy).
    destruct extra as [|x extra]; [apply app_nil_r|].
    destruct Hwhy as [Hw|[_ Hw]]; [discriminate|congruence|congruence].
Qed.

(** X15: a log without assistant entries and without todos on its user
    entries gives a record with no snapshots, no episodes, empty final
    todos and no work items. *)
Theorem no_todo_source_no_work (jsonl_file : string)
  (entries : list json) (r : ConvRecord.t) :
  Forall no_todo_source entries ->
  extract_conversation_data jsonl_file entries = Ok r ->
  ConvRecord.todo_snapshots r = []
  /\ ConvRecord.episodes r = []
  /\ ConvRecord.final_todos r = FinalTodos.empty
  /\ ConvRecord.work_items r = [].
Proof.
  intros Hf H. pose proof (record_work_items _ _ _ H) as (_ & _ & Hiff).
  apply extract_parts in H
    as (st & _ & _ & _ & _ & Hl & Hs & _ & _ & _ & _ & Hft & Hep & _).
  apply no_source_no_snapshot in Hl; [|exact Hf]. cbn in Hl.
  rewrite Hl in *. cbn in Hft, Hep.
  injection Hft as Hft. injection Hep as Hep.
  split; [exact Hs|]. split; [now symmetry|]. split; [now symmetry|].
  destruct (ConvRecord.work_items r) as [|x l] eqn:W; [reflexivity|].
  exfalso. pose proof (proj1 (Hiff x) (or_introl eq_refl)) as Hx.
  unfold work_item_sources in Hx. rewrite <- Hft, <- Hep in Hx.
  exact Hx.
Qed.

Lemma no_todo_source_no_work_witness :
  exists r,
    extract_conversation_data sample_path plain_log = Ok r
    /\ ConvRecord.work_items r = [].
Proof.
  destruct (extract_conversation_data sample_path plain_log)
    as [e|r] eqn:E; [vm_compute in E; discriminate E|].
  exists r. split; [reflexivity|].
  refine (proj2 (proj2 (proj2 (no_todo_source_no_work _ _ r _ E)))).
  repeat constructor.
Defined.

End EpisodeFacts.

(* ===================================================================== *)
(** * Text extraction *)
(* ===================================================================== *)

Module TextFacts.
Import PyStr Py Extraction Notions MoreNotions PyFacts LoopLaws StringFacts.

Lemma disclaimer_is_noise (text : string) :
  startswith text caveat = true ->
  String.eqb text "" = false /\ is_local_command_noise text = true.
Proof.
  intros H. unfold is_local_command_noise.
  destruct text as [|a text]; [discriminate H|]. cbn [String.eqb].
  now rewrite H.
Qed.

Lemma user_text_step_disclaimer (text_parts : list json) (entry : json) :
  is_disclaimer entry ->
  user_text_step text_parts entry = Ok text_parts
  /\ full_text_step text_parts entry = Ok text_parts.
Proof.
  intros (d & m & c & text & -> & Hty & Hm & Hc & Ht & Hs).
  apply disclaimer_is_noise in Hs as [Hne Hn].
  unfold user_text_step, full_text_step.
  cbn [get get_default bind]. rewrite Hty, Hm.
  assert (Htr : truthy (JObj m) = true)
    by (destruct m; [discriminate Hc|reflexivity]).
  rewrite Htr, is_str_refl. cbn [andb get_default bind]. rewrite Hc, Ht.
  cbn [bind]. rewrite Hne, Hn. cbn [negb andb]. auto.
Qed.

Lemma for_each_skip {A S : Type} (body : S -> A -> res S) (x : A)
  (pre post : list A) (s0 : S) :
  (forall s, body s x = Ok s) ->
  for_each body (pre ++ x :: post) s0 = for_each body (pre ++ post) s0.
Proof.
  intros H. rewrite !for_each_app.
  destruct (for_each body pre s0) as [e|s1]; cbn [bind]; [reflexivity|].
  cbn [for_each]. now rewrite H.
Qed.

(** X16: a user entry whose text opens with the disclaimer about local
    commands adds nothing to the extracted text: with or without it,
    wherever it stands in the log, [extract_full_text] and
    [extract_user_text] give the same. *)
Theorem disclaimer_leaves_text_unchanged (pre post : list json)
  (entry : json) :
  is_disclaimer entry ->
  extract_full_text (pre ++ entry :: post) = extract_full_text (pre ++ post)
  /\ extract_user_text (pre ++ entry :: post)
     = extract_user_text (pre ++ post).
Proof.
  intros H. unfold extract_full_text, extract_user_text.
  rewrite !(for_each_skip _ entry).
  - split; reflexivity.
  - intros s. now apply user_text_step_disclaimer.
  - intros s. now apply user_text_step_disclaimer.
Qed.

Lemma disclaimer_leaves_text_unchanged_witness :
  extract_full_text
    ([user_entry "hello"] ++ user_entry caveat_text :: [user_entry "bye"])
  = extract_full_text ([user_entry "hello"] ++ [user_entry "bye"]).
Proof.
  refine (proj1 (disclaimer_leaves_text_unchanged _ _ _ _)).
  exists [ ("type", JStr "user");
           ("timestamp", JStr "2025-01-01T00:00:00Z");
           ("sessionId", JStr "abc");
           ("message", JObj [("content", JStr caveat_text)]) ],
         [("content", JStr caveat_text)], (JStr caveat_text), caveat_text.
  repeat split; reflexivity.
Defined.

Lemma take_while_all (p : ascii -> bool) (s : string) :
  Forall (fun ch => p ch = true) (chars (take_while p s)).
Proof.
  induction s as [|a s IH]; cbn [take_while]; [constructor|].
  destruct (p a) eqn:E; [|constructor].
  cbn. constructor; [exact E|exact IH].
Qed.

Lemma search_command_name_sound (content name : string) :
  search_command_name content = Some name -> no_markup name.
Proof.
  induction content as [|a content IH].
  - cbn. discriminate.
  - cbn [search_command_name].
    destruct (String.prefix "<command-name>" (String a content)).
    + match goal with
      | |- context [take_while ?p ?s] => set (nm := take_while p s);
          pose proof (take_while_all p s) as Hall; fold nm in Hall
      end.
      destruct (negb (String.eqb nm "")
                && String.prefix "</command-name>" _).
      * intros [= <-]. unfold no_markup.
        eapply Forall_impl; [|exact Hall]. cbn. intros ch Hch ->.
        discriminate Hch.
      * exact IH.
    + exact IH.
Qed.

Lemma no_markup_no_tag (tag s : string) :
  no_markup s -> contains (String "<" tag) s = false.
Proof.
  unfold no_markup. induction s as [|a s IH]; intros H.
  - reflexivity.
  - cbn in H. inversion H as [|? ? Ha Hs]; subst.
    cbn [contains String.prefix].
    destruct (ascii_dec "<" a) as [E|_]; [congruence|].
    now apply IH.
Qed.

Lemma clean_markup_free (content : string) :
  no_markup content -> clean_local_command content = content.
Proof.
  intros H. unfold clean_local_command.
  now rewrite !no_markup_no_tag.
Qed.

Lemma no_markup_bracket (name : string) :
  no_markup name -> no_markup ("[" ++ name ++ "]")%string.
Proof.
  unfold no_markup. intros H. cbn. constructor; [discriminate|].
  rewrite chars_app. apply Forall_app. split; [exact H|].
  cbn. constructor; [discriminate|constructor].
Qed.

(** X17: [clean_local_command] returns its input or a text in square
    brackets that holds no ["<"]; a text without ["<"] is returned as it
    is; and cleaning a cleaned text changes nothing. *)
Theorem clean_local_command_idempotent (content : string) :
  (clean_local_command content = content
   \/ exists name,
        clean_local_command content = ("[" ++ name ++ "]")%string
        /\ no_markup name)
  /\ (no_markup content -> clean_local_command content = content)
  /\ clean_local_command (clean_local_command content)
     = clean_local_command content.
Proof.
  assert (Hshape :
    clean_local_command content = content
    \/ exists name,
         clean_local_command content = ("[" ++ name ++ "]")%string
         /\ no_markup name).
  { unfold clean_local_command.
    destruct (if contains "<command-name>" content
              then search_command_name content else None) as [name|] eqn:E.
    - right. exists name. split; [reflexivity|].
      destruct (contains "<command-name>" content); [|discriminate E].
      eapply search_command_name_sound; eauto.
    - destruct (contains "<local-command-stdout>" content).
      + right. exists "command output". split; [reflexivity|].
        unfold no_markup. cbn. repeat constructor; discriminate.
      + now left. }
  split; [exact Hshape|]. split; [apply clean_markup_free|].
  destruct Hshape as [H|(name & -> & Hn)]; [now rewrite !H|].
  apply clean_markup_free. now apply no_markup_bracket.
Qed.

Lemma clean_local_command_idempotent_witness :
  clean_local_command "fix the bug" = "fix the bug".
Proof.
  apply (proj1 (proj2 (clean_local_command_idempotent "fix the bug"))).
  unfold no_markup. cbn. repeat constructor; discriminate.
Defined.

End TextFacts.

(* ===================================================================== *)
(** * Activity signals *)
(* ===================================================================== *)

Module SignalFacts.
Import PyStr Py StemText Extraction Notions MoreNotions PyFacts LoopLaws.
Import StemmerFacts StringFacts StemTextFacts SetFacts TextFacts RecordFacts.

Lemma take_while_fixed (p : ascii -> bool) (s : string) :
  Forall (fun ch => p ch = true) (chars s) -> take_while p s = s.
Proof.
  induction s as [|a s IH]; intros H; [reflexivity|].
  cbn in H. inversion H as [|? ? Ha Hs]; subst.
  cbn [take_while]. rewrite Ha. f_equal. now apply IH.
Qed.

Lemma basename_idempotent (p : string) : basename (basename p) = basename p.
Proof.
  unfold basename.
  set (t := take_while (fun c => negb (Ascii.eqb c "/")) (str (rev (chars p)))).
  rewrite chars_str, rev_involutive, str_chars.
  rewrite take_while_fixed; [reflexivity|]. apply take_while_all.
Qed.

(** What one content item does to the three sets. *)
Lemma signal_item_effect (sg sg' : signals) (item : json) :
  signal_item sg item = Ok sg' ->
  (sig_files_touched sg' = sig_files_touched sg
   \/ exists fp,
        sig_files_touched sg'
        = set_add fp (set_add (basename fp) (sig_files_touched sg)))
  /\ (sig_commands_run sg' = sig_commands_run sg
      \/ exists cmd,
           cmd <> ""
           /\ sig_commands_run sg'
              = set_add (take 100 cmd)
                  (if String.eqb (first_token cmd) ""
                   then sig_commands_run sg
                   else set_add (first_token cmd) (sig_commands_run sg)))
  /\ (sig_urls_fetched sg' = sig_urls_fetched sg
      \/ exists url,
           hashable url = true
           /\ member url (sig_urls_fetched sg) = false
           /\ sig_urls_fetched sg' = sig_urls_fetched sg ++ [url]).
Proof.
  unfold signal_item. intros H.
  destruct (negb (is_dict item)); [injection H as <-; auto|].
  step H. destruct (negb (is_str j "tool_use")); [injection H as <-; auto|].
  do 4 step H.
  assert (H1 :
    sig_commands_run s = sig_commands_run sg
    /\ sig_urls_fetched s = sig_urls_fetched sg
    /\ (sig_files_touched s = sig_files_touched sg
        \/ exists fp,
             sig_files_touched s
             = set_add fp (set_add (basename fp) (sig_files_touched sg)))).
  { destruct (is_str j0 "Read" || is_str j0 "Write" || is_str j0 "Edit").
    2:{ injection E2 as <-; auto. }
    step E2. destruct (truthy j2); [|injection E2 as <-; auto].
    step E2. injection E2 as <-. cbn. eauto. }
  destruct H1 as (Hc1 & Hu1 & Hf1).
  assert (H2 :
    sig_files_touched s0 = sig_files_touched s
    /\ sig_urls_fetched s0 = sig_urls_fetched s
    /\ (sig_commands_run s0 = sig_commands_run s
        \/ exists cmd,
             cmd <> ""
             /\ sig_commands_run s0
                = set_add (take 100 cmd)
                    (if String.eqb (first_token cmd) ""
                     then sig_commands_run s
                     else set_add (first_token cmd) (sig_commands_run s)))).
  { destruct (is_str j0 "Bash"); [|injection E3 as <-; auto].
    step E3. destruct (truthy j2) eqn:T; [|injection E3 as <-; auto].
    destruct j2 as [| | |cmd| |]; try discriminate E3.
    injection E3 as <-. cbn. repeat split. right. exists cmd.
    split; [|reflexivity]. intros ->. discriminate T. }
  destruct H2 as (Hf2 & Hu2 & Hc2).
  rewrite Hc1 in Hc2. rewrite Hu1 in Hu2.
  destruct (is_str j0 "WebFetch").
  2:{ injection H as <-. rewrite Hf2, Hu2. auto. }
  step H. destruct (truthy j2).
  2:{ injection H as <-. rewrite Hf2, Hu2. auto. }
  destruct (hashable j2) eqn:Hh; cbn [negb] in H; [|discriminate].
  injection H as <-. cbn. rewrite Hf2, Hu2.
  split; [exact Hf1|]. split; [exact Hc2|].
  destruct (member j2 (sig_urls_fetched sg)) eqn:M; [now left|].
  right. exists j2. auto.
Qed.

Lemma signal_item_tidy (sg sg' : signals) (item : json) :
  signal_item sg item = Ok sg' ->
  signals_tidy (sig_files_touched sg) (sig_commands_run sg)
               (sig_urls_fetched sg) ->
  signals_tidy (sig_files_touched sg') (sig_commands_run sg')
               (sig_urls_fetched sg').
Proof.
  intros H (Hf & Hc & Hu & Hb & Hn).
  apply signal_item_effect in H as (Ef & Ec & Eu).
  unfold signals_tidy, set_add in *. repeat split.
  - destruct Ef as [->|(fp & ->)]; [exact Hf|].
    now do 2 apply add_once_nodup.
  - destruct Ec as [->|(cmd & _ & ->)]; [exact Hc|].
    apply add_once_nodup.
    destruct (String.eqb (first_token cmd) ""); [exact Hc|].
    now apply add_once_nodup.
  - destruct Eu as [->|(url & Hh & M & ->)]; [exact Hu|].
    apply NoDup_app; [exact Hu|repeat constructor; intros []|].
    intros x Hx [Ex|[]]. rewrite <- Ex in Hx.
    pose proof (member_false_in _ _ M url Hx) as Hneq.
    rewrite py_eq_refl in Hneq; [discriminate|exact Hh].
  - destruct Ef as [->|(fp & ->)]; [exact Hb|].
    intros p. rewrite !add_once_in.
    intros [->|[->|Hp]].
    + right. now left.
    + right. left. apply basename_idempotent.
    + right. right. now apply Hb.
  - destruct Ec as [->|(cmd & Hne & ->)]; [exact Hn|].
    apply Forall_forall. intros c. rewrite add_once_in.
    rewrite Forall_forall in Hn.
    intros [->|Hin].
    + intros Ht. apply Hne. apply (f_equal len) in Ht.
      rewrite len_take in Ht. cbn in Ht.
      destruct cmd; [reflexivity|]. cbn in Ht. lia.
    + destruct (String.eqb (first_token cmd) "") eqn:Et; [now apply Hn|].
      apply add_once_in in Hin as [->|Hin]; [|now apply Hn].
      now apply String.eqb_neq.
Qed.

Lemma signal_entry_items (sg sg' : signals) (entry : json) :
  signal_entry sg entry = Ok sg' ->
  sg' = sg \/ exists items, for_each signal_item items sg = Ok sg'.
Proof.
  unfold signal_entry. intros H. do 2 step H.
  destruct (negb (is_str j "assistant") || negb (truthy j0));
    [left; now injection H as <-|].
  do 2 step H. right. now exists l.
Qed.

Lemma signals_loop_tidy (entries : list json) (sg : signals) :
  extract_activity_signals entries = Ok sg ->
  signals_tidy (sig_files_touched sg) (sig_commands_run sg)
               (sig_urls_fetched sg).
Proof.
  unfold extract_activity_signals.
  apply (for_each_inv
           (fun sg => signals_tidy (sig_files_touched sg)
                        (sig_commands_run sg) (sig_urls_fetched sg))).
  - intros s1 entry s2 _ H1 H.
    apply signal_entry_items in H as [->|(items & H)]; [exact H1|].
    revert H1 H.
    apply (for_each_inv
             (fun sg => signals_tidy (sig_files_touched sg)
                          (sig_commands_run sg) (sig_urls_fetched sg))).
    intros s3 item s4 _ H3 H4. eapply signal_item_tidy; eauto.
  - cbn. repeat split; try constructor. intros p [].
Qed.

(** X18: the three activity lists of a record hold nothing twice; with
    every file touched its base name is listed too; and no command
    listed is empty. *)
Theorem activity_lists_tidy (jsonl_file : string) (entries : list json)
  (r : ConvRecord.t) :
  extract_conversation_data jsonl_file entries = Ok r ->
  NoDup (ConvRecord.files_touched r)
  /\ NoDup (ConvRecord.commands_run r)
  /\ NoDup (ConvRecord.urls_fetched r)
  /\ (forall p, In p (ConvRecord.files_touched r) ->
                In (basename p) (ConvRecord.files_touched r))
  /\ Forall (fun c => c <> "") (ConvRecord.commands_run r).
Proof.
  intros H. apply extract_parts in H
    as (st & sg & _ & _ & _ & _ & _ & _ & _ & _ & _ & _ & _ & _ & _
        & Hs & -> & -> & -> & _).
  exact (signals_loop_tidy _ _ Hs).
Qed.

Lemma activity_lists_tidy_witness :
  exists r,
    extract_conversation_data sample_path log_with_tools = Ok r
    /\ NoDup (ConvRecord.files_touched r)
    /\ In "main.py" (ConvRecord.files_touched r).
Proof.
  destruct (extract_conversation_data sample_path log_with_tools)
    as [e|r] eqn:E; [vm_compute in E; discriminate E|].
  exists r. split; [reflexivity|].
  destruct (activity_lists_tidy _ _ _ E) as (Hn & _ & _ & Hb & _).
  split; [exact Hn|].
  apply (Hb "/src/app/main.py").
  vm_compute in E. injection E as <-. cbn. auto.
Defined.

(** A property every round keeps, once a round at [x] has set it up,
    holds after the loop. *)
Lemma for_each_reaches {A S : Type} (Q : S -> Prop) (body : S -> A -> res S)
  (xs : list A) (x : A) (s0 s : S) :
  (forall s1 y s2, body s1 y = Ok s2 -> Q s1 -> Q s2) ->
  (forall s1 s2, body s1 x = Ok s2 -> Q s2) ->
  In x xs -> for_each body xs s0 = Ok s -> Q s.
Proof.
  intros Hkeep Hset Hin H. apply in_split in Hin as (pre & post & ->).
  rewrite for_each_app in H. step H. cbn [for_each] in H. step H.
  revert H. apply for_each_inv.
  - intros s3 y s4 _ H3 H4. eapply Hkeep; eauto.
  - eapply Hset; eauto.
Qed.

Lemma signal_item_grows (sg sg' : signals) (item : json) :
  signal_item sg item = Ok sg' ->
  incl (sig_files_touched sg) (sig_files_touched sg')
  /\ incl (sig_commands_run sg) (sig_commands_run sg')
  /\ incl (sig_urls_fetched sg) (sig_urls_fetched sg').
Proof.
  intros H. apply signal_item_effect in H as (Ef & Ec & Eu).
  unfold set_add in *. split; [|split]; intros x Hx.
  - destruct Ef as [->|(fp & ->)]; [exact Hx|].
    rewrite !add_once_in. auto.
  - destruct Ec as [->|(cmd & _ & ->)]; [exact Hx|].
    rewrite add_once_in. right.
    destruct (String.eqb (first_token cmd) ""); [exact Hx|].
    rewrite add_once_in. auto.
  - destruct Eu as [->|(url & _ & _ & ->)]; [exact Hx|].
    apply in_or_app. auto.
Qed.

Lemma signal_item_hit (sg sg' : signals) (item : json) (name : string)
  (input : dict) :
  is_tool_use name item (JObj input) ->
  signal_item sg item = Ok sg' ->
  (forall p, In name ["Read"; "Write"; "Edit"] ->
     lookup "file_path" input = Some (JStr p) -> p <> "" ->
     In p (sig_files_touched sg') /\ In (basename p) (sig_files_touched sg'))
  /\ (forall cmd, name = "Bash" ->
        lookup "command" input = Some (JStr cmd) -> cmd <> "" ->
        In (take 100 cmd) (sig_commands_run sg')
        /\ (first_token cmd <> "" ->
            In (first_token cmd) (sig_commands_run sg')))
  /\ (forall u, name = "WebFetch" ->
        lookup "url" input = Some (JStr u) -> u <> "" ->
        In (JStr u) (sig_urls_fetched sg')).
Proof.
  intros (d & -> & Hty & Hname & Hin) H.
  unfold signal_item in H. cbn [is_dict negb get get_default bind] in H.
  rewrite Hty, Hname, Hin in H. rewrite is_str_refl in H. cbn [negb] in H.
  split; [|split].
  - intros p Hn Hp Hne. apply String.eqb_neq in Hne.
    assert (Hrwe : is_str (JStr name) "Read" || is_str (JStr name) "Write"
                   || is_str (JStr name) "Edit" = true).
    { destruct Hn as [<-|[<-|[<-|[]]]]; reflexivity. }
    assert (Hb : is_str (JStr name) "Bash" = false).
    { destruct Hn as [<-|[<-|[<-|[]]]]; reflexivity. }
    assert (Hw : is_str (JStr name) "WebFetch" = false).
    { destruct Hn as [<-|[<-|[<-|[]]]]; reflexivity. }
    rewrite Hrwe, Hb, Hw in H. cbn [get_default bind] in H.
    rewrite Hp in H. cbn [truthy] in H. rewrite Hne in H.
    cbn [negb as_str bind] in H. injection H as <-.
    cbn [sig_files_touched]. unfold set_add. rewrite !add_once_in. auto.
  - intros cmd -> Hc Hne. apply String.eqb_neq in Hne.
    change (is_str (JStr "Bash") "Read" || is_str (JStr "Bash") "Write"
            || is_str (JStr "Bash") "Edit") with false in H.
    change (is_str (JStr "Bash") "Bash") with true in H.
    change (is_str (JStr "Bash") "WebFetch") with false in H.
    cbn [get_default bind] in H. rewrite Hc in H. cbn [truthy] in H.
    rewrite Hne in H. cbn [negb bind] in H. injection H as <-.
    cbn [sig_commands_run]. unfold set_add. rewrite add_once_in.
    split; [now left|]. intros Ht. apply String.eqb_neq in Ht.
    rewrite Ht, !add_once_in. auto.
  - intros u -> Hu Hne. apply String.eqb_neq in Hne.
    change (is_str (JStr "WebFetch") "Read"
            || is_str (JStr "WebFetch") "Write"
            || is_str (JStr "WebFetch") "Edit") with false in H.
    change (is_str (JStr "WebFetch") "Bash") with false in H.
    change (is_str (JStr "WebFetch") "WebFetch") with true in H.
    cbn [get_default bind] in H. rewrite Hu in H.
    cbn [truthy hashable] in H.
    rewrite Hne in H. cbn [negb] in H. injection H as <-.
    cbn [sig_urls_fetched].
    destruct (member (JStr u) (sig_urls_fetched sg)) eqn:M.
    + apply member_true_in in M as (y & Hy & E).
      destruct y; try discriminate E. cbn in E.
      apply String.eqb_eq in E. now subst.
    + apply in_or_app. right. now left.
Qed.

(** X19: what a tool use of the assistant leaves in the record: the
    path of a Read, Write or Edit and its base name are among
    [files_touched], the first 100 characters of a Bash command and its
    first word are among [commands_run], and the url of a WebFetch is
    among [urls_fetched]. *)
Theorem tool_uses_recorded (jsonl_file : string) (entries : list json)
  (r : ConvRecord.t) (entry : json) (name : string) (input : dict) :
  extract_conversation_data jsonl_file entries = Ok r ->
  In entry entries -> uses_tool entry name input ->
  (forall p, In name ["Read"; "Write"; "Edit"] ->
     lookup "file_path" input = Some (JStr p) -> p <> "" ->
     In p (ConvRecord.files_touched r)
     /\ In (basename p) (ConvRecord.files_touched r))
  /\ (forall cmd, name = "Bash" ->
        lookup "command" input = Some (JStr cmd) -> cmd <> "" ->
        In (take 100 cmd) (ConvRecord.commands_run r)
        /\ (first_token cmd <> "" ->
            In (first_token cmd) (ConvRecord.commands_run r)))
  /\ (forall u, name = "WebFetch" ->
        lookup "url" input = Some (JStr u) -> u <> "" ->
        In (JStr u) (ConvRecord.urls_fetched r)).
Proof.
  intros H Hin (d & m & items & item & -> & Hty & Hm & Hc & Hitem & Htool).
  apply extract_parts in H
    as (st & sg & _ & _ & _ & _ & _ & _ & _ & _ & _ & _ & _ & _ & _
        & Hs & -> & -> & -> & _).
  unfold extract_activity_signals in Hs.
  set (Q := fun sg' : signals =>
    (forall p, In name ["Read"; "Write"; "Edit"] ->
       lookup "file_path" input = Some (JStr p) -> p <> "" ->
       In p (sig_files_touched sg')
       /\ In (basename p) (sig_files_touched sg'))
    /\ (forall cmd, name = "Bash" ->
          lookup "command" input = Some (JStr cmd) -> cmd <> "" ->
          In (take 100 cmd) (sig_commands_run sg')
          /\ (first_token cmd <> "" ->
              In (first_token cmd) (sig_commands_run sg')))
    /\ (forall u, name = "WebFetch" ->
          lookup "url" input = Some (JStr u) -> u <> "" ->
          In (JStr u) (sig_urls_fetched sg'))).
  change (Q sg).
  assert (Hkeep : forall s1 y s2, signal_item s1 y = Ok s2 -> Q s1 -> Q s2).
  { intros s1 y s2 Hy (Q1 & Q2 & Q3).
    apply signal_item_grows in Hy as (If & Ic & Iu).
    split; [|split].
    - intros p Hn Hp Hne. destruct (Q1 p Hn Hp Hne). split; now apply If.
    - intros cmd Hn Hp Hne. destruct (Q2 cmd Hn Hp Hne) as [A B].
      split; [now apply Ic|]. intros Ht. apply Ic. now apply B.
    - intros u Hn Hp Hne. apply Iu. now apply Q3. }
  revert Hs. apply (for_each_reaches Q signal_entry entries (JObj d)).
  - intros s1 y s2 Hy Hq.
    apply signal_entry_items in Hy as [->|(its & Hy)]; [exact Hq|].
    revert Hq Hy. apply for_each_inv.
    intros s3 z s4 _ Hq3 Hz. eapply Hkeep; eauto.
  - intros s1 s2 Hy. unfold signal_entry in Hy.
    cbn [get get_default bind] in Hy. rewrite Hty, Hm in Hy.
    assert (Htr : truthy (JObj m) = true)
      by (destruct m; [discriminate Hc|reflexivity]).
    rewrite Htr, is_str_refl in Hy. cbn [negb orb get_default bind] in Hy.
    rewrite Hc in Hy. cbn [iter bind] in Hy.
    revert Hy. apply (for_each_reaches Q signal_item items item).
    + exact Hkeep.
    + intros s3 s4 Hz. eapply signal_item_hit; eauto.
    + exact Hitem.
  - exact Hin.
Qed.

Lemma tool_uses_recorded_witness :
  exists r,
    extract_conversation_data sample_path log_with_tools = Ok r
    /\ In "/src/app/main.py" (ConvRecord.files_touched r)
    /\ In "main.py" (ConvRecord.files_touched r).
Proof.
  destruct (extract_conversation_data sample_path log_with_tools)
    as [e|r] eqn:E; [vm_compute in E; discriminate E|].
  exists r. split; [reflexivity|].
  refine (proj1 (tool_uses_recorded sample_path log_with_tools r
                   (assistant_entry
                      [ tool_use "Read"
                          (JObj [("file_path", JStr "/src/app/main.py")]);
                        tool_use "Bash"
                          (JObj [("command", JStr "git status")]) ])
                   "Read" [("file_path", JStr "/src/app/main.py")]
                   E _ _) "/src/app/main.py" _ _ _).
  - right. now left.
  - eexists _, _, _, _. split; [reflexivity|].
    split; [reflexivity|]. split; [reflexivity|]. split; [reflexivity|].
    split; [now left|]. eexists. split; [reflexivity|].
    repeat split; reflexivity.
  - now left.
  - reflexivity.
  - discriminate.
Defined.

End SignalFacts.

(* ===================================================================== *)
(** * Paths, projects and session ids *)
(* ===================================================================== *)

Module PathFacts.
Import PyStr Py Extraction Cache Notions MoreNotions PyFacts LoopLaws.
Import StemmerFacts StringFacts RecordFacts.

Lemma str_app (l1 l2 : list ascii) : str (l1 ++ l2) = (str l1 ++ str l2)%string.
Proof.
  induction l1 as [|a l1 IH]; cbn; [reflexivity|]. f_equal. exact IH.
Qed.

Lemma take_while_app (p : ascii -> bool) (l1 l2 : list ascii) :
  Forall (fun ch => p ch = true) l1 ->
  (l2 = [] \/ exists c l2', l2 = c :: l2' /\ p c = false) ->
  take_while p (str (l1 ++ l2)) = str l1.
Proof.
  intros H1 H2. induction H1 as [|a l1 Ha Hl IH]; cbn [app].
  - destruct H2 as [->|(c & l2' & -> & Hc)]; [reflexivity|].
    cbn. now rewrite Hc.
  - cbn. rewrite Ha. f_equal. exact IH.
Qed.

Lemma drop_while_app (p : ascii -> bool) (l1 l2 : list ascii) :
  Forall (fun ch => p ch = true) l1 ->
  drop_while p (l1 ++ l2) = drop_while p l2.
Proof.
  induction 1 as [|a l1 Ha Hl IH]; cbn [app drop_while]; [reflexivity|].
  now rewrite Ha.
Qed.

Lemma free_of_test (s : string) :
  free_of "/" s ->
  Forall (fun ch => negb (Ascii.eqb ch "/") = true) (rev (chars s)).
Proof.
  intros H. apply Forall_rev. eapply Forall_impl; [|exact H].
  cbn. intros ch Hch. apply negb_true_iff. now apply Ascii.eqb_neq.
Qed.

Lemma dir_prefix_rev (prefix : string) :
  dir_prefix prefix ->
  rev (chars prefix) = []
  \/ exists c l, rev (chars prefix) = c :: l
                 /\ negb (Ascii.eqb c "/") = false.
Proof.
  intros [->|(pre & ->)]; [now left|right].
  rewrite chars_app, rev_app_distr. cbn. eauto.
Qed.

Lemma basename_of_path (prefix name : string) :
  dir_prefix prefix -> free_of "/" name ->
  basename (prefix ++ name) = name.
Proof.
  intros Hp Hn. unfold basename.
  rewrite chars_app, rev_app_distr.
  rewrite take_while_app.
  - now rewrite chars_str, rev_involutive, str_chars.
  - now apply free_of_test.
  - now apply dir_prefix_rev.
Qed.

Lemma drop_while_stop (p : ascii -> bool) (c : ascii) (l : list ascii) :
  p c = false -> drop_while p (c :: l) = c :: l.
Proof. intros H. cbn [drop_while]. now rewrite H. Qed.

Lemma drop_while_go (p : ascii -> bool) (c : ascii) (l : list ascii) :
  p c = true -> drop_while p (c :: l) = drop_while p l.
Proof. intros H. cbn [drop_while]. now rewrite H. Qed.

Lemma dirname_of_path (prefix name file : string) :
  name <> "" -> free_of "/" name -> free_of "/" file ->
  dirname (prefix ++ name ++ "/" ++ file) = (prefix ++ name)%string.
Proof.
  intros Hne Hn Hf. unfold dirname.
  assert (R : rev (chars (prefix ++ name ++ "/" ++ file))
              = rev (chars file)
                ++ "/"%char :: (rev (chars name) ++ rev (chars prefix))).
  { rewrite !chars_app, !rev_app_distr.
    change (rev (chars "/")) with ["/"%char]. now rewrite <- !app_assoc. }
  rewrite R. clear R.
  rewrite drop_while_app by now apply free_of_test.
  remember (rev (chars name) ++ rev (chars prefix)) as X eqn:EX.
  assert (HX : exists c l, X = c :: l /\ Ascii.eqb c "/" = false).
  { destruct (rev (chars name)) as [|c l] eqn:E.
    - apply (f_equal (@List.length ascii)) in E. rewrite length_rev in E.
      destruct name; [congruence|discriminate E].
    - exists c, (l ++ rev (chars prefix)). split; [exact EX|].
      apply free_of_test in Hn. rewrite E in Hn.
      inversion Hn as [|? ? Hc _]; subst. now apply negb_true_iff. }
  rewrite drop_while_stop by reflexivity.
  rewrite drop_while_go by reflexivity.
  destruct HX as (c & l & HX & Hc). rewrite HX.
  rewrite drop_while_stop by exact Hc.
  change (str (rev (c :: l)) = (prefix ++ name)%string).
  rewrite <- HX, EX, rev_app_distr, !rev_involutive.
  now rewrite str_app, !str_chars.
Qed.

(** X20: the project of a record is the name of the directory that
    holds the log file. *)
Theorem project_is_directory_name (prefix name file : string)
  (entries : list json) (r : ConvRecord.t) :
  dir_prefix prefix -> name <> "" ->
  free_of "/" name -> free_of "/" file ->
  extract_conversation_data (prefix ++ name ++ "/" ++ file) entries = Ok r ->
  ConvRecord.project r = name.
Proof.
  intros Hp Hne Hn Hf H.
  apply extract_parts in H as (st & sg & ft & wt & dt & H).
  destruct H as (_ & _ & _ & _ & _ & _ & _ & _ & _ & _ & _ & _ & _ & _
                 & _ & _ & ->).
  rewrite dirname_of_path by assumption.
  now apply basename_of_path.
Qed.

Lemma project_is_directory_name_witness :
  exists r,
    extract_conversation_data sample_path plain_log = Ok r
    /\ ConvRecord.project r = "-Users-kate-foo".
Proof.
  destruct (extract_conversation_data sample_path plain_log)
    as [e|r] eqn:E; [vm_compute in E; discriminate E|].
  exists r. split; [reflexivity|].
  apply (project_is_directory_name "/home/u/.claude/projects/"
           "-Users-kate-foo" "abc.jsonl" plain_log r).
  - right. now exists "/home/u/.claude/projects".
  - discriminate.
  - unfold free_of. cbn. repeat constructor; discriminate.
  - unfold free_of. cbn. repeat constructor; discriminate.
  - exact E.
Defined.

Lemma remove_suffix (sid : string) :
  free_of "." sid -> remove_all ".jsonl" O (sid ++ ".jsonl") = sid.
Proof.
  unfold free_of. induction sid as [|a sid IH]; intros H.
  - reflexivity.
  - cbn in H. inversion H as [|? ? Ha Hs]; subst.
    cbn [append remove_all String.prefix].
    destruct (ascii_dec "." a) as [E|_]; [congruence|].
    f_equal. now apply IH.
Qed.

Lemma free_of_app (c : ascii) (s t : string) :
  free_of c s -> free_of c t -> free_of c (s ++ t).
Proof.
  unfold free_of. intros Hs Ht. rewrite chars_app. apply Forall_app. auto.
Qed.

(** X21: the cache key of a log file [<dir>/<id>.jsonl] is [<id>], for
    an id without dots or slashes. *)
Theorem session_id_of_log_file (prefix sid : string) :
  dir_prefix prefix -> free_of "/" sid -> free_of "." sid ->
  session_id_of (prefix ++ sid ++ ".jsonl") = sid.
Proof.
  intros Hp Hs Hd. unfold session_id_of.
  rewrite basename_of_path.
  - now apply remove_suffix.
  - exact Hp.
  - apply free_of_app; [exact Hs|].
    unfold free_of. cbn. repeat constructor; discriminate.
Qed.

Lemma session_id_of_log_file_witness :
  session_id_of sample_path = "abc".
Proof.
  apply (session_id_of_log_file
           "/home/u/.claude/projects/-Users-kate-foo/" "abc").
  - right. now exists "/home/u/.claude/projects/-Users-kate-foo".
  - unfold free_of. cbn. repeat constructor; discriminate.
  - unfold free_of. cbn. repeat constructor; discriminate.
Defined.

End PathFacts.

(* ===================================================================== *)
(** * The scan of the log files *)
(* ===================================================================== *)

Module ScanFacts.
Import PyStr Py Extraction Cache Shared Notions MoreNotions PyFacts LoopLaws.
Import ResolveFacts.

(** One round of the scan leaves cache and flag as they are, or stores a
    freshly extracted record under the session id of the file and raises
    the flag. *)
Lemma index_file_cases (st : dict * bool) (f : log_file) :
  index_file st f = st
  \/ exists data,
       extract_conversation_data (file_path f) (file_entries f) = Ok data
       /\ index_file st f
          = (assign (session_id_of (file_path f)) (fresh_record f data)
               (fst st), true).
Proof.
  unfold index_file, index_file_try.
  destruct (needs_reparse (fst st) (session_id_of (file_path f))
              (current_mtime f)) as [e|b]; cbn [bind]; [now left|].
  destruct b; [|now left].
  destruct (extract_conversation_data (file_path f) (file_entries f))
    as [e|data]; cbn [bind]; [now left|].
  right. now exists data.
Qed.

Lemma has_key_assign (k k' : string) (v : json) (d : dict) :
  has_key k' d = true -> has_key k' (assign k v d) = true.
Proof.
  unfold has_key. destruct (String.eqb k' k) eqn:E.
  - apply String.eqb_eq in E. subst k'. now rewrite lookup_assign_same.
  - apply String.eqb_neq in E. now rewrite lookup_assign_other.
Qed.

Lemma scan_loop (files : list log_file) (st : dict * bool) :
  (forall sid, has_key sid (fst st) = true ->
     has_key sid (fst (fold_left index_file files st)) = true)
  /\ (forall sid,
        Forall (fun f => session_id_of (file_path f) <> sid) files ->
        lookup sid (fst (fold_left index_file files st))
        = lookup sid (fst st))
  /\ (snd st = true -> snd (fold_left index_file files st) = true)
  /\ (snd (fold_left index_file files st) = false ->
      fold_left index_file files st = st).
Proof.
  revert st. induction files as [|f files IH]; intros st; cbn [fold_left].
  - repeat split; auto.
  - destruct (IH (index_file st f)) as (I1 & I2 & I3 & I4). clear IH.
    destruct (index_file_cases st f) as [E|(data & _ & E)]; rewrite E in *.
    + repeat split; auto.
      intros sid Hf. inversion Hf; subst. now apply I2.
    + cbn [fst snd] in *. repeat split.
      * intros sid Hk. apply I1. now apply has_key_assign.
      * intros sid Hf. inversion Hf as [|? ? Hne Hf']; subst.
        rewrite (I2 sid Hf'). apply lookup_assign_other. congruence.
      * intros _. now apply I3.
      * intros Hfalse. rewrite I3 in Hfalse; [discriminate|reflexivity].
Qed.

(** X22: a scan never drops a session from the cache; it leaves the
    record of every session untouched whose log file is not among the
    scanned ones; and when it reports nothing to save, the cache is what
    it was. *)
Theorem scan_keeps_sessions (cache : dict) (all_files : list log_file) :
  (forall sid, has_key sid cache = true ->
     has_key sid (fst (index_files cache all_files)) = true)
  /\ (forall sid,
        Forall (fun f => session_id_of (file_path f) <> sid) all_files ->
        lookup sid (fst (index_files cache all_files)) = lookup sid cache)
  /\ (snd (index_files cache all_files) = false ->
      fst (index_files cache all_files) = cache).
Proof.
  unfold index_files.
  destruct (scan_loop all_files (cache, false)) as (I1 & I2 & _ & I4).
  split; [exact I1|]. split; [exact I2|].
  intros H. now rewrite (I4 H).
Qed.

Lemma fresh_record_up_to_date (f : log_file) (data : ConvRecord.t)
  (cache : dict) :
  needs_reparse
    (assign (session_id_of (file_path f)) (fresh_record f data) cache)
    (session_id_of (file_path f)) (current_mtime f)
  = Ok false.
Proof.
  unfold needs_reparse. rewrite lookup_assign_same.
  unfold fresh_record. cbn [get_default bind].
  rewrite lookup_assign_other by discriminate.
  rewrite lookup_assign_same. cbn [lt_number bind].
  rewrite Z.ltb_irrefl. reflexivity.
Qed.

(** X23: after a round of the scan on a file, a round of a new scan on
    the same file, unchanged, leaves the cache as it is and its flag
    false, so nothing is saved; and when the first round found the record
    stale and extracted a new one, the stored record is up to date: the
    second round does not re-parse. *)
Theorem index_file_twice (st : dict * bool) (f : log_file) :
  let sid := session_id_of (file_path f) in
  let cache' := fst (index_file st f) in
  index_file (cache', false) f = (cache', false)
  /\ (forall data,
        needs_reparse (fst st) sid (current_mtime f) = Ok true ->
        extract_conversation_data (file_path f) (file_entries f) = Ok data ->
        lookup sid cache' = Some (fresh_record f data)
        /\ needs_reparse cache' sid (current_mtime f) = Ok false).
Proof.
  intros sid cache'. subst sid cache'.
  unfold index_file at 2 3 4 5, index_file_try.
  destruct (needs_reparse (fst st) (session_id_of (file_path f))
              (current_mtime f)) as [e|b] eqn:N; cbn [bind].
  { split; [|discriminate].
    unfold index_file, index_file_try. cbn [fst]. now rewrite N. }
  destruct b.
  2:{ split; [|discriminate].
      unfold index_file, index_file_try. cbn [fst]. now rewrite N. }
  destruct (extract_conversation_data (file_path f) (file_entries f))
    as [e|data] eqn:X; cbn [bind].
  { split; [|discriminate].
    unfold index_file, index_file_try. cbn [fst]. rewrite N. cbn [bind].
    now rewrite X. }
  cbn [fst]. split.
  - unfold index_file, index_file_try. cbn [fst].
    now rewrite fresh_record_up_to_date.
  - intros data' _ [= <-]. split.
    + apply lookup_assign_same.
    + apply fresh_record_up_to_date.
Qed.

Lemma index_file_twice_witness :
  needs_reparse
    (fst (index_file (cache_without_episodes, false) (sample_file 5)))
    "abc" 5 = Ok false.
Proof.
  destruct (extract_conversation_data sample_path plain_log)
    as [e|data] eqn:E; [vm_compute in E; discriminate E|].
  apply (proj2 (index_file_twice (cache_without_episodes, false)
                  (sample_file 5)) data).
  - vm_compute. reflexivity.
  - exact E.
Defined.

Lemma prefix_refl (s : string) : String.prefix s s = true.
Proof.
  induction s as [|a s IH]; cbn; [reflexivity|].
  destruct (ascii_dec a a); [exact IH|congruence].
Qed.

(** X24: an id [resolve_session_id] returns is a key of the cache that
    starts with the id asked for, and is that id itself or the only key
    that starts with it; and when exactly one key starts with the id
    asked for, that key is returned. *)
Theorem resolved_id_is_cache_key (partial_id : string) (cache : dict) :
  let matches :=
    filter (fun sid => startswith sid partial_id) (map fst cache) in
  (forall sid e,
     resolve_session_id partial_id cache = (Some sid, e) ->
     e = NoError
     /\ In sid (map fst cache)
     /\ startswith sid partial_id = true
     /\ (sid = partial_id \/ matches = [sid]))
  /\ (forall sid,
        matches = [sid] ->
        resolve_session_id partial_id cache = (Some sid, NoError)).
Proof.
  intros matches. unfold resolve_session_id. fold matches.
  destruct (has_key partial_id cache) eqn:K.
  - apply has_key_in in K. split.
    + intros sid e [= <- <-]. repeat split; auto.
      apply prefix_refl.
    + intros sid Hm. f_equal. f_equal.
      assert (Hin : In partial_id matches).
      { apply filter_In. split; [exact K|apply prefix_refl]. }
      rewrite Hm in Hin. destruct Hin as [->|[]]. reflexivity.
  - split.
    + intros sid e H.
      destruct matches as [|m [|m' l]] eqn:Em; try discriminate H.
      injection H as <- <-.
      assert (Hin : In m matches) by (rewrite Em; now left).
      apply filter_In in Hin as [Hin Hs]. repeat split; auto.
    + intros sid ->. reflexivity.
Qed.

Lemma scan_keeps_sessions_witness :
  has_key "abd"
    (fst (Cache.index_files cache_three_ids [sample_file 9])) = true.
Proof.
  apply (proj1 (scan_keeps_sessions cache_three_ids
                  [sample_file 9]) "abd").
  reflexivity.
Defined.

Lemma resolved_id_is_cache_key_witness :
  Shared.resolve_session_id "abcd" cache_three_ids
  = (Some "abcdef", Shared.NoError).
Proof.
  apply (proj2 (resolved_id_is_cache_key "abcd" cache_three_ids)).
  reflexivity.
Defined.

End ScanFacts.

(* ===================================================================== *)
(** * Search: what is found *)
(* ===================================================================== *)

Module SearchMore.
Import PyStr Py StemText Search Notions MoreNotions PyFacts LoopLaws.
Import StemmerFacts SortFacts.

Lemma slice_incl {A : Type} (l : list A) (start stop : Z) (x : A) :
  In x (slice l start stop) -> In x l.
Proof.
  unfold slice. intros H.
  set (a := slice_bound start (List.length l)) in *.
  set (b := slice_bound stop (List.length l)) in *.
  rewrite <- (firstn_skipn a l). apply in_or_app. right.
  rewrite <- (firstn_skipn (b - a) (skipn a l)). apply in_or_app. now left.
Qed.

Lemma slice_length {A : Type} (l : list A) (start stop : Z) :
  (List.length (slice l start stop) <= List.length l)%nat.
Proof.
  unfold slice. rewrite length_firstn, length_skipn. lia.
Qed.

Lemma match_terms_blank (text : string) (matched : list string) :
  match_terms [] text matched = (matched, false).
Proof. reflexivity. Qed.

Lemma space_not_word (c : ascii) :
  is_space c = true -> lower_char c = c /\ is_word_char c = false.
Proof.
  unfold is_space, lower_char, is_word_char, is_letter, is_upper, is_lower,
    is_digit.
  intros H.
  assert (Hn : (nat_of_ascii c <= 32)%nat).
  { apply orb_true_iff in H as [H|H]; apply andb_true_iff in H as [_ H];
      apply Nat.leb_le in H; lia. }
  assert (H65 : (65 <=? nat_of_ascii c)%nat = false)
    by (apply Nat.leb_gt; lia).
  assert (H97 : (97 <=? nat_of_ascii c)%nat = false)
    by (apply Nat.leb_gt; lia).
  assert (H48 : (48 <=? nat_of_ascii c)%nat = false)
    by (apply Nat.leb_gt; lia).
  rewrite H65, H97, H48. cbn [andb orb]. split; [reflexivity|].
  apply Ascii.eqb_neq. intros ->. cbn in Hn. lia.
Qed.

Lemma blank_lower (l : list ascii) :
  Forall (fun c => is_space c = true) l -> map lower_char l = l.
Proof.
  induction 1 as [|c l Hc Hl IH]; cbn [map]; [reflexivity|].
  rewrite IH. f_equal. now apply space_not_word.
Qed.

Lemma blank_split (l : list ascii) :
  Forall (fun c => is_space c = true) l -> split_ws [] l = [].
Proof.
  induction 1 as [|c l Hc Hl IH]; cbn [split_ws]; [reflexivity|].
  now rewrite Hc.
Qed.

Lemma blank_runs (l : list ascii) :
  Forall (fun c => is_space c = true) l -> word_runs [] l = [].
Proof.
  induction 1 as [|c l Hc Hl IH]; cbn [word_runs]; [reflexivity|].
  apply space_not_word in Hc as [_ Hc]. now rewrite Hc.
Qed.

Lemma blank_query (query : string) :
  Forall (fun c => is_space c = true) (chars query) ->
  split_ws [] (chars (lower query)) = [] /\ stem_query query = [].
Proof.
  intros H. unfold lower. rewrite chars_str, blank_lower by exact H.
  split; [now apply blank_split|].
  unfold stem_query, stem_text, stems_of, words_of, findall_words, lower.
  rewrite chars_str, blank_lower by exact H.
  now rewrite blank_runs.
Qed.

Section WithCollaborators.
Variable fromisoformat_utc : string -> option Z.
Variable get_notes_for_session : string -> list string.
Variable recency_boost : json -> Z.
Variable D : Type.
Variable display : string -> json -> list string -> list string -> bool
                   -> res D.

Lemma score_record_bounds (query_terms query_stems : list string)
  (session_id : string) (data : json) (score : Z)
  (match_source matched_terms : list string) (text_matched : bool) :
  score_record get_notes_for_session query_terms query_stems session_id data
  = Ok (score, match_source, matched_terms, text_matched) ->
  0 <= score <= 10
  /\ (query_terms = [] -> query_stems = [] -> score = 0).
Proof.
  unfold score_record. intros H. do 9 step H.
  injection H as <- _ _ _.
  unfold SCORE_WORK_ITEMS, SCORE_NOTES, SCORE_FILES, SCORE_COMMANDS,
    SCORE_TEXT.
  split.
  - repeat match goal with
           | |- context [if ?b then _ else _] => destruct b
           end; lia.
  - intros -> ->. cbn [for_each] in E7. injection E7 as <-.
    rewrite !match_terms_blank. reflexivity.
Qed.

(** One round of the search loop adds nothing or one result, for a
    record that passed the filters and scored. *)
Lemma search_step_scored (query_terms query_stems : list string)
  (project : option string) (after_dt before_dt : option Z)
  (results results' : list (SearchResult.t D)) (item : string * json) :
  search_step fromisoformat_utc get_notes_for_session recency_boost D display
    query_terms query_stems project after_dt before_dt results item
  = Ok results' ->
  results' = results
  \/ (passes_filters fromisoformat_utc project after_dt before_dt (snd item)
      = Ok true
      /\ (query_terms = [] -> query_stems = [] -> False)
      /\ exists r, results' = results ++ [r]
                   /\ SearchResult.sessionId r = fst item
                   /\ 1 <= SearchResult.score r
                           - recency_boost (field "timestamp" JNull (snd item))).
Proof.
  unfold search_step. intros H. step H.
  destruct b; cbn [negb] in H; [|left; now injection H as <-].
  step H. destruct p as [[[score match_source] matched_terms] tm].
  apply score_record_bounds in E0 as [Hb Hz].
  destruct (score =? 0) eqn:Z0; [left; now injection H as <-|].
  apply Z.eqb_neq in Z0.
  do 3 step H. injection H as <-.
  right. split; [reflexivity|]. split; [intros A B; now apply Z0, Hz|].
  eexists. split; [reflexivity|]. split; [reflexivity|].
  cbn [SearchResult.score].
  assert (Hts : j = field "timestamp" JNull (snd item)).
  { match goal with
    | Hg : get _ "timestamp" = Ok _ |- _ =>
        destruct (snd item); try discriminate Hg;
        cbn in Hg; now injection Hg as <-
    end. }
  rewrite <- Hts. unfold SCORE_MULTI_TERM_BONUS.
  destruct (1 <? Z.of_nat (List.length matched_terms)) eqn:L.
  - apply Z.ltb_lt in L. lia.
  - lia.
Qed.

Lemma search_loop_scored (query_terms query_stems : list string)
  (project : option string) (after_dt before_dt : option Z)
  (P : SearchResult.t D -> Prop) (all cache : dict)
  (results found : list (SearchResult.t D)) :
  (forall r item,
     In item all ->
     passes_filters fromisoformat_utc project after_dt before_dt (snd item)
     = Ok true ->
     SearchResult.sessionId r = fst item ->
     1 <= SearchResult.score r
          - recency_boost (field "timestamp" JNull (snd item)) ->
     P r) ->
  incl cache all ->
  for_each
    (search_step fromisoformat_utc get_notes_for_session recency_boost D
       display query_terms query_stems project after_dt before_dt)
    cache results = Ok found ->
  Forall P results ->
  Forall P found
  /\ (List.length found <= List.length results + List.length cache)%nat
  /\ (query_terms = [] -> query_stems = [] -> found = results).
Proof.
  intros HP. revert results.
  induction cache as [|item cache IH]; intros results Hi H Hr.
  - injection H as <-. cbn. repeat split; auto. lia.
  - cbn [for_each] in H. step H.
    assert (Hi' : incl cache all) by (intros x Hx; apply Hi; now right).
    apply search_step_scored in E
      as [->|(Hf & Hq & r & -> & Hsid & Hsc)].
    + destruct (IH results Hi' H Hr) as (I1 & I2 & I3).
      repeat split; auto. cbn [List.length]. lia.
    + destruct (IH (results ++ [r]) Hi' H) as (I1 & I2 & I3).
      { apply Forall_app. split; [exact Hr|]. constructor; [|constructor].
        apply (HP r item); auto. apply Hi. now left. }
      repeat split; auto.
      * rewrite length_app in I2. cbn [List.length] in *. lia.
      * intros A B. destruct (Hq A B).
Qed.

(** X25: every result of a search is a session of the cache whose
    record passed the filters and whose score, without the recency
    boost, is at least 1; the page is no longer than the number of
    matches, which is no more than the number of cached sessions; and
    for [skip >= 0] and [limit >= 0] the page holds at most [limit]
    results. *)
Theorem search_results_scored_sessions (cache : dict) (query : string)
  (limit skip : Z) (project after before : option string) (recent : bool)
  (out : outcome D) :
  search fromisoformat_utc get_notes_for_session recency_boost D display
    cache query limit skip project after before recent = Ok out ->
  Forall
    (fun r =>
       exists data,
         In (SearchResult.sessionId r, data) cache
         /\ passes_filters fromisoformat_utc project
              (parse_bound fromisoformat_utc after)
              (parse_bound fromisoformat_utc before) data = Ok true
         /\ 1 <= SearchResult.score r
                 - recency_boost (field "timestamp" JNull data))
    (results out)
  /\ (List.length (results out) <= totalMatches out)%nat
  /\ (totalMatches out <= List.length cache)%nat
  /\ (0 <= skip -> 0 <= limit ->
      (List.length (results out) <= Z.to_nat limit)%nat).
Proof.
  unfold search. intros H. do 2 step H. injection H as <-.
  rename l into found. rename l0 into sorted.
  cbn [results totalMatches].
  assert (Hp : Permutation found sorted).
  { unfold sort_results in E0.
    destruct recent; eapply sort_desc_perm; eauto. }
  set (P := fun r : SearchResult.t D =>
       exists data,
         In (SearchResult.sessionId r, data) cache
         /\ passes_filters fromisoformat_utc project
              (parse_bound fromisoformat_utc after)
              (parse_bound fromisoformat_utc before) data = Ok true
         /\ 1 <= SearchResult.score r
                 - recency_boost (field "timestamp" JNull data)).
  destruct (search_loop_scored (split_ws [] (chars (lower query)))
              (stem_query query) project
              (parse_bound fromisoformat_utc after)
              (parse_bound fromisoformat_utc before) P cache cache [] found)
    as (I1 & I2 & _); [ | apply incl_refl | exact E | constructor | ].
  { intros r item Hin Hf Hsid Hsc.
    exists (snd item). rewrite Hsid, <- surjective_pairing.
    split; [exact Hin|]. split; [exact Hf|exact Hsc]. }
  split; [|split; [|split]].
  - apply Forall_forall. intros r Hr. apply slice_incl in Hr.
    eapply Permutation_Forall in I1; [|exact Hp].
    rewrite Forall_forall in I1. now apply I1.
  - apply slice_length.
  - rewrite <- (Permutation_length Hp). exact I2.
  - intros Hs Hl. rewrite slice_nonneg by assumption.
    rewrite length_firstn. lia.
Qed.

(** X26: a query of white space only finds nothing. *)
Theorem blank_query_finds_nothing (cache : dict) (query : string)
  (limit skip : Z) (project after before : option string) (recent : bool)
  (out : outcome D) :
  Forall (fun c => is_space c = true) (chars query) ->
  search fromisoformat_utc get_notes_for_session recency_boost D display
    cache query limit skip project after before recent = Ok out ->
  results out = [] /\ totalMatches out = 0%nat.
Proof.
  intros Hb H. apply blank_query in Hb as [Ht Hs].
  unfold search in H. rewrite Ht, Hs in H. do 2 step H.
  injection H as <-. cbn [results totalMatches].
  destruct (search_loop_scored [] [] project
              (parse_bound fromisoformat_utc after)
              (parse_bound fromisoformat_utc before)
              (fun _ => True) cache cache [] l) as (_ & _ & I3);
    [ auto | apply incl_refl | exact E | constructor | ].
  rewrite (I3 eq_refl eq_refl) in E0.
  assert (l0 = []) as ->.
  { unfold sort_results in E0. destruct recent; cbn in E0;
      now injection E0 as <-. }
  split; [|reflexivity].
  pose proof (slice_length (@nil (SearchResult.t D)) skip (skip + limit))
    as Hl.
  destruct (slice [] skip (skip + limit)); [reflexivity|].
  cbn in Hl. lia.
Qed.

End WithCollaborators.

Lemma search_results_scored_sessions_witness :
  exists out,
    toy_search cache_two_sessions "bug" 1 1 None None false = Ok out
    /\ (List.length (results out) <= 1)%nat.
Proof.
  destruct (toy_search cache_two_sessions "bug" 1 1 None None false)
    as [e|out] eqn:E; [vm_compute in E; discriminate E|].
  exists out. split; [reflexivity|].
  destruct (search_results_scored_sessions _ _ _ _ _ _ _ _ _ _ _ _ _ _ E)
    as (_ & _ & _ & Hl).
  apply Hl; lia.
Defined.

Lemma blank_query_finds_nothing_witness :
  exists out,
    toy_search cache_two_sessions "  " 5 0 None None false = Ok out
    /\ results out = [].
Proof.
  destruct (toy_search cache_two_sessions "  " 5 0 None None false)
    as [e|out] eqn:E; [vm_compute in E; discriminate E|].
  exists out. split; [reflexivity|].
  refine (proj1 (blank_query_finds_nothing _ _ _ _ _ _ _ _ _ _ _ _ _ _ _ E)).
  repeat constructor.
Defined.

End SearchMore.

(* ===================================================================== *)
(** * Display helpers and notes *)
(* ===================================================================== *)

Module FormatFacts.
Import PyStr Py Formatters Notes Notions MoreNotions PyFacts.
Import StemmerFacts StringFacts PathFacts.

Lemma not_empty_value (v : json) :
  negb (member v [JArr []; JObj []; JStr ""; JNull; JNum 0])
  && negb (is_False v) = truthy v.
Proof.
  destruct v as [|b|n|s|l|d]; cbn.
  - reflexivity.
  - now destruct b.
  - destruct (n =? 0); reflexivity.
  - destruct (String.eqb s ""); reflexivity.
  - destruct l; reflexivity.
  - destruct d as [|[k v] d]; reflexivity.
Qed.

(** X27: [omit_empty] keeps, in their order, exactly the items whose
    value is true in a condition, and the item [success] whatever its
    value: its list of empty values and Python's truth value agree on
    every decoded value. Applying it twice is applying it once. *)
Theorem omit_empty_keeps_truthy (d : dict) :
  omit_empty d
  = filter (fun kv => truthy (snd kv) || String.eqb (fst kv) "success") d
  /\ (forall k v,
        In (k, v) (omit_empty d)
        <-> In (k, v) d /\ (truthy v = true \/ k = "success"))
  /\ omit_empty (omit_empty d) = omit_empty d.
Proof.
  assert (E : omit_empty d
    = filter (fun kv => truthy (snd kv) || String.eqb (fst kv) "success") d).
  { unfold omit_empty. apply filter_ext. intros [k v].
    now rewrite not_empty_value. }
  split; [exact E|]. split.
  - intros k v. rewrite E, filter_In. cbn [fst snd].
    rewrite orb_true_iff, String.eqb_eq. reflexivity.
  - unfold omit_empty. apply forallb_filter_id. apply forallb_forall.
    intros kv Hin. now apply filter_In in Hin.
Qed.

Lemma omit_empty_keeps_truthy_witness :
  omit_empty sample_result
  = [ ("success", JBool false); ("query", JStr "bug");
      ("exact", JBool true) ].
Proof.
  rewrite (proj1 (omit_empty_keeps_truthy sample_result)). reflexivity.
Defined.

Lemma split_char_nonempty (sep : ascii) (cs cur : list ascii) :
  split_char sep cur cs <> [].
Proof.
  revert cur. induction cs as [|c cs IH]; intros cur; cbn [split_char].
  - discriminate.
  - destruct (Ascii.eqb c sep); [discriminate|apply IH].
Qed.

Lemma last_cons {A : Type} (a d : A) (l : list A) :
  l <> [] -> last (a :: l) d = last l d.
Proof. destruct l; [congruence|reflexivity]. Qed.

Lemma split_char_last_free (sep : ascii) (cs cur : list ascii) (d : string) :
  Forall (fun ch => ch <> sep) cs ->
  last (split_char sep cur cs) d = str (rev cur ++ cs).
Proof.
  intros H. revert cur.
  induction H as [|c cs Hc Hcs IH]; intros cur; cbn [split_char].
  - now rewrite app_nil_r.
  - apply Ascii.eqb_neq in Hc. rewrite Hc, IH. cbn [rev].
    now rewrite <- app_assoc.
Qed.

Lemma split_char_last (sep : ascii) (l1 l2 cur : list ascii) (d : string) :
  Forall (fun ch => ch <> sep) l2 ->
  last (split_char sep cur (l1 ++ sep :: l2)) d = str l2.
Proof.
  intros H. revert cur.
  induction l1 as [|c l1 IH]; intros cur; cbn [app split_char].
  - rewrite Ascii.eqb_refl, last_cons by apply split_char_nonempty.
    now rewrite split_char_last_free.
  - destruct (Ascii.eqb c sep).
    + rewrite last_cons by apply split_char_nonempty. apply IH.
    + apply IH.
Qed.

Lemma last_separator (sep : ascii) (l : list ascii) :
  Forall (fun ch => ch <> sep) l
  \/ exists l1 l2, l = l1 ++ sep :: l2 /\ Forall (fun ch => ch <> sep) l2.
Proof.
  induction l as [|a l [IH|(l1 & l2 & -> & IH)]].
  - left. constructor.
  - destruct (ascii_dec a sep) as [->|N].
    + right. now exists [], l.
    + left. now constructor.
  - right. now exists (a :: l1), l2.
Qed.

Lemma short_project_free (s : string) :
  free_of "-" s -> short_project (JStr s) = Ok s.
Proof.
  intros H. unfold short_project. cbn [truthy].
  destruct (String.eqb s "") eqn:E; cbn [negb].
  - apply String.eqb_eq in E. now subst.
  - rewrite split_char_last_free by exact H. cbn [rev app].
    now rewrite str_chars.
Qed.

Lemma short_project_segment (pre p : string) :
  free_of "-" p -> short_project (JStr (pre ++ "-" ++ p)) = Ok p.
Proof.
  intros H. unfold short_project. cbn [truthy].
  assert (E : String.eqb (pre ++ "-" ++ p) "" = false)
    by (destruct pre; reflexivity).
  rewrite E. cbn [negb]. rewrite chars_app.
  change (chars ("-" ++ p)) with ("-"%char :: chars p).
  rewrite split_char_last by exact H. now rewrite str_chars.
Qed.

(** X28: [short_project] gives the part of a project name after its
    last ["-"], and the whole name when it has none; so its result has
    no ["-"] and is left as it is by a second call. *)
Theorem short_project_last_segment :
  (forall s, free_of "-" s -> short_project (JStr s) = Ok s)
  /\ (forall pre p,
        free_of "-" p -> short_project (JStr (pre ++ "-" ++ p)) = Ok p)
  /\ (forall v p,
        short_project v = Ok p ->
        free_of "-" p /\ short_project (JStr p) = Ok p).
Proof.
  split; [exact short_project_free|]. split; [exact short_project_segment|].
  intros v p H.
  assert (Hfree : free_of "-" p).
  { unfold short_project in H.
    destruct (truthy v) eqn:T; cbn [negb] in H.
    2:{ injection H as <-. constructor. }
    destruct v as [| | |s| |]; try discriminate H.
    destruct (last_separator "-" (chars s)) as [Hf|(l1 & l2 & E & Hf)].
    - rewrite (split_char_last_free "-" (chars s) [] s Hf) in H.
      cbn [rev app] in H. rewrite str_chars in H. injection H as <-.
      exact Hf.
    - rewrite E, split_char_last in H by exact Hf. injection H as <-.
      unfold free_of. now rewrite chars_str. }
  split; [exact Hfree|now apply short_project_free].
Qed.

Lemma short_project_last_segment_witness :
  short_project (JStr "-Users-kate-Projects-foo") = Ok "foo".
Proof.
  apply (proj1 (proj2 short_project_last_segment) "-Users-kate-Projects").
  unfold free_of. cbn. repeat constructor; discriminate.
Defined.

(** X29: adding a note to a session appends it to the notes of that
    session, returns the new number of notes, and leaves the notes of
    every other session as they were. *)
Theorem add_note_appends (notes_cache : dict) (session_id note : string) :
  (forall v, lookup session_id notes_cache = Some v -> exists l, v = JArr l) ->
  exists old notes_cache',
    get_notes_for_session notes_cache session_id = JArr old
    /\ add_note_to_session notes_cache session_id note
       = Ok (notes_cache', (List.length old + 1)%nat)
    /\ get_notes_for_session notes_cache' session_id
       = JArr (old ++ [JStr note])
    /\ forall sid, sid <> session_id ->
         get_notes_for_session notes_cache' sid
         = get_notes_for_session notes_cache sid.
Proof.
  intros H. unfold get_notes_for_session, add_note_to_session, has_key.
  destruct (lookup session_id notes_cache) as [v|] eqn:E.
  - destruct (H v eq_refl) as [l ->]. rewrite E.
    exists l. eexists. split; [reflexivity|].
    split; [now rewrite length_app|].
    rewrite lookup_assign_same. split; [reflexivity|].
    intros sid N. now rewrite lookup_assign_other.
  - rewrite lookup_assign_same.
    exists []. eexists. split; [reflexivity|].
    split; [reflexivity|].
    rewrite lookup_assign_same. split; [reflexivity|].
    intros sid N. now rewrite !lookup_assign_other.
Qed.

Lemma add_note_appends_witness :
  exists notes_cache',
    add_note_to_session sample_notes "abc" "see also the lexer"
    = Ok (notes_cache', 3%nat)
    /\ get_notes_for_session notes_cache' "abc"
       = JArr [JStr "auth bug"; JStr "fixed in the parser";
               JStr "see also the lexer"].
Proof.
  destruct (add_note_appends sample_notes "abc" "see also the lexer")
    as (old & notes' & Hold & Hadd & Hget & _).
  - intros v Hv. vm_compute in Hv. injection Hv as <-. eauto.
  - vm_compute in Hold. injection Hold as <-.
    exists notes'. split; [exact Hadd|exact Hget].
Defined.

End FormatFacts.

(* ===================================================================== *)
(** * The session id of a record *)
(* ===================================================================== *)

Module SessionFacts.
Import PyStr Py Extraction Notions MoreNotions PyFacts LoopLaws.

Lemma entry_step_session (st st' : loop_state) (entry : json) :
  entry_step st entry = Ok st' ->
  (truthy (session_id st) = true -> session_id st' = session_id st)
  /\ (truthy (session_id st) = false ->
      (truthy (field "sessionId" JNull entry) = true ->
       session_id st' = field "sessionId" JNull entry)
      /\ (truthy (field "sessionId" JNull entry) = false ->
          truthy (session_id st') = false)).
Proof.
  intros H. unfold entry_step in H. do 9 step H.
  injection H as <-. cbn [session_id].
  destruct entry as [| | | | |d]; try discriminate E1.
  cbn [contains_key] in E. injection E as <-.
  unfold has_key, getitem in E0. cbn [field].
  destruct (truthy (session_id st)) eqn:T.
  - rewrite andb_false_r in E0. injection E0 as <-.
    split; [reflexivity|discriminate].
  - split; [discriminate|]. intros _.
    destruct (lookup "sessionId" d) as [v|]; cbn [andb negb] in E0;
      injection E0 as <-.
    + split; [reflexivity|auto].
    + split; [discriminate|auto].
Qed.

Lemma entries_loop_session (entries : list json) (st0 st : loop_state) :
  for_each entry_step entries st0 = Ok st ->
  if truthy (session_id st0) then session_id st = session_id st0
  else match find truthy (map (field "sessionId" JNull) entries) with
       | Some v => session_id st = v
       | None => truthy (session_id st) = false
       end.
Proof.
  revert st0. induction entries as [|entry entries IH]; intros st0 H.
  - injection H as <-. cbn. now destruct (truthy (session_id st0)) eqn:T.
  - cbn [for_each] in H. step H. specialize (IH _ H).
    apply entry_step_session in E as [E1 E2].
    cbn [map find].
    destruct (truthy (session_id st0)) eqn:T.
    + rewrite (E1 eq_refl) in IH. now rewrite T in IH.
    + destruct (E2 eq_refl) as [E3 E4].
      destruct (truthy (field "sessionId" JNull entry)) eqn:Tf.
      * rewrite (E3 eq_refl) in IH. now rewrite Tf in IH.
      * now rewrite (E4 eq_refl) in IH.
Qed.

(** X30: the session id of a record is the first [sessionId] of the
    log that is true in a condition, and ["unknown"] when the log has
    none; so it is never empty. *)
Theorem session_id_is_first_in_log (jsonl_file : string)
  (entries : list json) (r : ConvRecord.t) :
  extract_conversation_data jsonl_file entries = Ok r ->
  ConvRecord.session_id r
  = first_truthy (map (field "sessionId" JNull) entries) (JStr "unknown")
  /\ truthy (ConvRecord.session_id r) = true.
Proof.
  intros H. unfold extract_conversation_data in H. do 9 step H.
  injection H as <-. cbn [ConvRecord.session_id].
  apply entries_loop_session in E. cbn [initial_state session_id truthy] in E.
  unfold first_truthy.
  destruct (find truthy (map (field "sessionId" JNull) entries))
    as [v|] eqn:F.
  - apply find_some in F as [_ Tv]. rewrite E, Tv. auto.
  - rewrite E. auto.
Qed.

Lemma session_id_is_first_in_log_witness :
  exists r,
    extract_conversation_data sample_path plain_log = Ok r
    /\ ConvRecord.session_id r = JStr "abc".
Proof.
  destruct (extract_conversation_data sample_path plain_log)
    as [e|r] eqn:E; [vm_compute in E; discriminate E|].
  exists r. split; [reflexivity|].
  now rewrite (proj1 (session_id_is_first_in_log _ _ _ E)).
Defined.

End SessionFacts.
